(** * MindBridge privacy engine: circuits, proof service, encrypted analytics

    A shallow embedding of the privacy-preserving verification and
    aggregation code of [MindBridge_Privacy_Blockchain_Architecture.md]:

    - the two circom templates [WellnessMilestoneProof] and
      [PeerSupportVerification] with their helper templates, over the
      scalar field of BN254 (module [Circom]);
    - the TypeScript class [AdvancedZKProofService] (module [ZKService]);
    - the TypeScript classes [PrivacyPreservingAnalytics] and
      [LaplaceMechanism] (modules [Analytics] and [Gradients]);
    - the Solidity contracts [MentalHealthDataNFT] and
      [DataSovereigntyMarketplace] (modules of the same names, over
      [Evm]).

    Conventions.  A promise that rejects and a [throw] are both the left
    injection of [Error + A].  A call reads the clock through the times
    it is given, and an [async] method of the proof service is given by
    its outcome and its writes to the proof cache, so that calls in
    progress together can be told from calls awaited one after the
    other.  Numbers that the code computes with [Number] and [/] are
    doubles.  [console.log] and [console.error] have no effect on any
    value and are left out. *)

From Stdlib Require Import ZArith Zquot QArith Qround Qabs Ascii String SpecFloat.
From stdpp Require Import gmap strings list fin_maps.

(** ** The circom circuits *)

Module Circom.

Local Open Scope Z_scope.

(** *** Field arithmetic

    circom signals and variables are elements of the scalar field of
    BN254, kept here as integers in [[0, p)]. *)

Definition p : Z :=
  21888242871839275222246405745257275088548364400416034343698204186575808495617.

Definition Fr (x : Z) : Z := x mod p.

Definition fadd (a b : Z) : Z := (a + b) mod p.
Definition fsub (a b : Z) : Z := (a - b) mod p.
Definition fmul (a b : Z) : Z := (a * b) mod p.

(** The inverse modulo [p] by the extended Euclidean algorithm on
    [(p, a)]: [r0], [r1] are successive remainders and [t0], [t1] the
    matching coefficients of [a].  The loop runs at most [fuel] rounds; the
    remainders of a 254-bit modulus are exhausted long before 512.  An
    element without inverse, zero, comes out as zero, so a division
    by zero inside witness computation raises no error of its own. *)
Fixpoint finv_loop (fuel : nat) (r0 r1 t0 t1 : Z) : Z :=
  match fuel with
  | O => 0
  | S fuel' =>
      if r1 =? 0 then (if r0 =? 1 then t0 mod p else 0)
      else let q := r0 / r1 in
           finv_loop fuel' r1 (r0 - q * r1) t1 (t0 - q * t1)
  end.

Definition finv (a : Z) : Z := finv_loop 512 p (a mod p) 0 1.

(** circom's [/] on field elements: multiplication by the inverse. *)
Definition fdiv (a b : Z) : Z := fmul a (finv b).

(** circom's relational operators read a field element as a signed
    number: the upper half of the field is negative. *)
Definition val (z : Z) : Z := if p / 2 + 1 <=? z then z - p else z.

Definition fgt (a b : Z) : bool := val b <? val a.

(** *** circomlib templates used by the circuits

    [comparators.circom], [bitify.circom] and [gates.circom] are
    included by the circuits; a template whose constraints cannot be
    satisfied has no witness, which is [None] here. *)

(** [Num2Bits(n)]: [out[i] <-- (in >> i) & 1], each bit boolean, and
    the constraint [lc1 === in] on the recomposed number. *)
Definition Num2Bits (n : nat) (inp : Z) : option (list Z) :=
  let out := map (fun i => Z.land (Z.shiftr inp (Z.of_nat i)) 1) (seq 0 n) in
  let lc1 :=
    fold_left (fun acc i => fadd acc (fmul (nth i out 0) (Fr (2 ^ Z.of_nat i))))
              (seq 0 n) 0 in
  if lc1 =? inp then Some out else None.

(** [LessThan(n)]: [n2b.in <== in[0] + (1<<n) - in[1]],
    [out <== 1 - n2b.out[n]]. *)
Definition LessThan (n : nat) (in0 in1 : Z) : option Z :=
  match Num2Bits (n + 1) (fsub (fadd in0 (Z.shiftl 1 (Z.of_nat n))) in1) with
  | Some out => Some (fsub 1 (nth n out 0))
  | None => None
  end.

(** [GreaterEqThan(n)]: [lt.in[0] <== in[1]], [lt.in[1] <== in[0]+1]. *)
Definition GreaterEqThan (n : nat) (in0 in1 : Z) : option Z :=
  LessThan n in1 (fadd in0 1).

(** [AND()]: [out <== a*b]. *)
Definition AND (a b : Z) : Z := fmul a b.

(** *** Helper templates for statistical analysis *)

(** [Average(n)]: the sum of the inputs divided by [n]. *)
Definition Average (n : nat) (inputs : list Z) : Z :=
  let sum := fold_left (fun sum i => fadd sum (nth i inputs 0)) (seq 0 n) 0 in
  fdiv sum (Fr (Z.of_nat n)).

(** [FrequencyAnalyzer(n)]: the mean gap between consecutive inputs. *)
Definition FrequencyAnalyzer (n : nat) (inputs : list Z) : Z :=
  let totalGaps :=
    fold_left (fun totalGaps i =>
                 fadd totalGaps (fsub (nth i inputs 0) (nth (i - 1) inputs 0)))
              (seq 1 (n - 1)) 0 in
  fdiv totalGaps (Fr (Z.of_nat n - 1)).

(** [TrendAnalysis(n)]: the slope of a linear regression of the mood
    data against the index.  [timeData] is an input that the template
    never reads. *)
Definition TrendAnalysis (n : nat) (moodData timeData : list Z) : Z :=
  let '(sumX, sumY, sumXY, sumXX) :=
    fold_left (fun '(sumX, sumY, sumXY, sumXX) i =>
                 let fi := Fr (Z.of_nat i) in
                 (fadd sumX fi,
                  fadd sumY (nth i moodData 0),
                  fadd sumXY (fmul fi (nth i moodData 0)),
                  fadd sumXX (fmul fi fi)))
              (seq 0 n) (0, 0, 0, 0) in
  let fn := Fr (Z.of_nat n) in
  let numerator := fsub (fmul fn sumXY) (fmul sumX sumY) in
  let denominator := fsub (fmul fn sumXX) (fmul sumX sumX) in
  fdiv numerator denominator.

(** [SupportQualityCalculator(n)]: the two accumulators of the loop,
    then the division of one by the other.  There is no test on
    [validInteractions] before the division. *)
Definition quality_loop (n : nat) (inputs : list Z) : Z * Z :=
  fold_left (fun '(totalScore, validInteractions) i =>
               if fgt (nth i inputs 0) 0
               then (fadd totalScore (nth i inputs 0), fadd validInteractions 1)
               else (totalScore, validInteractions))
            (seq 0 n) (0, 0).

Definition SupportQualityCalculator (n : nat) (inputs : list Z) : Z :=
  let '(totalScore, validInteractions) := quality_loop n inputs in
  fdiv totalScore validInteractions.

(** *** The two main templates *)

Record WellnessPrivate := {
  mentalHealthScore : Z;
  sessionCount : Z;
  consistencyDays : Z;
  moodImprovementScore : Z;
  userPrivateKey : Z;
  sessionTimestamps : list Z;
  dailyMoodScores : list Z
}.

Record WellnessPublic := {
  minWellnessThreshold : Z;
  minSessionRequirement : Z;
  minConsistencyDays : Z;
  minImprovementPercent : Z;
  milestoneType : Z;
  verificationTimestamp : Z
}.

Record WellnessOutputs := {
  milestoneAchieved : Z;
  achievementHash : Z;
  consistencyProof : Z;
  improvementProof : Z;
  privacyScore : Z
}.

Record PeerPrivate := {
  supporterExperience : Z;
  supporterWellnessScore : Z;
  supportHistory : list Z;
  supporterPrivateKey : Z
}.

Record PeerPublic := {
  minExperienceRequired : Z;
  minWellnessForSupport : Z;
  supportQualityThreshold : Z
}.

Record PeerOutputs := {
  canProvideSupport : Z;
  supportQualityScore : Z;
  anonymousCredential : Z
}.

Section Templates.

(** circomlib's Poseidon sponge, [poseidon.circom]. *)
Variable Poseidon : list Z → Z.

(** The four threshold checks and the three AND gates of
    [WellnessMilestoneProof], up to [milestoneAchieved <== finalAnd.out]. *)
Definition wellness_achieved (priv : WellnessPrivate) (pub : WellnessPublic)
  : option Z :=
  wellnessCheck ← GreaterEqThan 8 (mentalHealthScore priv) (minWellnessThreshold pub);
  sessionCheck ← GreaterEqThan 8 (sessionCount priv) (minSessionRequirement pub);
  consistencyCheck ← GreaterEqThan 8 (consistencyDays priv) (minConsistencyDays pub);
  improvementCheck ← GreaterEqThan 8 (moodImprovementScore priv) (minImprovementPercent pub);
  let milestoneAnd1 := AND wellnessCheck sessionCheck in
  let milestoneAnd2 := AND consistencyCheck improvementCheck in
  let finalAnd := AND milestoneAnd1 milestoneAnd2 in
  Some finalAnd.

Definition WellnessMilestoneProof (priv : WellnessPrivate) (pub : WellnessPublic)
  : option WellnessOutputs :=
  achieved ← wellness_achieved priv pub;
  let moodAverage := Average 30 (dailyMoodScores priv) in
  let sessionFrequency := FrequencyAnalyzer 30 (sessionTimestamps priv) in
  let trendAnalyzer :=
    TrendAnalysis 30 (dailyMoodScores priv) (sessionTimestamps priv) in
  Some {|
    milestoneAchieved := achieved;
    achievementHash :=
      Poseidon [mentalHealthScore priv; sessionCount priv; consistencyDays priv;
                moodImprovementScore priv; milestoneType pub;
                verificationTimestamp pub; userPrivateKey priv];
    consistencyProof :=
      Poseidon [sessionFrequency; consistencyDays priv; userPrivateKey priv];
    improvementProof :=
      Poseidon [trendAnalyzer; moodImprovementScore priv; userPrivateKey priv];
    privacyScore := milestoneType pub mod 6
  |}.

Definition PeerSupportVerification (priv : PeerPrivate) (pub : PeerPublic)
  : option PeerOutputs :=
  experienceCheck ← GreaterEqThan 8 (supporterExperience priv) (minExperienceRequired pub);
  wellnessCheck ← GreaterEqThan 8 (supporterWellnessScore priv) (minWellnessForSupport pub);
  let qualityScore := SupportQualityCalculator 20 (supportHistory priv) in
  qualityCheck ← GreaterEqThan 8 qualityScore (supportQualityThreshold pub);
  let supportAnd := AND experienceCheck wellnessCheck in
  Some {|
    canProvideSupport := fmul supportAnd qualityCheck;
    supportQualityScore := qualityScore;
    anonymousCredential :=
      Poseidon [supporterExperience priv; qualityScore;
                supporterWellnessScore priv; supporterPrivateKey priv]
  |}.

End Templates.

End Circom.

(** ** Errors and promises *)

Module Js.

Local Open Scope string_scope.

Record Error := { message : string }.

(** The outcome of a call that can throw, or of a settled promise. *)
Definition Result (A : Type) : Type := Error + A.

Definition throw {A} (msg : string) : Result A := inl {| message := msg |}.

Definition bind {A B} (m : Result A) (k : A → Result B) : Result B :=
  match m with
  | inl e => inl e
  | inr a => k a
  end.

Notation "'do' x <- m ; k" := (bind m (fun x => k))
  (at level 10, x pattern, m at level 100, k at level 200).

(** [try { body } catch (error) { handler }]. *)
Definition try_catch {A} (body : Result A) (handler : Error → Result A)
  : Result A :=
  match body with
  | inl error => handler error
  | inr a => inr a
  end.

(** [Promise.all]: the values in order, or the first rejection. *)
Fixpoint Promise_all {A} (promises : list (Result A)) : Result (list A) :=
  match promises with
  | [] => inr []
  | inl e :: _ => inl e
  | inr a :: rest => do values <- Promise_all rest; inr (a :: values)
  end.

(** *** Numbers

    A [number] is a double: NaN, an infinity, or a rational with a
    significand of 53 bits and an exponent of at least -1074.  The sign
    of zero is not kept. *)
Inductive number :=
  | NaN
  | Infinity (negative : bool)
  | Finite (x : Q).

(** [num / den] rounded to the nearest integer, a tie to the even one;
    [den] is positive. *)
Definition round_half_even (num den : Z) : Z :=
  let q := (num / den)%Z in
  match (2 * (num mod den) ?= den)%Z with
  | Lt => q
  | Gt => (q + 1)%Z
  | Eq => if Z.even q then q else (q + 1)%Z
  end.

(** The double nearest to [a / b], ties to even.  With [e] the exponent
    of the leading bit of [a / b], the result is a multiple [m] of
    [2 ^ u] for [u = max (e - 52) (-1074)]; from [2 ^ 1024] on it is
    [Infinity]. *)
Definition nearest_double_pos (a b : positive) : number :=
  let e0 := (Z.log2 (Z.pos a) - Z.log2 (Z.pos b))%Z in
  let e :=
    if (Z.pos b * 2 ^ Z.max e0 0 <=? Z.pos a * 2 ^ Z.max (- e0) 0)%Z
    then e0 else (e0 - 1)%Z in
  let u := Z.max (e - 52) (-1074) in
  let m := round_half_even (Z.pos a * 2 ^ Z.max (- u) 0)
                           (Z.pos b * 2 ^ Z.max u 0) in
  if (2 ^ 1024 * 2 ^ Z.max (- u) 0 <=? m * 2 ^ Z.max u 0)%Z
  then Infinity false
  else Finite (Qred (m * 2 ^ Z.max u 0 # Z.to_pos (2 ^ Z.max (- u) 0))).

Definition negate (x : number) : number :=
  match x with
  | NaN => NaN
  | Infinity negative => Infinity (negb negative)
  | Finite x => Finite (- x)
  end.

Definition nearest_double (x : Q) : number :=
  match Qnum x with
  | Z0 => Finite 0
  | Z.pos a => nearest_double_pos a (Qden x)
  | Z.neg a => negate (nearest_double_pos a (Qden x))
  end.

(** [Number(z)] for a [bigint] [z]. *)
Definition Number (z : Z) : number := nearest_double (inject_Z z).

(** [BigInt(x)] for a number [x]: a [RangeError] unless [x] is an
    integer; the message that V8 gives it names the number as well. *)
Definition BigInt (x : number) : Result Z :=
  match x with
  | Finite x =>
      if (Qnum x mod Z.pos (Qden x) =? 0)%Z then inr (Qnum x / Z.pos (Qden x))%Z
      else throw "The number cannot be converted to a BigInt because it is not an integer"
  | _ => throw "The number cannot be converted to a BigInt because it is not an integer"
  end.

Definition is_negative (x : Q) : bool := (Qnum x <? 0)%Z.

(** [x / y] on numbers. *)
Definition divide (x y : number) : number :=
  match x, y with
  | NaN, _ | _, NaN => NaN
  | Infinity _, Infinity _ => NaN
  | Infinity negative, Finite y => Infinity (xorb negative (is_negative y))
  | Finite _, Infinity _ => Finite 0
  | Finite x, Finite y =>
      if (Qnum y =? 0)%Z then
        (if (Qnum x =? 0)%Z then NaN else Infinity (is_negative x))
      else nearest_double (x / y)
  end.

End Js.

(** ** The proof service *)

Module ZKService.

Import Js.
Local Open Scope string_scope.

(** *** JavaScript values *)

(** The values that travel through the service as circuit inputs.  The
    TypeScript interfaces type them as numbers, strings and arrays of
    numbers; the batch entry point takes them as [any], so a property
    can also be missing. *)
Inductive JsValue :=
  | JsUndefined
  | JsNumber (n : Z)
  | JsString (s : string)
  | JsArray (a : list Z).

(** An object is the list of its properties in the order in which they
    were created, which is the order in which [JSON.stringify] writes
    them; a property name occurs once. *)
Definition JsObject : Type := list (string * JsValue).

(** [o.name]: a missing property reads as [undefined]. *)
Fixpoint prop (o : JsObject) (name : string) : JsValue :=
  match o with
  | [] => JsUndefined
  | (key, value) :: rest =>
      if bool_decide (key = name) then value else prop rest name
  end.

(** [parseInt(s)] with no radix argument: leading white space is
    skipped, then an optional sign, then an optional [0x] or [0X] that
    selects radix 16, then the longest run of digits of the radix.
    The result is the number nearest to the integer that was read, and
    [NaN] for [undefined] and for a string with no digit. *)
Definition digit_of (radix : Z) (c : ascii) : option Z :=
  let n := Z.of_nat (nat_of_ascii c) in
  let d :=
    (if (48 <=? n) && (n <=? 57) then n - 48
     else if (97 <=? n) && (n <=? 122) then n - 87
     else if (65 <=? n) && (n <=? 90) then n - 55
     else radix)%Z in
  if (d <? radix)%Z then Some d else None.

Fixpoint parse_digits (radix : Z) (s : string) (acc : option Z) : option Z :=
  match s with
  | EmptyString => acc
  | String c rest =>
      match digit_of radix c with
      | Some d => parse_digits radix rest (Some (default 0 acc * radix + d)%Z)
      | None => acc
      end
  end.

Fixpoint skip_blanks (s : string) : string :=
  match s with
  | String c rest =>
      if bool_decide (c = " "%char) || bool_decide (c = "009"%char)
         || bool_decide (c = "010"%char) || bool_decide (c = "011"%char)
         || bool_decide (c = "012"%char) || bool_decide (c = "013"%char)
      then skip_blanks rest else s
  | EmptyString => s
  end.

Definition parse_unsigned (s : string) : option Z :=
  match s with
  | String "0" (String "x" rest) => parse_digits 16 rest None
  | String "0" (String "X" rest) => parse_digits 16 rest None
  | _ => parse_digits 10 s None
  end.

Definition parse_signed (s : string) : option Z :=
  match skip_blanks s with
  | String "-" rest => Z.opp <$> parse_unsigned rest
  | String "+" rest => parse_unsigned rest
  | s' => parse_unsigned s'
  end.

Definition parseInt (v : option string) : number :=
  match v ≫= parse_signed with
  | Some z => Number z
  | None => NaN
  end.

(** *** snarkjs and the node runtime

    The prover and the verifier of [snarkjs], and the two library calls
    of [generateCacheKey], are taken as given. *)

Record SnarkProof := {
  pi_a : list string;
  pi_b : list (list string);
  pi_c : list string
}.

Record Circuit := { wasm : string; zkey : string }.

Record VerificationKey := { vkey_json : string }.

Record Runtime := {
  (** [groth16.fullProve(circuitInputs, wasm, zkey)] *)
  groth16_fullProve :
    JsObject → string → string → Result (SnarkProof * list string);
  (** [groth16.verify(vKey, publicSignals, proof)] *)
  groth16_verify :
    VerificationKey → list string → SnarkProof → Result bool;
  (** [JSON.stringify({ circuitName, privateInputs, publicInputs })] *)
  JSON_stringify : string → JsObject → JsObject → string;
  (** [crypto.createHash('sha256').update(data).digest('hex')] *)
  sha256_hex : string → string
}.

(** *** Proof records *)

Module WellnessZKProof.
Record t := {
  proof : SnarkProof;
  publicSignals : list string;
  milestoneAchieved : bool;
  achievementHash : option string;
  consistencyProof : option string;
  improvementProof : option string;
  privacyScore : number;
  isValid : bool;
  timestamp : Z
}.
End WellnessZKProof.

Module PeerSupportZKProof.
Record t := {
  proof : SnarkProof;
  publicSignals : list string;
  canProvideSupport : bool;
  supportQualityScore : number;
  anonymousCredential : option string;
  isValid : bool;
  timestamp : Z
}.
End PeerSupportZKProof.

(** *** The service object *)
Record Service := {
  circuits : gmap string Circuit;
  verificationKeys : gmap string VerificationKey;
  proofCache : gmap string (WellnessZKProof.t * Z)
}.

(** Modelled from the spec: the class [ProofCache] of [./caching], which
    is imported and not defined in the sources.  A proof is cached by
    input fingerprint with a time to live; an expired entry is not
    returned and the proof is simply recomputed; writing the same
    fingerprint again overwrites the entry.  An entry is kept with the
    time at which it expires; [now] is the time, in milliseconds, at
    which the cache is asked. *)
Definition ProofCache_get (cache : gmap string (WellnessZKProof.t * Z))
    (key : string) (now : Z) : option WellnessZKProof.t :=
  match cache !! key with
  | Some (value, expires) => if (now <? expires)%Z then Some value else None
  | None => None
  end.

(** Modelled from the spec: [ProofCache.set(key, value, ttlSeconds)], see
    [ProofCache_get]. *)
Definition ProofCache_set (cache : gmap string (WellnessZKProof.t * Z))
    (key : string) (value : WellnessZKProof.t) (ttlSeconds : Z) (now : Z)
  : gmap string (WellnessZKProof.t * Z) :=
  <[key := (value, (now + ttlSeconds * 1000)%Z)]> cache.

(** *** Time and asynchronous methods *)

(** The times, in milliseconds, at which one call reads the clock: when
    the cache is asked for the entry, when [Date.now()] stamps the
    proof, and when the cache stores it. *)
Record Times := { asked : Z; stamped : Z; stored : Z }.

(** Once the circuits are loaded, the proof cache is the only part of
    the service that a method changes.  An [async] method is given by
    what it has done when its promise settles: the outcome, and the
    entries it has written to the cache, in order.  What it reads, it
    reads from the service as it is when the method is called:
    [proofCache.get] is called before the method gives up control for
    the first time, and nothing is read from the cache after that. *)
Record CacheWrite := {
  key : string;
  value : WellnessZKProof.t;
  ttlSeconds : Z;
  written : Z
}.

Definition Promise (A : Type) : Type := Result A * list CacheWrite.

Definition write (S : Service) (w : CacheWrite) : Service :=
  {| circuits := circuits S;
     verificationKeys := verificationKeys S;
     proofCache :=
       ProofCache_set (proofCache S) (key w) (value w) (ttlSeconds w) (written w) |}.

(** [await] of a call with no other call in progress: the writes of the
    method land on the service it was called on. *)
Definition await {A} (S : Service) (promise : Promise A) : Result A * Service :=
  (promise.1, fold_left write promise.2 S).

(** *** Batch requests and results *)

Module BatchProofRequest.
Record t := {
  requestId : string;
  type : string;
  privateInputs : JsObject;
  publicInputs : JsObject
}.
End BatchProofRequest.

Inductive ZKProof :=
  | WellnessProof (proof : WellnessZKProof.t)
  | PeerSupportProof (proof : PeerSupportZKProof.t).

Module BatchProofResult.
Record t := {
  requestId : string;
  success : bool;
  proof : option ZKProof;
  error : option string
}.
End BatchProofResult.

Section Service.

Variable R : Runtime.

Definition generateCacheKey (circuitName : string)
    (privateInputs publicInputs : JsObject) : string :=
  let data := JSON_stringify R circuitName privateInputs publicInputs in
  sha256_hex R data.

(** [this.circuits.get(circuitName)] followed by [circuit.wasm]: reading
    a property of [undefined] throws a [TypeError]. *)
Definition circuit_of (S : Service) (circuitName : string) : Result Circuit :=
  match circuits S !! circuitName with
  | Some circuit => inr circuit
  | None => throw "Cannot read properties of undefined (reading 'wasm')"
  end.

Definition verifyProof (S : Service) (circuitName : string)
    (proof : SnarkProof) (publicSignals : list string) : Result bool :=
  try_catch
    (match verificationKeys S !! circuitName with
     | None =>
         throw ("Verification key not found for circuit: " +:+ circuitName)
     | Some vKey => groth16_verify R vKey publicSignals proof
     end)
    (fun error => inr false).

Definition wellnessCircuitInputs (privateInputs publicInputs : JsObject)
  : JsObject :=
    [ ("mentalHealthScore", prop privateInputs "mentalHealthScore");
      ("sessionCount", prop privateInputs "sessionCount");
      ("consistencyDays", prop privateInputs "consistencyDays");
      ("moodImprovementScore", prop privateInputs "moodImprovementScore");
      ("userPrivateKey", prop privateInputs "userPrivateKey");
      ("sessionTimestamps", prop privateInputs "sessionTimestamps");
      ("dailyMoodScores", prop privateInputs "dailyMoodScores");
      ("minWellnessThreshold", prop publicInputs "minWellnessThreshold");
      ("minSessionRequirement", prop publicInputs "minSessionRequirement");
      ("minConsistencyDays", prop publicInputs "minConsistencyDays");
      ("minImprovementPercent", prop publicInputs "minImprovementPercent");
      ("milestoneType", prop publicInputs "milestoneType");
      ("verificationTimestamp", prop publicInputs "verificationTimestamp") ].

Definition generateWellnessMilestoneProof (t : Times) (S : Service)
    (privateInputs publicInputs : JsObject)
  : Promise WellnessZKProof.t :=
  let circuitName := "wellness_milestone" in
  let cacheKey := generateCacheKey circuitName privateInputs publicInputs in
  match ProofCache_get (proofCache S) cacheKey (asked t) with
  | Some cachedProof => (inr cachedProof, [])
  | None =>
      let attempt : Result WellnessZKProof.t :=
        let circuitInputs := wellnessCircuitInputs privateInputs publicInputs in
        do circuit <- circuit_of S circuitName;
        do (proof, publicSignals) <-
          groth16_fullProve R circuitInputs (wasm circuit) (zkey circuit);
        do isValid <- verifyProof S circuitName proof publicSignals;
        if negb isValid then throw "Generated proof is invalid"
        else
          inr {| WellnessZKProof.proof :=
                   {| pi_a := pi_a proof; pi_b := pi_b proof; pi_c := pi_c proof |};
                 WellnessZKProof.publicSignals := publicSignals;
                 WellnessZKProof.milestoneAchieved :=
                   bool_decide (publicSignals !! 0%nat = Some "1");
                 WellnessZKProof.achievementHash := publicSignals !! 1%nat;
                 WellnessZKProof.consistencyProof := publicSignals !! 2%nat;
                 WellnessZKProof.improvementProof := publicSignals !! 3%nat;
                 WellnessZKProof.privacyScore := parseInt (publicSignals !! 4%nat);
                 WellnessZKProof.isValid := true;
                 WellnessZKProof.timestamp := stamped t |} in
      match attempt with
      | inr zkProof =>
          (inr zkProof,
           [ {| key := cacheKey; value := zkProof; ttlSeconds := 3600;
                written := stored t |} ])
      | inl error =>
          (throw ("Failed to generate wellness milestone proof: "
                  +:+ message error), [])
      end
  end.

Definition peerSupportCircuitInputs (supporterData requirements : JsObject)
  : JsObject :=
    [ ("supporterExperience", prop supporterData "supporterExperience");
      ("supporterWellnessScore", prop supporterData "supporterWellnessScore");
      ("supportHistory", prop supporterData "supportHistory");
      ("supporterPrivateKey", prop supporterData "supporterPrivateKey");
      ("minExperienceRequired", prop requirements "minExperienceRequired");
      ("minWellnessForSupport", prop requirements "minWellnessForSupport");
      ("supportQualityThreshold", prop requirements "supportQualityThreshold") ].

Definition generatePeerSupportProof (t : Times) (S : Service)
    (supporterData requirements : JsObject) : Result PeerSupportZKProof.t :=
  let circuitName := "peer_support" in
  try_catch
    (let circuitInputs := peerSupportCircuitInputs supporterData requirements in
     do circuit <- circuit_of S circuitName;
     do (proof, publicSignals) <-
       groth16_fullProve R circuitInputs (wasm circuit) (zkey circuit);
     do isValid <- verifyProof S circuitName proof publicSignals;
     inr {| PeerSupportZKProof.proof :=
              {| pi_a := pi_a proof; pi_b := pi_b proof; pi_c := pi_c proof |};
            PeerSupportZKProof.publicSignals := publicSignals;
            PeerSupportZKProof.canProvideSupport :=
              bool_decide (publicSignals !! 0%nat = Some "1");
            PeerSupportZKProof.supportQualityScore :=
              parseInt (publicSignals !! 1%nat);
            PeerSupportZKProof.anonymousCredential := publicSignals !! 2%nat;
            PeerSupportZKProof.isValid := isValid;
            PeerSupportZKProof.timestamp := stamped t |})
    (fun error =>
       throw ("Failed to generate peer support proof: " +:+ message error)).

(** *** Batch generation *)

(** The [switch] on [request.type]. *)
Definition dispatch (t : Times) (S : Service) (request : BatchProofRequest.t)
  : Promise ZKProof :=
  if bool_decide (BatchProofRequest.type request = "wellness_milestone") then
    let '(outcome, writes) :=
      generateWellnessMilestoneProof t S
        (BatchProofRequest.privateInputs request)
        (BatchProofRequest.publicInputs request) in
    (do proof <- outcome; inr (WellnessProof proof), writes)
  else if bool_decide (BatchProofRequest.type request = "peer_support") then
    (do proof <- generatePeerSupportProof t S
                   (BatchProofRequest.privateInputs request)
                   (BatchProofRequest.publicInputs request);
     inr (PeerSupportProof proof), [])
  else
    (throw ("Unknown proof type: " +:+ BatchProofRequest.type request), []).

(** The [async (request) => ...] callback: the [switch] inside [try],
    both outcomes turned into a result record. *)
Definition processRequest (t : Times) (S : Service)
    (request : BatchProofRequest.t) : Promise BatchProofResult.t :=
  let '(outcome, writes) := dispatch t S request in
  (try_catch
     (do proof <- outcome;
      inr {| BatchProofResult.requestId := BatchProofRequest.requestId request;
             BatchProofResult.success := true;
             BatchProofResult.proof := Some proof;
             BatchProofResult.error := None |})
     (fun error =>
        inr {| BatchProofResult.requestId := BatchProofRequest.requestId request;
               BatchProofResult.success := false;
               BatchProofResult.proof := None;
               BatchProofResult.error := Some (message error) |}),
   writes).

(** [proofRequests.map(async ...)]: one promise per request, in the
    order of the requests.  [map] calls every callback before
    [generateBatchProofs] gives up control, so each of them asks the
    cache on the service as it is when the batch is called, and none of
    them sees what another one writes.  [times i] are the times of the
    request at index [i]. *)
Definition proofPromises (times : nat → Times) (S : Service)
    (proofRequests : list BatchProofRequest.t)
  : list (Promise BatchProofResult.t) :=
  imap (fun i request => processRequest (times i) S request) proofRequests.

(** The service once the promises have settled in the order [schedule],
    a list of indices: the writes of each land when it settles. *)
Definition settle {A} (schedule : list nat) (promises : list (Promise A))
    (S : Service) : Service :=
  fold_left
    (fun S' i =>
       match promises !! i with
       | Some promise => fold_left write promise.2 S'
       | None => S'
       end)
    schedule S.

Definition generateBatchProofs (times : nat → Times) (schedule : list nat)
    (S : Service) (proofRequests : list BatchProofRequest.t)
  : Result (list BatchProofResult.t) * Service :=
  let promises := proofPromises times S proofRequests in
  (Promise_all (fst <$> promises), settle schedule promises S).

End Service.

End ZKService.

(** ** Loading the circuits *)

Module ZKLoading.

Import Js ZKService.
Local Open Scope string_scope.

Record CircuitConfig := {
  name : string;
  wasmPath : string;
  zkeyPath : string;
  vkeyPath : string
}.

(** The loaders of [./zkUtils] and the two calls that read a
    verification key, [readFileSync(path, "utf8")] and [JSON.parse], are
    taken as given; each of them can throw. *)
Record Loaders := {
  CircuitWasmLoader_load : string → Result string;
  ZkeyLoader_load : string → Result string;
  readFileSync : string → Result string;
  JSON_parse : string → Result VerificationKey
}.

Definition circuitConfigs : list CircuitConfig :=
  [ {| name := "wellness_milestone";
       wasmPath := "./circuits/wellness_milestone.wasm";
       zkeyPath := "./circuits/wellness_milestone_final.zkey";
       vkeyPath := "./circuits/wellness_milestone_vkey.json" |};
    {| name := "peer_support";
       wasmPath := "./circuits/peer_support.wasm";
       zkeyPath := "./circuits/peer_support_final.zkey";
       vkeyPath := "./circuits/peer_support_vkey.json" |};
    {| name := "mood_privacy";
       wasmPath := "./circuits/mood_privacy.wasm";
       zkeyPath := "./circuits/mood_privacy_final.zkey";
       vkeyPath := "./circuits/mood_privacy_vkey.json" |};
    {| name := "anonymous_achievement";
       wasmPath := "./circuits/anonymous_achievement.wasm";
       zkeyPath := "./circuits/anonymous_achievement_final.zkey";
       vkeyPath := "./circuits/anonymous_achievement_vkey.json" |} ].

Section Loading.

Variable L : Loaders.

(** The three artifacts of a configuration, loaded in the order of the
    source; the first failure is the outcome. *)
Definition load_artifacts (config : CircuitConfig)
  : Result (Circuit * VerificationKey) :=
  do wasm <- CircuitWasmLoader_load L (wasmPath config);
  do zkey <- ZkeyLoader_load L (zkeyPath config);
  do text <- readFileSync L (vkeyPath config);
  do vkey <- JSON_parse L text;
  inr ({| ZKService.wasm := wasm; ZKService.zkey := zkey |}, vkey).

(** [loadCircuit]: both maps are written after the three loads, and the
    [catch] rethrows the error it caught. *)
Definition loadCircuit (S : Service) (config : CircuitConfig)
  : Result unit * Service :=
  match try_catch (load_artifacts config) (fun error => inl error) with
  | inr (circuit, vkey) =>
      (inr tt,
       {| circuits := <[name config := circuit]> (circuits S);
          verificationKeys := <[name config := vkey]> (verificationKeys S);
          proofCache := proofCache S |})
  | inl error => (inl error, S)
  end.

(** The [for ... of] loop of [initializeCircuits]: each [loadCircuit] is
    awaited, so the first rejection ends the loop. *)
Fixpoint loadCircuits (S : Service) (configs : list CircuitConfig)
  : Result unit * Service :=
  match configs with
  | [] => (inr tt, S)
  | config :: rest =>
      match loadCircuit S config with
      | (inr _, S') => loadCircuits S' rest
      | (inl error, S') => (inl error, S')
      end
  end.

Definition initializeCircuits (S : Service) : Result unit * Service :=
  loadCircuits S circuitConfigs.

(** The constructor: empty maps, an empty cache, and the outcome of the
    initialization it starts. *)
Definition constructor : Result unit * Service :=
  initializeCircuits
    {| circuits := ∅; verificationKeys := ∅; proofCache := ∅ |}.

End Loading.

End ZKLoading.

(** ** Encrypted analytics *)

Module Analytics.

Import Js.
Local Open Scope Z_scope.

(** *** The Paillier scheme of [paillier-bigint]

    Numbers are [bigint]s; [%] and [/] on them truncate towards zero,
    which is [Z.rem] and [Z.quot].  The modulus [n] of a key is
    positive, a product of two primes: no [%] or [/] below, by [n] or
    by its square, divides by zero. *)

Module Paillier.

Record PublicKey := { n : Z; g : Z; n_positive : (0 <? n) = true }.

Record PrivateKey := { lambda : Z; mu : Z; pub : PublicKey }.

Definition n2 (pk : PublicKey) : Z := n pk * n pk.

(** [modInv(a, m)]: the extended Euclidean algorithm on [(m, a mod m)];
    the number of rounds is bounded by twice the bit length of [m]. *)
Fixpoint modInv_loop (fuel : nat) (m r0 r1 t0 t1 : Z) : option Z :=
  match fuel with
  | O => None
  | S fuel' =>
      if r1 =? 0 then (if r0 =? 1 then Some (t0 mod m) else None)
      else let q := r0 / r1 in
           modInv_loop fuel' m r1 (r0 - q * r1) t1 (t0 - q * t1)
  end.

Definition modInv (a m : Z) : Result Z :=
  match modInv_loop (S (2 * Z.to_nat (Z.log2_up m))) m m (a mod m) 0 1 with
  | Some x => inr x
  | None => throw "a does not have inverse modulo n"
  end.

(** Square and multiply, on the bits of a positive exponent. *)
Fixpoint modPow_pos (b : Z) (e : positive) (m : Z) : Z :=
  match e with
  | xH => b mod m
  | xO e' => let r := modPow_pos b e' m in (r * r) mod m
  | xI e' => let r := modPow_pos b e' m in (((r * r) mod m) * b) mod m
  end.

(** [modPow(b, e, m)]; a negative exponent takes the inverse of the
    power, and fails when there is none. *)
Definition modPow (b e m : Z) : Result Z :=
  match e with
  | Z0 => inr (1 mod m)
  | Zpos e' => inr (modPow_pos b e' m)
  | Zneg e' => modInv (modPow_pos b e' m) m
  end.

(** [publicKey.encrypt(m, r)], with [r] the unit drawn for this call. *)
Definition encrypt (pk : PublicKey) (m r : Z) : Result Z :=
  do gm <- modPow (g pk) m (n2 pk);
  do rn <- modPow r (n pk) (n2 pk);
  inr (Z.rem (gm * rn) (n2 pk)).

(** [publicKey.addition(a, b)]: [reduce] of [sum * next % n2] from [1n]. *)
Definition addition (pk : PublicKey) (a b : Z) : Z :=
  Z.rem (Z.rem (1 * a) (n2 pk) * b) (n2 pk).

Definition L (a n : Z) : Z := Z.quot (a - 1) n.

(** [privateKey.decrypt(c)]. *)
Definition decrypt (sk : PrivateKey) (c : Z) : Result Z :=
  do u <- modPow c (lambda sk) (n2 (pub sk));
  inr (Z.rem (L u (n (pub sk)) * mu sk) (n (pub sk))).

End Paillier.

(** *** Records *)

Module UserMentalHealthMetrics.
Record t := {
  userId : string;
  moodScore : number;
  sessionCount : number;
  engagementTime : number;
  wellnessScore : number;
  crisisEvents : number;
  timestamp : Z
}.
End UserMentalHealthMetrics.

Module EncryptedUserMetrics.
Record t := {
  userId : string;
  encryptedMoodScore : Z;
  encryptedSessionCount : Z;
  encryptedEngagementTime : Z;
  encryptedWellnessScore : Z;
  encryptedCrisisEvents : Z;
  timestamp : Z
}.
End EncryptedUserMetrics.

(** The fields of the interface are numbers.  The aggregation fills
    them with doubles, [AggregatedMetrics.t number]; the release below
    computes on finite values taken as exact rationals,
    [AggregatedMetrics.t Q]. *)
Module AggregatedMetrics.
Record t {number : Type} := {
  userCount : number;
  averageMoodScore : number;
  totalSessions : number;
  averageEngagementTime : number;
  averageWellnessScore : number;
  totalCrisisEvents : number;
  aggregationTimestamp : Z
}.
Arguments t : clear implicits.
End AggregatedMetrics.

Record ConfidenceInterval := { lower : Q; upper : Q; confidence : Q }.

Module DifferentialPrivateInsights.
Record t := {
  noisyAverageMood : Q;
  noisyAverageWellness : Q;
  noisyTotalSessions : Z;
  noisyCrisisRate : Q;
  privacyBudgetUsed : Q;
  confidenceInterval : ConfidenceInterval;
  timestamp : Z
}.
End DifferentialPrivateInsights.

(** [this.paillier = { publicKey, privateKey }], as
    [initializeEncryption] sets it; the SEAL context of the class is
    set up by the constructor and used by no method below. *)
Record PaillierKeys := {
  publicKey : Paillier.PublicKey;
  privateKey : Paillier.PrivateKey
}.

(** The units [r] drawn by the five calls to [encrypt] of one
    [encryptUserMetrics]. *)
Record Draws := {
  rMood : Z; rSessions : Z; rEngagement : Z; rWellness : Z; rCrisis : Z
}.

(** *** PrivacyPreservingAnalytics *)

Definition encryptUserMetrics (paillier : PaillierKeys) (draws : Draws)
    (metrics : UserMentalHealthMetrics.t) : Result EncryptedUserMetrics.t :=
  let pk := publicKey paillier in
  do moodScore <- BigInt (UserMentalHealthMetrics.moodScore metrics);
  do mood <- Paillier.encrypt pk moodScore (rMood draws);
  do sessionCount <- BigInt (UserMentalHealthMetrics.sessionCount metrics);
  do sessions <- Paillier.encrypt pk sessionCount (rSessions draws);
  do engagementTime <- BigInt (UserMentalHealthMetrics.engagementTime metrics);
  do engagement <- Paillier.encrypt pk engagementTime (rEngagement draws);
  do wellnessScore <- BigInt (UserMentalHealthMetrics.wellnessScore metrics);
  do wellness <- Paillier.encrypt pk wellnessScore (rWellness draws);
  do crisisEvents <- BigInt (UserMentalHealthMetrics.crisisEvents metrics);
  do crisis <- Paillier.encrypt pk crisisEvents (rCrisis draws);
  inr {| EncryptedUserMetrics.userId := UserMentalHealthMetrics.userId metrics;
         EncryptedUserMetrics.encryptedMoodScore := mood;
         EncryptedUserMetrics.encryptedSessionCount := sessions;
         EncryptedUserMetrics.encryptedEngagementTime := engagement;
         EncryptedUserMetrics.encryptedWellnessScore := wellness;
         EncryptedUserMetrics.encryptedCrisisEvents := crisis;
         EncryptedUserMetrics.timestamp := UserMentalHealthMetrics.timestamp metrics |}.

(** A computation that can throw, with the log of the ciphertexts it
    has handed to [privateKey.decrypt] so far. *)
Definition Logged (A : Type) : Type := Result A * list Z.

Definition logged_bind {A B} (m : Logged A) (k : A → Logged B) : Logged B :=
  match m with
  | (inl e, log) => (inl e, log)
  | (inr a, log) => let '(r, log') := k a in (r, log ++ log')
  end.

Notation "'run' x <- m ; k" := (logged_bind m (fun x => k))
  (at level 10, x pattern, m at level 100, k at level 200).

Definition decrypt_logged (sk : Paillier.PrivateKey) (c : Z) : Logged Z :=
  (Paillier.decrypt sk c, [c]).

(** The five running totals of the aggregation loop, after the entries
    [rest] have been added to the totals of the first entry. *)
Definition aggregation_loop (pk : Paillier.PublicKey)
    (first : EncryptedUserMetrics.t) (rest : list EncryptedUserMetrics.t)
  : Z * Z * Z * Z * Z :=
  fold_left
    (fun '(totalEncryptedMood, totalEncryptedSessions, totalEncryptedEngagement,
           totalEncryptedWellness, totalEncryptedCrisis) metric =>
       (Paillier.addition pk totalEncryptedMood
          (EncryptedUserMetrics.encryptedMoodScore metric),
        Paillier.addition pk totalEncryptedSessions
          (EncryptedUserMetrics.encryptedSessionCount metric),
        Paillier.addition pk totalEncryptedEngagement
          (EncryptedUserMetrics.encryptedEngagementTime metric),
        Paillier.addition pk totalEncryptedWellness
          (EncryptedUserMetrics.encryptedWellnessScore metric),
        Paillier.addition pk totalEncryptedCrisis
          (EncryptedUserMetrics.encryptedCrisisEvents metric)))
    rest
    (EncryptedUserMetrics.encryptedMoodScore first,
     EncryptedUserMetrics.encryptedSessionCount first,
     EncryptedUserMetrics.encryptedEngagementTime first,
     EncryptedUserMetrics.encryptedWellnessScore first,
     EncryptedUserMetrics.encryptedCrisisEvents first).

(** [now] is the value of [new Date()]. *)
Definition aggregateEncryptedMetrics (paillier : PaillierKeys) (now : Z)
    (encryptedMetrics : list EncryptedUserMetrics.t)
  : Logged (AggregatedMetrics.t number) :=
  match encryptedMetrics with
  | [] => (throw "No metrics to aggregate", [])
  | first :: rest =>
      let '(totalEncryptedMood, totalEncryptedSessions, totalEncryptedEngagement,
            totalEncryptedWellness, totalEncryptedCrisis) :=
        aggregation_loop (publicKey paillier) first rest in
      let userCount := Finite (inject_Z (Z.of_nat (length encryptedMetrics))) in
      let sk := privateKey paillier in
      run totalMoodScore <- decrypt_logged sk totalEncryptedMood;
      run totalSessions <- decrypt_logged sk totalEncryptedSessions;
      run totalEngagement <- decrypt_logged sk totalEncryptedEngagement;
      run totalWellness <- decrypt_logged sk totalEncryptedWellness;
      run totalCrisis <- decrypt_logged sk totalEncryptedCrisis;
      (inr {| AggregatedMetrics.userCount := userCount;
              AggregatedMetrics.averageMoodScore :=
                divide (Number totalMoodScore) userCount;
              AggregatedMetrics.totalSessions := Number totalSessions;
              AggregatedMetrics.averageEngagementTime :=
                divide (Number totalEngagement) userCount;
              AggregatedMetrics.averageWellnessScore :=
                divide (Number totalWellness) userCount;
              AggregatedMetrics.totalCrisisEvents := Number totalCrisis;
              AggregatedMetrics.aggregationTimestamp := now |}, [])
  end.

(** *** The Laplace mechanism *)

(** [Math.random], [Math.log] and [Math.sqrt] are taken as given;
    [Math_random k] is the [k]-th number the generator hands out. *)
Record MathLib := {
  Math_random : nat → Q;
  Math_log : Q → Q;
  Math_sqrt : Q → Q
}.

Definition Math_sign (x : Q) : Q :=
  if Qle_bool x 0 then (if Qle_bool 0 x then 0 else -1)%Q else 1%Q.

Definition Math_abs (x : Q) : Q := Qabs x.

(** [Math.round]: to the nearest integer, halves upwards. *)
Definition Math_round (x : Q) : Z := Qfloor (x + (1 # 2)).

Section Release.

Variable M : MathLib.

(** Each function takes the number [k] of draws made so far and returns
    it updated. *)
Definition sampleLaplace (location scale : Q) (k : nat) : Q * nat :=
  let u := (Math_random M k - (1 # 2))%Q in
  ((location - scale * Math_sign u * Math_log M (1 - 2 * Math_abs u))%Q, S k).

Definition addNoise (epsilon : Q) (value : Q) (k : nat) : Q * nat :=
  let scale := (1 / epsilon)%Q in
  let '(noise, k') := sampleLaplace 0 scale k in
  ((value + noise)%Q, k').

Definition calculateConfidenceInterval (epsilon : Q) : ConfidenceInterval :=
  let variance := (2 / (epsilon * epsilon))%Q in
  let standardError := Math_sqrt M variance in
  {| lower := (- (196 # 100) * standardError)%Q;
     upper := ((196 # 100) * standardError)%Q;
     confidence := (95 # 100)%Q |}.

(** [epsilon] is an optional argument with default [1.0]. *)
Definition generateDifferentialPrivateInsights
    (aggregatedMetrics : AggregatedMetrics.t Q) (epsilon : option Q)
    (now : Z) (k : nat) : DifferentialPrivateInsights.t * nat :=
  let epsilon := default 1%Q epsilon in
  let '(noisyAverageMood, k1) :=
    addNoise epsilon (AggregatedMetrics.averageMoodScore aggregatedMetrics) k in
  let '(noisyAverageWellness, k2) :=
    addNoise epsilon (AggregatedMetrics.averageWellnessScore aggregatedMetrics) k1 in
  let '(noisyTotalSessions, k3) :=
    addNoise epsilon (AggregatedMetrics.totalSessions aggregatedMetrics) k2 in
  let '(noisyCrisisRate, k4) :=
    addNoise epsilon
      (AggregatedMetrics.totalCrisisEvents aggregatedMetrics
       / AggregatedMetrics.userCount aggregatedMetrics)%Q k3 in
  ({| DifferentialPrivateInsights.noisyAverageMood := noisyAverageMood;
      DifferentialPrivateInsights.noisyAverageWellness := noisyAverageWellness;
      DifferentialPrivateInsights.noisyTotalSessions := Math_round noisyTotalSessions;
      DifferentialPrivateInsights.noisyCrisisRate := noisyCrisisRate;
      DifferentialPrivateInsights.privacyBudgetUsed := epsilon;
      DifferentialPrivateInsights.confidenceInterval :=
        calculateConfidenceInterval epsilon;
      DifferentialPrivateInsights.timestamp := now |}, k4).

End Release.

End Analytics.

(** ** Noise on model gradients *)

Module Gradients.

Import Analytics.


Section Noise.

Variable M : MathLib.



End Noise.

End Gradients.
(** ** The contracts

    The two Solidity contracts of the document, [MentalHealthDataNFT] and
    [DataSovereigntyMarketplace], as state transformers.  A call that
    reverts is the left injection and leaves no state behind.  Events
    are not part of the state and are left out. *)

Module Evm.

Local Open Scope string_scope.
Local Open Scope Z_scope.

Definition address : Type := Z.
Definition bytes32 : Type := Z.

Definition MAX_UINT256 : Z := 2 ^ 256 - 1.

Inductive Failure :=
| Revert (reason : string)
| Panic (code : Z)
| MissingRole (account : address) (role : bytes32).

Definition Result (A : Type) : Type := Failure + A.

Definition revert {A} (reason : string) : Result A := inl (Revert reason).

Definition bind {A B} (m : Result A) (k : A → Result B) : Result B :=
  match m with
  | inl failure => inl failure
  | inr a => k a
  end.

Notation "'do' x <- m ; k" := (bind m (fun x => k))
  (at level 10, x pattern, m at level 100, k at level 200).

Definition require (condition : bool) (reason : string) : Result unit :=
  if condition then inr tt else revert reason.

(** Checked arithmetic on [uint256] (Solidity 0.8): overflow and
    underflow are [Panic(0x11)], division by zero is [Panic(0x12)]. *)
Definition add (a b : Z) : Result Z :=
  if a + b <=? MAX_UINT256 then inr (a + b) else inl (Panic 17).

Definition sub (a b : Z) : Result Z :=
  if b <=? a then inr (a - b) else inl (Panic 17).

Definition mul (a b : Z) : Result Z :=
  if a * b <=? MAX_UINT256 then inr (a * b) else inl (Panic 17).

Definition div (a b : Z) : Result Z :=
  if b =? 0 then inl (Panic 18) else inr (a / b).

(** [msg.sender] and [msg.value]. *)
Record Msg := { sender : address; value : N }.

(** A function that is not [payable] reverts, without a reason, when it
    is sent ether. *)
Definition nonpayable (msg : Msg) : Result unit :=
  require (value msg =? 0)%N "".

(** Reading a [mapping]: a key never written holds the zero value. *)
Definition read {K V} `{Countable K} (zero : V) (m : gmap K V) (k : K) : V :=
  default zero (m !! k).

(** What the code at an address does when [onERC721Received] is called
    on it: it may first call back into the contract, any number of
    times and through any sender, keeping the calls that succeed; then
    it returns the selector, returns something else, or reverts. *)
Inductive Reply :=
| Selector
| OtherValue
| Reverts (reason : string).

Inductive Receiver (C : Type) :=
| Account
| Contract (calls : list C) (reply : Reply).

Arguments Account {C}.
Arguments Contract {C} calls reply.

End Evm.
(** *** MentalHealthDataNFT *)

Module MentalHealthDataNFT.

Import Evm.

Local Open Scope string_scope.
Local Open Scope Z_scope.

Record DataSovereigntyNFT := {
  dataHash : bytes32;
  creationTimestamp : Z;
  privacyLevel : Z;
  zkProof : list Z;
  dataCategories : list string;
  isTransferable : bool;
  accessPermissions : Z;
  dataController : address;
  authorizedViewers : gmap address bool;
}.

(** A slot of [dataTokens] that was never written. *)
Definition no_token : DataSovereigntyNFT := {|
  dataHash := 0;
  creationTimestamp := 0;
  privacyLevel := 0;
  zkProof := [];
  dataCategories := [];
  isTransferable := false;
  accessPermissions := 0;
  dataController := 0;
  authorizedViewers := ∅;
|}.

Record ResearchLicense := {
  researcher : address;
  tokenId : Z;
  licenseExpiry : Z;
  licenseTerms : bytes32;
  compensationPaid : Z;
  isActive : bool;
}.

(** The storage of the contract: the state variables of the OpenZeppelin
    4.x bases it inherits ([ERC721], [ERC721URIStorage], [Pausable],
    [AccessControl], [ReentrancyGuard]), its own state variables, and
    the ether it holds.  The token counts of [ERC721], which nothing in
    the contract reads, are left out. *)
Record State := {
  _owners : gmap Z address;
  _tokenApprovals : gmap Z address;
  _operatorApprovals : gmap (address * address) bool;
  _tokenURIs : gmap Z string;
  _paused : bool;
  _roles : gmap (bytes32 * address) bool;
  _entered : bool;
  dataTokens : gmap Z DataSovereigntyNFT;
  researchLicenses : gmap Z (list ResearchLicense);
  userOwnedTokens : gmap address (list Z);
  dataHashToTokenId : gmap bytes32 Z;
  _tokenIdCounter : Z;
  zkVerifier : address;
  balance : Z;
}.

Definition with_owners v (s : State) : State := {|
  _owners := v;
  _tokenApprovals := _tokenApprovals s;
  _operatorApprovals := _operatorApprovals s;
  _tokenURIs := _tokenURIs s;
  _paused := _paused s;
  _roles := _roles s;
  _entered := _entered s;
  dataTokens := dataTokens s;
  researchLicenses := researchLicenses s;
  userOwnedTokens := userOwnedTokens s;
  dataHashToTokenId := dataHashToTokenId s;
  _tokenIdCounter := _tokenIdCounter s;
  zkVerifier := zkVerifier s;
  balance := balance s;
|}.

Definition with_tokenApprovals v (s : State) : State := {|
  _owners := _owners s;
  _tokenApprovals := v;
  _operatorApprovals := _operatorApprovals s;
  _tokenURIs := _tokenURIs s;
  _paused := _paused s;
  _roles := _roles s;
  _entered := _entered s;
  dataTokens := dataTokens s;
  researchLicenses := researchLicenses s;
  userOwnedTokens := userOwnedTokens s;
  dataHashToTokenId := dataHashToTokenId s;
  _tokenIdCounter := _tokenIdCounter s;
  zkVerifier := zkVerifier s;
  balance := balance s;
|}.

Definition with_operatorApprovals v (s : State) : State := {|
  _owners := _owners s;
  _tokenApprovals := _tokenApprovals s;
  _operatorApprovals := v;
  _tokenURIs := _tokenURIs s;
  _paused := _paused s;
  _roles := _roles s;
  _entered := _entered s;
  dataTokens := dataTokens s;
  researchLicenses := researchLicenses s;
  userOwnedTokens := userOwnedTokens s;
  dataHashToTokenId := dataHashToTokenId s;
  _tokenIdCounter := _tokenIdCounter s;
  zkVerifier := zkVerifier s;
  balance := balance s;
|}.

Definition with_tokenURIs v (s : State) : State := {|
  _owners := _owners s;
  _tokenApprovals := _tokenApprovals s;
  _operatorApprovals := _operatorApprovals s;
  _tokenURIs := v;
  _paused := _paused s;
  _roles := _roles s;
  _entered := _entered s;
  dataTokens := dataTokens s;
  researchLicenses := researchLicenses s;
  userOwnedTokens := userOwnedTokens s;
  dataHashToTokenId := dataHashToTokenId s;
  _tokenIdCounter := _tokenIdCounter s;
  zkVerifier := zkVerifier s;
  balance := balance s;
|}.

Definition with_paused v (s : State) : State := {|
  _owners := _owners s;
  _tokenApprovals := _tokenApprovals s;
  _operatorApprovals := _operatorApprovals s;
  _tokenURIs := _tokenURIs s;
  _paused := v;
  _roles := _roles s;
  _entered := _entered s;
  dataTokens := dataTokens s;
  researchLicenses := researchLicenses s;
  userOwnedTokens := userOwnedTokens s;
  dataHashToTokenId := dataHashToTokenId s;
  _tokenIdCounter := _tokenIdCounter s;
  zkVerifier := zkVerifier s;
  balance := balance s;
|}.

Definition with_roles v (s : State) : State := {|
  _owners := _owners s;
  _tokenApprovals := _tokenApprovals s;
  _operatorApprovals := _operatorApprovals s;
  _tokenURIs := _tokenURIs s;
  _paused := _paused s;
  _roles := v;
  _entered := _entered s;
  dataTokens := dataTokens s;
  researchLicenses := researchLicenses s;
  userOwnedTokens := userOwnedTokens s;
  dataHashToTokenId := dataHashToTokenId s;
  _tokenIdCounter := _tokenIdCounter s;
  zkVerifier := zkVerifier s;
  balance := balance s;
|}.

Definition with_entered v (s : State) : State := {|
  _owners := _owners s;
  _tokenApprovals := _tokenApprovals s;
  _operatorApprovals := _operatorApprovals s;
  _tokenURIs := _tokenURIs s;
  _paused := _paused s;
  _roles := _roles s;
  _entered := v;
  dataTokens := dataTokens s;
  researchLicenses := researchLicenses s;
  userOwnedTokens := userOwnedTokens s;
  dataHashToTokenId := dataHashToTokenId s;
  _tokenIdCounter := _tokenIdCounter s;
  zkVerifier := zkVerifier s;
  balance := balance s;
|}.

Definition with_dataTokens v (s : State) : State := {|
  _owners := _owners s;
  _tokenApprovals := _tokenApprovals s;
  _operatorApprovals := _operatorApprovals s;
  _tokenURIs := _tokenURIs s;
  _paused := _paused s;
  _roles := _roles s;
  _entered := _entered s;
  dataTokens := v;
  researchLicenses := researchLicenses s;
  userOwnedTokens := userOwnedTokens s;
  dataHashToTokenId := dataHashToTokenId s;
  _tokenIdCounter := _tokenIdCounter s;
  zkVerifier := zkVerifier s;
  balance := balance s;
|}.

Definition with_researchLicenses v (s : State) : State := {|
  _owners := _owners s;
  _tokenApprovals := _tokenApprovals s;
  _operatorApprovals := _operatorApprovals s;
  _tokenURIs := _tokenURIs s;
  _paused := _paused s;
  _roles := _roles s;
  _entered := _entered s;
  dataTokens := dataTokens s;
  researchLicenses := v;
  userOwnedTokens := userOwnedTokens s;
  dataHashToTokenId := dataHashToTokenId s;
  _tokenIdCounter := _tokenIdCounter s;
  zkVerifier := zkVerifier s;
  balance := balance s;
|}.

Definition with_userOwnedTokens v (s : State) : State := {|
  _owners := _owners s;
  _tokenApprovals := _tokenApprovals s;
  _operatorApprovals := _operatorApprovals s;
  _tokenURIs := _tokenURIs s;
  _paused := _paused s;
  _roles := _roles s;
  _entered := _entered s;
  dataTokens := dataTokens s;
  researchLicenses := researchLicenses s;
  userOwnedTokens := v;
  dataHashToTokenId := dataHashToTokenId s;
  _tokenIdCounter := _tokenIdCounter s;
  zkVerifier := zkVerifier s;
  balance := balance s;
|}.

Definition with_dataHashToTokenId v (s : State) : State := {|
  _owners := _owners s;
  _tokenApprovals := _tokenApprovals s;
  _operatorApprovals := _operatorApprovals s;
  _tokenURIs := _tokenURIs s;
  _paused := _paused s;
  _roles := _roles s;
  _entered := _entered s;
  dataTokens := dataTokens s;
  researchLicenses := researchLicenses s;
  userOwnedTokens := userOwnedTokens s;
  dataHashToTokenId := v;
  _tokenIdCounter := _tokenIdCounter s;
  zkVerifier := zkVerifier s;
  balance := balance s;
|}.

Definition with_tokenIdCounter v (s : State) : State := {|
  _owners := _owners s;
  _tokenApprovals := _tokenApprovals s;
  _operatorApprovals := _operatorApprovals s;
  _tokenURIs := _tokenURIs s;
  _paused := _paused s;
  _roles := _roles s;
  _entered := _entered s;
  dataTokens := dataTokens s;
  researchLicenses := researchLicenses s;
  userOwnedTokens := userOwnedTokens s;
  dataHashToTokenId := dataHashToTokenId s;
  _tokenIdCounter := v;
  zkVerifier := zkVerifier s;
  balance := balance s;
|}.

Definition with_balance v (s : State) : State := {|
  _owners := _owners s;
  _tokenApprovals := _tokenApprovals s;
  _operatorApprovals := _operatorApprovals s;
  _tokenURIs := _tokenURIs s;
  _paused := _paused s;
  _roles := _roles s;
  _entered := _entered s;
  dataTokens := dataTokens s;
  researchLicenses := researchLicenses s;
  userOwnedTokens := userOwnedTokens s;
  dataHashToTokenId := dataHashToTokenId s;
  _tokenIdCounter := _tokenIdCounter s;
  zkVerifier := zkVerifier s;
  balance := v;
|}.

(** [dataTokens[tokenId]], [userOwnedTokens[user]] and
    [dataHashToTokenId[dataHash]]. *)
Definition token (s : State) (tokenId : Z) : DataSovereigntyNFT :=
  read no_token (dataTokens s) tokenId.

Definition tokens_of (s : State) (user : address) : list Z :=
  read [] (userOwnedTokens s) user.

Definition tokenized (s : State) (dataHash : bytes32) : Z :=
  read 0 (dataHashToTokenId s) dataHash.

Definition licenses_of (s : State) (tokenId : Z) : list ResearchLicense :=
  read [] (researchLicenses s) tokenId.

(** **** The inherited contracts (OpenZeppelin 4.x) *)

Definition DEFAULT_ADMIN_ROLE : bytes32 := 0.

Definition hasRole (s : State) (role : bytes32) (account : address) : bool :=
  read false (_roles s) (role, account).

Definition onlyRole (role : bytes32) (msg : Msg) (s : State) : Result unit :=
  if hasRole s role (sender msg) then inr tt
  else inl (MissingRole (sender msg) role).

Definition _grantRole (s : State) (role : bytes32) (account : address) : State :=
  with_roles (<[(role, account) := true]> (_roles s)) s.

Definition _revokeRole (s : State) (role : bytes32) (account : address) : State :=
  with_roles (<[(role, account) := false]> (_roles s)) s.

(** No role of the contract is given another admin role, so the admin
    of every role is [DEFAULT_ADMIN_ROLE]. *)
Definition grantRole (msg : Msg) (s : State) (role : bytes32) (account : address)
  : Result State :=
  do _ <- nonpayable msg;
  do _ <- onlyRole DEFAULT_ADMIN_ROLE msg s;
  inr (_grantRole s role account).

Definition revokeRole (msg : Msg) (s : State) (role : bytes32) (account : address)
  : Result State :=
  do _ <- nonpayable msg;
  do _ <- onlyRole DEFAULT_ADMIN_ROLE msg s;
  inr (_revokeRole s role account).

Definition renounceRole (msg : Msg) (s : State) (role : bytes32) (account : address)
  : Result State :=
  do _ <- nonpayable msg;
  do _ <- require (account =? sender msg)
            "AccessControl: can only renounce roles for self";
  inr (_revokeRole s role account).

Definition whenNotPaused (s : State) : Result unit :=
  require (negb (_paused s)) "Pausable: paused".

Definition whenPaused (s : State) : Result unit :=
  require (_paused s) "Pausable: not paused".

Definition _pause (s : State) : Result State :=
  do _ <- whenNotPaused s;
  inr (with_paused true s).

Definition _unpause (s : State) : Result State :=
  do _ <- whenPaused s;
  inr (with_paused false s).

Definition nonReentrant (body : State → Result State) (s : State) : Result State :=
  do _ <- require (negb (_entered s)) "ReentrancyGuard: reentrant call";
  do s <- body (with_entered true s);
  inr (with_entered false s).

Definition _ownerOf (s : State) (tokenId : Z) : address :=
  read 0 (_owners s) tokenId.

Definition _exists (s : State) (tokenId : Z) : bool :=
  negb (_ownerOf s tokenId =? 0).

Definition ownerOf (s : State) (tokenId : Z) : Result address :=
  let owner := _ownerOf s tokenId in
  do _ <- require (negb (owner =? 0)) "ERC721: invalid token ID";
  inr owner.

Definition isApprovedForAll (s : State) (owner operator : address) : bool :=
  read false (_operatorApprovals s) (owner, operator).

Definition getApproved (s : State) (tokenId : Z) : Result address :=
  do _ <- require (_exists s tokenId) "ERC721: invalid token ID";
  inr (read 0 (_tokenApprovals s) tokenId).

Definition _isApprovedOrOwner (s : State) (spender : address) (tokenId : Z)
  : Result bool :=
  do owner <- ownerOf s tokenId;
  if spender =? owner then inr true
  else if isApprovedForAll s owner spender then inr true
  else do approved <- getApproved s tokenId; inr (approved =? spender).

Definition approve (msg : Msg) (s : State) (to : address) (tokenId : Z)
  : Result State :=
  do _ <- nonpayable msg;
  do owner <- ownerOf s tokenId;
  do _ <- require (negb (to =? owner)) "ERC721: approval to current owner";
  do _ <- require ((sender msg =? owner) || isApprovedForAll s owner (sender msg))
            "ERC721: approve caller is not token owner or approved for all";
  inr (with_tokenApprovals (<[tokenId := to]> (_tokenApprovals s)) s).

Definition setApprovalForAll (msg : Msg) (s : State) (operator : address)
    (approved : bool) : Result State :=
  do _ <- nonpayable msg;
  do _ <- require (negb (sender msg =? operator)) "ERC721: approve to caller";
  inr (with_operatorApprovals
         (<[(sender msg, operator) := approved]> (_operatorApprovals s)) s).

Definition _transfer (s : State) (from to : address) (tokenId : Z)
  : Result State :=
  do owner <- ownerOf s tokenId;
  do _ <- require (owner =? from) "ERC721: transfer from incorrect owner";
  do _ <- require (negb (to =? 0)) "ERC721: transfer to the zero address";
  let s := with_tokenApprovals (delete tokenId (_tokenApprovals s)) s in
  inr (with_owners (<[tokenId := to]> (_owners s)) s).

Definition _mint (s : State) (to : address) (tokenId : Z) : Result State :=
  do _ <- require (negb (to =? 0)) "ERC721: mint to the zero address";
  do _ <- require (negb (_exists s tokenId)) "ERC721: token already minted";
  inr (with_owners (<[tokenId := to]> (_owners s)) s).

(** [_checkOnERC721Received], given the state in which the receiver's
    code has finished. *)
Definition _checkOnERC721Received (reply : Reply) (s : State) : Result State :=
  match reply with
  | Selector => inr s
  | OtherValue => revert "ERC721: transfer to non ERC721Receiver implementer"
  | Reverts reason =>
      if String.eqb reason ""
      then revert "ERC721: transfer to non ERC721Receiver implementer"
      else revert reason
  end.

Definition ERC721_transferFrom (msg : Msg) (s : State) (from to : address)
    (tokenId : Z) : Result State :=
  do allowed <- _isApprovedOrOwner s (sender msg) tokenId;
  do _ <- require allowed "ERC721: caller is not token owner or approved";
  _transfer s from to tokenId.

Definition ERC721_safeTransferFrom (received : State → Result State)
    (msg : Msg) (s : State) (from to : address) (tokenId : Z) : Result State :=
  do allowed <- _isApprovedOrOwner s (sender msg) tokenId;
  do _ <- require allowed "ERC721: caller is not token owner or approved";
  do s <- _transfer s from to tokenId;
  received s.

Definition _safeMint (received : State → Result State) (s : State)
    (to : address) (tokenId : Z) : Result State :=
  do s <- _mint s to tokenId;
  received s.

Definition _setTokenURI (s : State) (tokenId : Z) (tokenURI : string)
  : Result State :=
  do _ <- require (_exists s tokenId)
            "ERC721URIStorage: URI set of nonexistent token";
  inr (with_tokenURIs (<[tokenId := tokenURI]> (_tokenURIs s)) s).

(** [payable(to).transfer(amount)]: reverts, without a reason, when the
    contract holds less than [amount] or when the payee does not take
    the ether within the gas stipend, which is too small for a call
    back into the contract. *)
Definition transfer (s : State) (amount : Z) (accepted : bool) : Result State :=
  do _ <- require (amount <=? balance s) "";
  do _ <- require accepted "";
  inr (with_balance (balance s - amount) s).

(** **** The contract *)

Section Contract.

Variable keccak256 : string → bytes32.

(** Modelled from the spec: the external verifier accepts
    [(pA, pB, pC, publicSignals)] and returns a boolean. *)
Variable verifyProof : Z * Z → (Z * Z) * (Z * Z) → Z * Z → list Z → bool.

Definition MINTER_ROLE : bytes32 := keccak256 "MINTER_ROLE".
Definition VERIFIER_ROLE : bytes32 := keccak256 "VERIFIER_ROLE".

Definition constructor (msg : Msg) (_zkVerifier : address) : State :=
  let s := {|
    _owners := ∅;
    _tokenApprovals := ∅;
    _operatorApprovals := ∅;
    _tokenURIs := ∅;
    _paused := false;
    _roles := ∅;
    _entered := false;
    dataTokens := ∅;
    researchLicenses := ∅;
    userOwnedTokens := ∅;
    dataHashToTokenId := ∅;
    _tokenIdCounter := 0;
    zkVerifier := _zkVerifier;
    balance := 0;
  |} in
  let s := _grantRole s DEFAULT_ADMIN_ROLE (sender msg) in
  let s := _grantRole s MINTER_ROLE (sender msg) in
  _grantRole s VERIFIER_ROLE (sender msg).

Definition mintDataNFT (received : State → Result State) (now : Z) (msg : Msg)
    (s : State) (to : address) (dataHash : bytes32) (privacyLevel : Z)
    (dataCategories : list string) (zkProof : list Z)
    (pA : Z * Z) (pB : (Z * Z) * (Z * Z)) (pC : Z * Z) (publicSignals : list Z)
    (tokenURI : string) : Result State :=
  do _ <- nonpayable msg;
  do _ <- onlyRole MINTER_ROLE msg s;
  nonReentrant (fun s =>
    do _ <- whenNotPaused s;
    do _ <- require ((1 <=? privacyLevel) && (privacyLevel <=? 5))
              "Invalid privacy level";
    do _ <- require (tokenized s dataHash =? 0) "Data already tokenized";
    do _ <- require (verifyProof pA pB pC publicSignals) "Invalid ZK proof";
    let tokenId := _tokenIdCounter s in
    do next <- add tokenId 1;
    let s := with_tokenIdCounter next s in
    let s := with_dataHashToTokenId
               (<[dataHash := tokenId]> (dataHashToTokenId s)) s in
    let nftData := {|
      dataHash := dataHash;
      creationTimestamp := now;
      privacyLevel := privacyLevel;
      zkProof := zkProof;
      dataCategories := dataCategories;
      isTransferable := privacyLevel <=? 3;
      accessPermissions := 1;
      dataController := to;
      authorizedViewers := authorizedViewers (token s tokenId);
    |} in
    let s := with_dataTokens (<[tokenId := nftData]> (dataTokens s)) s in
    let s := with_userOwnedTokens
               (<[to := (tokens_of s to ++ [tokenId])%list]> (userOwnedTokens s)) s in
    do s <- _safeMint received s to tokenId;
    _setTokenURI s tokenId tokenURI) s.

Definition grantResearchLicense (paid : bool) (now : Z) (msg : Msg) (s : State)
    (tokenId : Z) (researcher : address) (licenseDuration : Z)
    (licenseTerms : bytes32) (compensationAmount : Z) : Result State :=
  let s := with_balance (balance s + Z.of_N (value msg)) s in
  nonReentrant (fun s =>
    do owner <- ownerOf s tokenId;
    do _ <- require (owner =? sender msg) "Not token owner";
    do _ <- require (compensationAmount <=? Z.of_N (value msg))
              "Insufficient compensation";
    do _ <- require (0 <? licenseDuration) "Invalid license duration";
    let nftData := token s tokenId in
    do _ <- require (privacyLevel nftData <=? 3)
              "Privacy level too high for research";
    do expiryTime <- add now licenseDuration;
    let license := {|
      researcher := researcher;
      tokenId := tokenId;
      licenseExpiry := expiryTime;
      licenseTerms := licenseTerms;
      compensationPaid := compensationAmount;
      isActive := true;
    |} in
    let s := with_researchLicenses
               (<[tokenId := (licenses_of s tokenId ++ [license])%list]>
                  (researchLicenses s)) s in
    if 0 <? compensationAmount
    then transfer s compensationAmount paid
    else inr s) s.

Definition requestDataAccess (msg : Msg) (s : State) (tokenId : Z)
    (purpose : string) : Result State :=
  do _ <- nonpayable msg;
  do _ <- require (_exists s tokenId) "Token does not exist";
  inr s.

Definition set_viewer (s : State) (tokenId : Z) (viewer : address)
    (allowed : bool) : State :=
  let nftData := token s tokenId in
  let nftData := {|
    dataHash := dataHash nftData;
    creationTimestamp := creationTimestamp nftData;
    privacyLevel := privacyLevel nftData;
    zkProof := zkProof nftData;
    dataCategories := dataCategories nftData;
    isTransferable := isTransferable nftData;
    accessPermissions := accessPermissions nftData;
    dataController := dataController nftData;
    authorizedViewers := <[viewer := allowed]> (authorizedViewers nftData);
  |} in
  with_dataTokens (<[tokenId := nftData]> (dataTokens s)) s.

Definition authorizeViewer (msg : Msg) (s : State) (tokenId : Z)
    (viewer : address) : Result State :=
  do _ <- nonpayable msg;
  do owner <- ownerOf s tokenId;
  do _ <- require (owner =? sender msg) "Not token owner";
  inr (set_viewer s tokenId viewer true).

Definition revokeViewerAccess (msg : Msg) (s : State) (tokenId : Z)
    (viewer : address) : Result State :=
  do _ <- nonpayable msg;
  do owner <- ownerOf s tokenId;
  do _ <- require (owner =? sender msg) "Not token owner";
  inr (set_viewer s tokenId viewer false).

Definition updatePrivacyLevel (msg : Msg) (s : State) (tokenId : Z)
    (newPrivacyLevel : Z) : Result State :=
  do _ <- nonpayable msg;
  do owner <- ownerOf s tokenId;
  do _ <- require (owner =? sender msg) "Not token owner";
  do _ <- require ((1 <=? newPrivacyLevel) && (newPrivacyLevel <=? 5))
            "Invalid privacy level";
  let nftData := token s tokenId in
  let oldLevel := privacyLevel nftData in
  do _ <- require (oldLevel <=? newPrivacyLevel) "Cannot decrease privacy level";
  let nftData := {|
    dataHash := dataHash nftData;
    creationTimestamp := creationTimestamp nftData;
    privacyLevel := newPrivacyLevel;
    zkProof := zkProof nftData;
    dataCategories := dataCategories nftData;
    isTransferable :=
      if 3 <? newPrivacyLevel then false else isTransferable nftData;
    accessPermissions := accessPermissions nftData;
    dataController := dataController nftData;
    authorizedViewers := authorizedViewers nftData;
  |} in
  inr (with_dataTokens (<[tokenId := nftData]> (dataTokens s)) s).

Definition getUserTokens (s : State) (user : address) : list Z :=
  tokens_of s user.

Definition getResearchLicenses (s : State) (tokenId : Z) : list ResearchLicense :=
  licenses_of s tokenId.

Definition isAuthorizedViewer (s : State) (tokenId : Z) (viewer : address)
  : Result bool :=
  if read false (authorizedViewers (token s tokenId)) viewer then inr true
  else do owner <- ownerOf s tokenId; inr (owner =? viewer).

Definition getTokenDataCategories (s : State) (tokenId : Z)
  : Result (list string) :=
  do _ <- require (_exists s tokenId) "Token does not exist";
  inr (dataCategories (token s tokenId)).

(** The loop of [_updateOwnershipTracking], from index [i], with
    [steps] entries of the array still to visit. *)
Fixpoint forget_token (steps : nat) (i : nat) (fromTokens : list Z)
    (tokenId : Z) : list Z :=
  match steps with
  | O => fromTokens
  | S steps =>
      if nth i fromTokens 0 =? tokenId
      then removelast (<[i := List.last fromTokens 0]> fromTokens)
      else forget_token steps (S i) fromTokens tokenId
  end.

Definition _updateOwnershipTracking (s : State) (from to : address)
    (tokenId : Z) : State :=
  let fromTokens := tokens_of s from in
  let fromTokens := forget_token (length fromTokens) 0 fromTokens tokenId in
  let s := with_userOwnedTokens (<[from := fromTokens]> (userOwnedTokens s)) s in
  with_userOwnedTokens (<[to := (tokens_of s to ++ [tokenId])%list]> (userOwnedTokens s)) s.

Definition transferFrom (msg : Msg) (s : State) (from to : address)
    (tokenId : Z) : Result State :=
  do _ <- nonpayable msg;
  do _ <- require (isTransferable (token s tokenId))
            "Token not transferable due to privacy settings";
  do s <- ERC721_transferFrom msg s from to tokenId;
  inr (_updateOwnershipTracking s from to tokenId).

Definition safeTransferFrom (received : State → Result State) (msg : Msg)
    (s : State) (from to : address) (tokenId : Z) (data : list Z)
  : Result State :=
  do _ <- nonpayable msg;
  do _ <- require (isTransferable (token s tokenId))
            "Token not transferable due to privacy settings";
  do s <- ERC721_safeTransferFrom received msg s from to tokenId;
  inr (_updateOwnershipTracking s from to tokenId).

Definition pause (msg : Msg) (s : State) : Result State :=
  do _ <- nonpayable msg;
  do _ <- onlyRole DEFAULT_ADMIN_ROLE msg s;
  _pause s.

Definition unpause (msg : Msg) (s : State) : Result State :=
  do _ <- nonpayable msg;
  do _ <- onlyRole DEFAULT_ADMIN_ROLE msg s;
  _unpause s.

(** **** Transactions

    The state-changing functions of the contract's interface, its own
    and the inherited ones; the inherited three-argument
    [safeTransferFrom] is the four-argument one with empty [data].  A
    call that hands a token to an address says what the code at that
    address does on receipt; a call that pays out says whether the
    payee takes the ether. *)
#[local] Set Warnings "-register-all".

Inductive Call :=
| MintDataNFT (to : address) (dataHash : bytes32) (privacyLevel : Z)
    (dataCategories : list string) (zkProof : list Z)
    (pA : Z * Z) (pB : (Z * Z) * (Z * Z)) (pC : Z * Z) (publicSignals : list Z)
    (tokenURI : string) (receiver : Receiver (Msg * Call))
| GrantResearchLicense (tokenId : Z) (researcher : address)
    (licenseDuration : Z) (licenseTerms : bytes32) (compensationAmount : Z)
    (paid : bool)
| RequestDataAccess (tokenId : Z) (purpose : string)
| AuthorizeViewer (tokenId : Z) (viewer : address)
| RevokeViewerAccess (tokenId : Z) (viewer : address)
| UpdatePrivacyLevel (tokenId : Z) (newPrivacyLevel : Z)
| TransferFrom (from to : address) (tokenId : Z)
| SafeTransferFrom (from to : address) (tokenId : Z) (data : list Z)
    (receiver : Receiver (Msg * Call))
| Pause
| Unpause
| Approve (to : address) (tokenId : Z)
| SetApprovalForAll (operator : address) (approved : bool)
| GrantRole (role : bytes32) (account : address)
| RevokeRole (role : bytes32) (account : address)
| RenounceRole (role : bytes32) (account : address).

Fixpoint exec (now : Z) (call : Call) (msg : Msg) (s : State) {struct call}
  : Result State :=
  let received (receiver : Receiver (Msg * Call)) (s : State) : Result State :=
    match receiver with
    | Account => inr s
    | Contract calls reply =>
        _checkOnERC721Received reply
          ((fix reenter (calls : list (Msg * Call)) (s : State) : State :=
              match calls with
              | [] => s
              | (msg', call') :: calls =>
                  reenter calls
                    match exec now call' msg' s with
                    | inr s' => s'
                    | inl _ => s
                    end
              end) calls s)
    end in
  match call with
  | MintDataNFT to dataHash privacyLevel dataCategories zkProof pA pB pC
      publicSignals tokenURI receiver =>
      mintDataNFT (received receiver) now msg s to dataHash privacyLevel
        dataCategories zkProof pA pB pC publicSignals tokenURI
  | GrantResearchLicense tokenId researcher licenseDuration licenseTerms
      compensationAmount paid =>
      grantResearchLicense paid now msg s tokenId researcher licenseDuration
        licenseTerms compensationAmount
  | RequestDataAccess tokenId purpose => requestDataAccess msg s tokenId purpose
  | AuthorizeViewer tokenId viewer => authorizeViewer msg s tokenId viewer
  | RevokeViewerAccess tokenId viewer => revokeViewerAccess msg s tokenId viewer
  | UpdatePrivacyLevel tokenId newPrivacyLevel =>
      updatePrivacyLevel msg s tokenId newPrivacyLevel
  | TransferFrom from to tokenId => transferFrom msg s from to tokenId
  | SafeTransferFrom from to tokenId data receiver =>
      safeTransferFrom (received receiver) msg s from to tokenId data
  | Pause => pause msg s
  | Unpause => unpause msg s
  | Approve to tokenId => approve msg s to tokenId
  | SetApprovalForAll operator approved =>
      setApprovalForAll msg s operator approved
  | GrantRole role account => grantRole msg s role account
  | RevokeRole role account => revokeRole msg s role account
  | RenounceRole role account => renounceRole msg s role account
  end.

(** The calls a receiver makes, one after the other; a call that
    reverts is caught and changes nothing. *)
Definition reenter (now : Z) : list (Msg * Call) → State → State :=
  fix reenter (calls : list (Msg * Call)) (s : State) : State :=
    match calls with
    | [] => s
    | (msg', call') :: calls =>
        reenter calls
          match exec now call' msg' s with
          | inr s' => s'
          | inl _ => s
          end
    end.

Definition received (now : Z) (receiver : Receiver (Msg * Call)) (s : State)
  : Result State :=
  match receiver with
  | Account => inr s
  | Contract calls reply => _checkOnERC721Received reply (reenter now calls s)
  end.

(** The states the contract can be in between transactions.  Ether can
    also be forced on the contract without calling it. *)
Inductive reachable : State → Prop :=
| reachable_deployed (msg : Msg) (_zkVerifier : address) :
    reachable (constructor msg _zkVerifier)
| reachable_call (s s' : State) (now : Z) (call : Call) (msg : Msg) :
    reachable s → exec now call msg s = inr s' → reachable s'
| reachable_funded (s : State) (amount : Z) :
    reachable s → 0 ≤ amount → reachable (with_balance (balance s + amount) s).

End Contract.

End MentalHealthDataNFT.
(** *** DataSovereigntyMarketplace *)

Module DataSovereigntyMarketplace.

Import Evm.

Local Open Scope string_scope.
Local Open Scope list_scope.
Local Open Scope Z_scope.

Record DataListing := {
  tokenId : Z;
  seller : address;
  price : Z;
  licenseDuration : Z;
  allowedUseCases : list string;
  isActive : bool;
  listingTime : Z;
}.

Definition no_listing : DataListing := {|
  tokenId := 0;
  seller := 0;
  price := 0;
  licenseDuration := 0;
  allowedUseCases := [];
  isActive := false;
  listingTime := 0;
|}.

(** The struct that the contract uses under the name [PurchaseRequest];
    its declaration in the document carries another name. *)
Record PurchaseRequest := {
  listingId : Z;
  researcher : address;
  researchPurpose : string;
  ethicsApproval : bytes32;
  offerPrice : Z;
  isApproved : bool;
  requestTime : Z;
}.

(** The storage of the marketplace: the state variables of [Ownable],
    [Pausable] and [ReentrancyGuard] (OpenZeppelin 4.x), its own, and
    the ether it holds. *)
Record State := {
  _owner : address;
  _paused : bool;
  _entered : bool;
  dataContract : address;
  listings : gmap Z DataListing;
  purchaseRequests : gmap Z (list PurchaseRequest);
  approvedResearchers : gmap address bool;
  listingCounter : Z;
  platformFeePercent : Z;
  balance : Z;
}.

Definition with_owner v (s : State) : State := {|
  _owner := v;
  _paused := _paused s;
  _entered := _entered s;
  dataContract := dataContract s;
  listings := listings s;
  purchaseRequests := purchaseRequests s;
  approvedResearchers := approvedResearchers s;
  listingCounter := listingCounter s;
  platformFeePercent := platformFeePercent s;
  balance := balance s;
|}.

Definition with_paused v (s : State) : State := {|
  _owner := _owner s;
  _paused := v;
  _entered := _entered s;
  dataContract := dataContract s;
  listings := listings s;
  purchaseRequests := purchaseRequests s;
  approvedResearchers := approvedResearchers s;
  listingCounter := listingCounter s;
  platformFeePercent := platformFeePercent s;
  balance := balance s;
|}.

Definition with_entered v (s : State) : State := {|
  _owner := _owner s;
  _paused := _paused s;
  _entered := v;
  dataContract := dataContract s;
  listings := listings s;
  purchaseRequests := purchaseRequests s;
  approvedResearchers := approvedResearchers s;
  listingCounter := listingCounter s;
  platformFeePercent := platformFeePercent s;
  balance := balance s;
|}.

Definition with_listings v (s : State) : State := {|
  _owner := _owner s;
  _paused := _paused s;
  _entered := _entered s;
  dataContract := dataContract s;
  listings := v;
  purchaseRequests := purchaseRequests s;
  approvedResearchers := approvedResearchers s;
  listingCounter := listingCounter s;
  platformFeePercent := platformFeePercent s;
  balance := balance s;
|}.

Definition with_purchaseRequests v (s : State) : State := {|
  _owner := _owner s;
  _paused := _paused s;
  _entered := _entered s;
  dataContract := dataContract s;
  listings := listings s;
  purchaseRequests := v;
  approvedResearchers := approvedResearchers s;
  listingCounter := listingCounter s;
  platformFeePercent := platformFeePercent s;
  balance := balance s;
|}.

Definition with_approvedResearchers v (s : State) : State := {|
  _owner := _owner s;
  _paused := _paused s;
  _entered := _entered s;
  dataContract := dataContract s;
  listings := listings s;
  purchaseRequests := purchaseRequests s;
  approvedResearchers := v;
  listingCounter := listingCounter s;
  platformFeePercent := platformFeePercent s;
  balance := balance s;
|}.

Definition with_listingCounter v (s : State) : State := {|
  _owner := _owner s;
  _paused := _paused s;
  _entered := _entered s;
  dataContract := dataContract s;
  listings := listings s;
  purchaseRequests := purchaseRequests s;
  approvedResearchers := approvedResearchers s;
  listingCounter := v;
  platformFeePercent := platformFeePercent s;
  balance := balance s;
|}.

Definition with_platformFeePercent v (s : State) : State := {|
  _owner := _owner s;
  _paused := _paused s;
  _entered := _entered s;
  dataContract := dataContract s;
  listings := listings s;
  purchaseRequests := purchaseRequests s;
  approvedResearchers := approvedResearchers s;
  listingCounter := listingCounter s;
  platformFeePercent := v;
  balance := balance s;
|}.

Definition with_balance v (s : State) : State := {|
  _owner := _owner s;
  _paused := _paused s;
  _entered := _entered s;
  dataContract := dataContract s;
  listings := listings s;
  purchaseRequests := purchaseRequests s;
  approvedResearchers := approvedResearchers s;
  listingCounter := listingCounter s;
  platformFeePercent := platformFeePercent s;
  balance := v;
|}.

Definition listing (s : State) (listingId : Z) : DataListing :=
  read no_listing (listings s) listingId.

Definition requests (s : State) (listingId : Z) : list PurchaseRequest :=
  read [] (purchaseRequests s) listingId.

Definition MAX_FEE : Z := 1000.

(** **** The inherited contracts (OpenZeppelin 4.x) *)

Definition onlyOwner (msg : Msg) (s : State) : Result unit :=
  require (_owner s =? sender msg) "Ownable: caller is not the owner".

Definition transferOwnership (msg : Msg) (s : State) (newOwner : address)
  : Result State :=
  do _ <- nonpayable msg;
  do _ <- onlyOwner msg s;
  do _ <- require (negb (newOwner =? 0)) "Ownable: new owner is the zero address";
  inr (with_owner newOwner s).

Definition renounceOwnership (msg : Msg) (s : State) : Result State :=
  do _ <- nonpayable msg;
  do _ <- onlyOwner msg s;
  inr (with_owner 0 s).

Definition whenNotPaused (s : State) : Result unit :=
  require (negb (_paused s)) "Pausable: paused".

Definition whenPaused (s : State) : Result unit :=
  require (_paused s) "Pausable: not paused".

Definition _pause (s : State) : Result State :=
  do _ <- whenNotPaused s;
  inr (with_paused true s).

Definition _unpause (s : State) : Result State :=
  do _ <- whenPaused s;
  inr (with_paused false s).

(** [nonReentrant] around a body that also changes the data contract. *)
Definition nonReentrant {A} (body : State → Result (State * A)) (s : State)
  : Result (State * A) :=
  do _ <- require (negb (_entered s)) "ReentrancyGuard: reentrant call";
  do (s, a) <- body (with_entered true s);
  inr (with_entered false s, a).

(** [payable(to).transfer(amount)], as in the data contract. *)
Definition transfer (s : State) (amount : Z) (accepted : bool) : Result State :=
  do _ <- require (amount <=? balance s) "";
  do _ <- require accepted "";
  inr (with_balance (balance s - amount) s).

(** **** The contract *)

Section Contract.

(** The address of the marketplace itself, which is [msg.sender] in the
    calls it makes. *)
Variable this : address.

(** [keccak256(abi.encode(researchPurpose, ethicsApproval,
    allowedUseCases))]. *)
Variable keccak256 : string → bytes32 → list string → bytes32.

Definition constructor (msg : Msg) (_dataContract : address) : State := {|
  _owner := sender msg;
  _paused := false;
  _entered := false;
  dataContract := _dataContract;
  listings := ∅;
  purchaseRequests := ∅;
  approvedResearchers := ∅;
  listingCounter := 0;
  platformFeePercent := 250;
  balance := 0;
|}.

Definition listDataForLicense (now : Z) (msg : Msg) (s : State)
    (nft : MentalHealthDataNFT.State) (tokenId : Z) (price : Z)
    (licenseDuration : Z) (allowedUseCases : list string) : Result State :=
  do _ <- nonpayable msg;
  do (s, _) <- nonReentrant (fun s =>
    do _ <- whenNotPaused s;
    do owner <- MentalHealthDataNFT.ownerOf nft tokenId;
    do _ <- require (owner =? sender msg) "Not token owner";
    do _ <- require (0 <? price) "Price must be greater than 0";
    do _ <- require (0 <? licenseDuration)
              "License duration must be greater than 0";
    let listingId := listingCounter s in
    do next <- add listingId 1;
    let s := with_listingCounter next s in
    let s := with_listings
               (<[listingId := {|
                    tokenId := tokenId;
                    seller := sender msg;
                    price := price;
                    licenseDuration := licenseDuration;
                    allowedUseCases := allowedUseCases;
                    isActive := true;
                    listingTime := now;
                  |}]> (listings s)) s in
    inr (s, tt)) s;
  inr s.

Definition submitPurchaseRequest (now : Z) (msg : Msg) (s : State)
    (listingId : Z) (researchPurpose : string) (ethicsApproval : bytes32)
    (offerPrice : Z) : Result State :=
  do _ <- nonpayable msg;
  do (s, _) <- nonReentrant (fun s =>
    do _ <- whenNotPaused s;
    do _ <- require (read false (approvedResearchers s) (sender msg))
              "Not approved researcher";
    do _ <- require (isActive (listing s listingId)) "Listing not active";
    do _ <- require (price (listing s listingId) <=? offerPrice) "Offer too low";
    let request := {|
      listingId := listingId;
      researcher := sender msg;
      researchPurpose := researchPurpose;
      ethicsApproval := ethicsApproval;
      offerPrice := offerPrice;
      isApproved := false;
      requestTime := now;
    |} in
    let s := with_purchaseRequests
               (<[listingId := requests s listingId ++ [request]]>
                  (purchaseRequests s)) s in
    inr (s, tt)) s;
  inr s.

(** The two amounts that [_executeLicensePurchase] computes first. *)
Definition split_payment (s : State) (offerPrice : Z) : Result (Z * Z) :=
  do product <- mul offerPrice (platformFeePercent s);
  do platformFee <- div product 10000;
  do sellerAmount <- sub offerPrice platformFee;
  inr (platformFee, sellerAmount).

(** The marketplace has no function that takes ether, so what the data
    contract would pay back to it is refused. *)
Definition _executeLicensePurchase (now : Z) (s : State)
    (nft : MentalHealthDataNFT.State) (listingId : Z) (requestIndex : nat)
    (sellerAccepts : bool) : Result (State * MentalHealthDataNFT.State) :=
  let listing := listing s listingId in
  match requests s listingId !! requestIndex with
  | None => inl (Panic 50)
  | Some request =>
      do (platformFee, sellerAmount) <- split_payment s (offerPrice request);
      do s <- transfer s sellerAmount sellerAccepts;
      let licenseTerms :=
        keccak256 (researchPurpose request) (ethicsApproval request)
          (allowedUseCases listing) in
      do nft <- MentalHealthDataNFT.grantResearchLicense false now
                  {| sender := this; value := 0 |} nft (tokenId listing)
                  (researcher request) (licenseDuration listing) licenseTerms
                  (offerPrice request);
      inr (s, nft)
  end.

Definition approve_request (request : PurchaseRequest) : PurchaseRequest := {|
  listingId := listingId request;
  researcher := researcher request;
  researchPurpose := researchPurpose request;
  ethicsApproval := ethicsApproval request;
  offerPrice := offerPrice request;
  isApproved := true;
  requestTime := requestTime request;
|}.

Definition approvePurchaseRequest (now : Z) (msg : Msg) (s : State)
    (nft : MentalHealthDataNFT.State) (listingId : Z) (requestIndex : Z)
    (sellerAccepts : bool) : Result (State * MentalHealthDataNFT.State) :=
  do _ <- nonpayable msg;
  nonReentrant (fun s =>
    let listing := listing s listingId in
    do _ <- require (seller listing =? sender msg) "Not listing owner";
    do _ <- require (requestIndex <? Z.of_nat (length (requests s listingId)))
              "Invalid request index";
    match requests s listingId !! Z.to_nat requestIndex with
    | None => inl (Panic 50)
    | Some request =>
        do _ <- require (negb (isApproved request)) "Request already approved";
        let s := with_purchaseRequests
                   (<[listingId := <[Z.to_nat requestIndex := approve_request request]>
                                     (requests s listingId)]>
                      (purchaseRequests s)) s in
        _executeLicensePurchase now s nft listingId (Z.to_nat requestIndex)
          sellerAccepts
    end) s.

Definition addApprovedResearcher (msg : Msg) (s : State) (researcher : address)
  : Result State :=
  do _ <- nonpayable msg;
  do _ <- onlyOwner msg s;
  inr (with_approvedResearchers
         (<[researcher := true]> (approvedResearchers s)) s).

Definition removeApprovedResearcher (msg : Msg) (s : State)
    (researcher : address) : Result State :=
  do _ <- nonpayable msg;
  do _ <- onlyOwner msg s;
  inr (with_approvedResearchers
         (<[researcher := false]> (approvedResearchers s)) s).

Definition updatePlatformFee (msg : Msg) (s : State) (newFeePercent : Z)
  : Result State :=
  do _ <- nonpayable msg;
  do _ <- onlyOwner msg s;
  do _ <- require (newFeePercent <=? MAX_FEE) "Fee too high";
  inr (with_platformFeePercent newFeePercent s).

Definition delist (l : DataListing) : DataListing := {|
  tokenId := tokenId l;
  seller := seller l;
  price := price l;
  licenseDuration := licenseDuration l;
  allowedUseCases := allowedUseCases l;
  isActive := false;
  listingTime := listingTime l;
|}.

Definition delistData (msg : Msg) (s : State) (listingId : Z) : Result State :=
  do _ <- nonpayable msg;
  do _ <- require (seller (listing s listingId) =? sender msg)
            "Not listing owner";
  inr (with_listings
         (<[listingId := delist (listing s listingId)]> (listings s)) s).

Definition getListingDetails (s : State) (listingId : Z) : DataListing :=
  listing s listingId.

Definition getPurchaseRequests (s : State) (listingId : Z)
  : list PurchaseRequest :=
  requests s listingId.

Definition withdrawPlatformFees (msg : Msg) (s : State) (accepted : bool)
  : Result State :=
  do _ <- nonpayable msg;
  do _ <- onlyOwner msg s;
  transfer s (balance s) accepted.

Definition pause (msg : Msg) (s : State) : Result State :=
  do _ <- nonpayable msg;
  do _ <- onlyOwner msg s;
  _pause s.

Definition unpause (msg : Msg) (s : State) : Result State :=
  do _ <- nonpayable msg;
  do _ <- onlyOwner msg s;
  _unpause s.

(** **** Transactions *)

Inductive Call :=
| ListDataForLicense (tokenId : Z) (price : Z) (licenseDuration : Z)
    (allowedUseCases : list string)
| SubmitPurchaseRequest (listingId : Z) (researchPurpose : string)
    (ethicsApproval : bytes32) (offerPrice : Z)
| ApprovePurchaseRequest (listingId : Z) (requestIndex : Z)
    (sellerAccepts : bool)
| AddApprovedResearcher (researcher : address)
| RemoveApprovedResearcher (researcher : address)
| UpdatePlatformFee (newFeePercent : Z)
| DelistData (listingId : Z)
| WithdrawPlatformFees (accepted : bool)
| Pause
| Unpause
| TransferOwnership (newOwner : address)
| RenounceOwnership.

Definition keep (nft : MentalHealthDataNFT.State) (r : Result State)
  : Result (State * MentalHealthDataNFT.State) :=
  do s <- r; inr (s, nft).

Definition exec (now : Z) (call : Call) (msg : Msg)
    (world : State * MentalHealthDataNFT.State)
  : Result (State * MentalHealthDataNFT.State) :=
  let (s, nft) := world in
  match call with
  | ListDataForLicense tokenId price licenseDuration allowedUseCases =>
      keep nft
        (listDataForLicense now msg s nft tokenId price licenseDuration
           allowedUseCases)
  | SubmitPurchaseRequest listingId researchPurpose ethicsApproval offerPrice =>
      keep nft
        (submitPurchaseRequest now msg s listingId researchPurpose
           ethicsApproval offerPrice)
  | ApprovePurchaseRequest listingId requestIndex sellerAccepts =>
      approvePurchaseRequest now msg s nft listingId requestIndex sellerAccepts
  | AddApprovedResearcher researcher =>
      keep nft (addApprovedResearcher msg s researcher)
  | RemoveApprovedResearcher researcher =>
      keep nft (removeApprovedResearcher msg s researcher)
  | UpdatePlatformFee newFeePercent =>
      keep nft (updatePlatformFee msg s newFeePercent)
  | DelistData listingId => keep nft (delistData msg s listingId)
  | WithdrawPlatformFees accepted => keep nft (withdrawPlatformFees msg s accepted)
  | Pause => keep nft (pause msg s)
  | Unpause => keep nft (unpause msg s)
  | TransferOwnership newOwner => keep nft (transferOwnership msg s newOwner)
  | RenounceOwnership => keep nft (renounceOwnership msg s)
  end.

(** The states the marketplace can be in between transactions,
    whatever state the data contract is in when it is called.  Ether
    can also be forced on the marketplace without calling it. *)
Inductive reachable : State → Prop :=
| reachable_deployed (msg : Msg) (_dataContract : address) :
    reachable (constructor msg _dataContract)
| reachable_call (s s' : State) (nft nft' : MentalHealthDataNFT.State)
    (now : Z) (call : Call) (msg : Msg) :
    reachable s → exec now call msg (s, nft) = inr (s', nft') → reachable s'
| reachable_funded (s : State) (amount : Z) :
    reachable s → 0 ≤ amount → reachable (with_balance (balance s + amount) s).

End Contract.

End DataSovereigntyMarketplace.
(** ** Bounded quantification by enumeration *)

Lemma forallb_below (P : Z → bool) (n : nat) :
  forallb P (map Z.of_nat (seq 0 n)) = true →
  ∀ x : Z, (0 ≤ x < Z.of_nat n)%Z → P x = true.
Proof.
  intros Hall x Hx.
  rewrite forallb_forall in Hall. apply Hall.
  apply in_map_iff. exists (Z.to_nat x). split; [lia|].
  apply in_seq. lia.
Qed.


Definition sum_list (l : list Z) : Z := fold_right Z.add 0%Z l.

Lemma sum_list_cons (x : Z) (l : list Z) : sum_list (x :: l) = (x + sum_list l)%Z.
Proof. reflexivity. Qed.

Lemma sum_list_nonneg (l : list Z) : Forall (Z.le 0) l → (0 ≤ sum_list l)%Z.
Proof.
  induction 1 as [|y l Hy _ IH]; [reflexivity|].
  rewrite sum_list_cons. lia.
Qed.

Lemma sum_list_ge (l : list Z) (x : Z) :
  Forall (Z.le 0) l → In x l → (x ≤ sum_list l)%Z.
Proof.
  induction 1 as [|y l Hy Hl IH]; intros Hin; [destruct Hin|].
  pose proof (sum_list_nonneg l Hl) as Hnn.
  rewrite sum_list_cons. destruct Hin as [-> | Hin]; [lia|].
  specialize (IH Hin). lia.
Qed.

Lemma forallb_below2 (P : Z → Z → bool) (n m : nat) :
  forallb (fun a => forallb (P a) (map Z.of_nat (seq 0 m)))
          (map Z.of_nat (seq 0 n)) = true →
  ∀ a b : Z, (0 ≤ a < Z.of_nat n)%Z → (0 ≤ b < Z.of_nat m)%Z → P a b = true.
Proof.
  intros Hall a b Ha Hb.
  pose proof (forallb_below _ n Hall a Ha) as Hrow. cbv beta in Hrow.
  exact (forallb_below _ m Hrow b Hb).
Qed.

(** ** Numbers *)

Module JsFacts.

Import Js.
Local Open Scope Z_scope.

Lemma round_half_even_unit (num : Z) : round_half_even num 1 = num.
Proof.
  unfold round_half_even. rewrite Z.mod_1_r, Z.div_1_r. reflexivity.
Qed.

Lemma Qred_integer (z : Z) (k : Z) :
  0 ≤ k → Qred (z * 2 ^ k # Z.to_pos (2 ^ k)) = inject_Z z.
Proof.
  intros Hk. transitivity (Qred (inject_Z z)).
  - apply Qred_complete. unfold Qeq, inject_Z. cbn [Qnum Qden].
    rewrite Z2Pos.id by (apply Z.pow_pos_nonneg; lia). lia.
  - unfold Qred, inject_Z.
    pose proof (Z.ggcd_correct_divisors z 1) as Hd.
    pose proof (Z.ggcd_gcd z 1) as Hg. rewrite Z.gcd_1_r in Hg.
    destruct (Z.ggcd z 1) as [g [aa bb]]. cbn [fst snd] in *. subst g.
    destruct Hd as [-> Hb]. assert (bb = 1) as -> by lia.
    by rewrite Z.mul_1_l.
Qed.

(** An integer below [2 ^ 53] is a double. *)
Lemma nearest_double_pos_exact (a : positive) :
  Z.pos a < 2 ^ 53 → nearest_double_pos a 1 = Finite (inject_Z (Z.pos a)).
Proof.
  intros Ha. unfold nearest_double_pos.
  change (Z.log2 (Z.pos 1)) with 0. rewrite Z.sub_0_r.
  pose proof (Z.log2_nonneg (Z.pos a)) as Hl0.
  assert (Z.log2 (Z.pos a) < 53) as Hl53 by (apply Z.log2_lt_pow2; lia).
  destruct (Z.log2_spec (Z.pos a)) as [Hlow _]; [lia|].
  set (l := Z.log2 (Z.pos a)) in *.
  rewrite (Z.max_l l 0), (Z.max_r (- l) 0) by lia.
  rewrite Z.pow_0_r, Z.mul_1_r, Z.mul_1_l.
  destruct (Z.leb_spec (2 ^ l) (Z.pos a)) as [_|]; [|lia].
  rewrite (Z.max_l (l - 52) (-1074)) by lia.
  rewrite (Z.max_l (- (l - 52)) 0), (Z.max_r (l - 52) 0) by lia.
  rewrite Z.pow_0_r, !Z.mul_1_r, round_half_even_unit.
  assert (0 < 2 ^ (- (l - 52))) as Hp by (apply Z.pow_pos_nonneg; lia).
  destruct (Z.leb_spec (2 ^ 1024 * 2 ^ (- (l - 52))) (Z.pos a * 2 ^ (- (l - 52))))
    as [Hbig|_].
  - apply Z.mul_le_mono_pos_r in Hbig; [|exact Hp].
    assert (2 ^ 53 < 2 ^ 1024) by (apply Z.pow_lt_mono_r; lia). lia.
  - f_equal. apply Qred_integer. lia.
Qed.

(** [Number(z)] is exact from [-(2 ^ 53 - 1)] to [2 ^ 53 - 1], the safe
    integers. *)
Lemma Number_exact (z : Z) : Z.abs z < 2 ^ 53 → Number z = Finite (inject_Z z).
Proof.
  intros Hz. unfold Number, nearest_double, inject_Z. cbn [Qnum Qden].
  destruct z as [|a|a]; [reflexivity| |].
  - apply nearest_double_pos_exact. lia.
  - rewrite nearest_double_pos_exact by lia. reflexivity.
Qed.

Lemma divide_by_count (x : Q) (count : Z) :
  count ≠ 0 →
  divide (Finite x) (Finite (inject_Z count)) = nearest_double (x / inject_Z count).
Proof.
  intros Hc. unfold divide. cbn [Qnum inject_Z].
  by destruct (Z.eqb_spec count 0).
Qed.


Lemma BigInt_integer (z : Z) : BigInt (Finite (inject_Z z)) = inr z.
Proof.
  unfold BigInt, inject_Z. cbn [Qnum Qden].
  rewrite Z.mod_1_r, Z.div_1_r. reflexivity.
Qed.

(** The rounding agrees with the IEEE 754 operations of [SpecFloat] at
    binary64, here on integers around [2 ^ 53] and [2 ^ 1024] and on
    quotients that round, overflow or fall below the normal range. *)
Definition of_spec_float (f : spec_float) : number :=
  match f with
  | S754_zero _ => Finite 0
  | S754_infinity negative => Infinity negative
  | S754_nan => NaN
  | S754_finite negative m e =>
      let x := Qred (Z.pos m * 2 ^ Z.max e 0 # Z.to_pos (2 ^ Z.max (- e) 0)) in
      Finite (if negative then - x else x)
  end.

Definition binary64 (z : Z) : spec_float := binary_normalize 53 1024 z 0 false.

Example Number_agrees_with_SpecFloat :
  Forall (fun z => Number z = of_spec_float (binary64 z))
    [ 0; 1; 12; 2 ^ 53; 2 ^ 53 + 1; 2 ^ 53 + 3; 2 ^ 54 + 2; 2 ^ 54 + 6;
      - (2 ^ 80 + 12345678); 123456789123456789123456789;
      2 ^ 1024 - 2 ^ 970 - 1; 2 ^ 1024 - 2 ^ 970; 2 ^ 1024 ].
Proof.
  repeat (constructor; [vm_compute; reflexivity|]). constructor.
Qed.

Example divide_agrees_with_SpecFloat :
  Forall (fun '(a, b) =>
            divide (Number a) (Number b)
            = of_spec_float (SFdiv 53 1024 (binary64 a) (binary64 b)))
    [ (1, 3); (2, 3); (10, 7); (12, 3); (0, 5); (-5, 3); (5, -3);
      (2 ^ 53 + 1, 3); (2 ^ 60 + 12345, 7); (1, 2 ^ 60 + 1);
      (7, 2 ^ 1000); (1, 2 ^ 1023); (3, 2 ^ 1023 + 2 ^ 1022);
      (2 ^ 1023, 2 ^ 20) ].
Proof.
  repeat (constructor; [vm_compute; reflexivity|]). constructor.
Qed.

End JsFacts.

(** ** Properties of the circuits *)

Module CircomSpec.

Import Circom.
Local Open Scope Z_scope.

(** *** The 8-bit comparator *)

(** The two halves of [Num2Bits]: the bits, and their recomposition. *)
Definition n2b_bits (n : nat) (inp : Z) : list Z :=
  map (fun i => Z.land (Z.shiftr inp (Z.of_nat i)) 1) (seq 0 n).

Definition n2b_sum (n : nat) (out : list Z) : Z :=
  fold_left (fun acc i => fadd acc (fmul (nth i out 0) (Fr (2 ^ Z.of_nat i))))
            (seq 0 n) 0.

Lemma Num2Bits_unfold n inp :
  Num2Bits n inp =
  if n2b_sum n (n2b_bits n inp) =? inp then Some (n2b_bits n inp) else None.
Proof. reflexivity. Qed.

(** Only the nine low bits of the input reach the output of [Num2Bits(9)]. *)
Lemma n2b_bits_mod inp : n2b_bits 9 (inp mod 512) = n2b_bits 9 inp.
Proof.
  unfold n2b_bits. apply map_ext_in. intros i Hi. apply in_seq in Hi.
  rewrite !Z.shiftr_div_pow2 by lia.
  change 1 with (Z.ones 1). rewrite !Z.land_ones by lia.
  change (2 ^ 1) with 2.
  rewrite <- !Z.testbit_spec' by lia.
  change 512 with (2 ^ 9). rewrite Z.mod_pow2_bits_low by lia. reflexivity.
Qed.

Lemma n2b_low_all :
  forallb (fun x => (n2b_sum 9 (n2b_bits 9 x) =? x)
                    && (nth 8 (n2b_bits 9 x) 0 =? x / 256))
          (map Z.of_nat (seq 0 512)) = true.
Proof. vm_compute. reflexivity. Qed.

Lemma n2b_low x :
  0 ≤ x < 512 →
  n2b_sum 9 (n2b_bits 9 x) = x ∧ nth 8 (n2b_bits 9 x) 0 = x / 256.
Proof.
  intros Hx.
  pose proof (forallb_below _ 512 n2b_low_all x) as H. cbv beta in H.
  apply andb_true_iff in H as [H1 H2]; [|lia].
  split; [apply Z.eqb_eq, H1 | apply Z.eqb_eq, H2].
Qed.

Lemma Num2Bits_9 x :
  0 ≤ x →
  Num2Bits 9 x = if x <? 512 then Some (n2b_bits 9 x) else None.
Proof.
  intros Hx. rewrite Num2Bits_unfold.
  destruct (Z.ltb_spec x 512) as [Hlt | Hge].
  - destruct (n2b_low x) as [-> _]; [lia|]. by rewrite Z.eqb_refl.
  - rewrite <- n2b_bits_mod.
    destruct (n2b_low (x mod 512)) as [-> _].
    { apply Z.mod_pos_bound. lia. }
    destruct (Z.eqb_spec (x mod 512) x) as [Heq | ]; [|done].
    pose proof (Z.mod_pos_bound x 512). lia.
Qed.

(** What [GreaterEqThan(8)] computes on arbitrary field elements: with
    [x = in[1] + 255 - in[0]] in the field, the range check passes when
    [x < 512], and the output is 1 exactly when [x < 256]. *)
Lemma GreaterEqThan_8 a b :
  GreaterEqThan 8 a b =
  let x := (b + 255 - a) mod p in
  if x <? 512 then Some (if x <? 256 then 1 else 0) else None.
Proof.
  unfold GreaterEqThan, LessThan.
  change (8 + 1)%nat with 9%nat. change (Z.shiftl 1 (Z.of_nat 8)) with 256.
  assert (fsub (fadd b 256) (fadd a 1) = (b + 255 - a) mod p) as ->.
  { unfold fsub, fadd. rewrite Zminus_mod_idemp_l, Zminus_mod_idemp_r.
    f_equal. lia. }
  cbv zeta. set (x := (b + 255 - a) mod p).
  assert (0 ≤ x) as Hx by (apply Z.mod_pos_bound; reflexivity).
  rewrite Num2Bits_9 by done.
  destruct (Z.ltb_spec x 512) as [Hlt | Hge]; [|done].
  destruct (n2b_low x) as [_ ->]; [lia|].
  f_equal. destruct (Z.ltb_spec x 256) as [Hs | Hb].
  - rewrite Z.div_small by lia. reflexivity.
  - replace (x / 256) with 1; [reflexivity|].
    apply Z.div_unique with (x - 256); lia.
Qed.

Lemma GreaterEqThan_8_bit a b r :
  GreaterEqThan 8 a b = Some r → r = 0 ∨ r = 1.
Proof.
  rewrite GreaterEqThan_8. cbv zeta. intros H.
  repeat case_match; naive_solver.
Qed.

(** On 8-bit operands the comparator decides [a ≥ b] and never fails. *)
Lemma GreaterEqThan_8_range a b :
  0 ≤ a < 256 → 0 ≤ b < 256 →
  GreaterEqThan 8 a b = Some (if b <=? a then 1 else 0).
Proof.
  intros Ha Hb. rewrite GreaterEqThan_8. cbv zeta.
  rewrite Z.mod_small by (unfold p; lia).
  destruct (Z.ltb_spec (b + 255 - a) 512); [|lia].
  f_equal. destruct (Z.ltb_spec (b + 255 - a) 256), (Z.leb_spec b a); lia || done.
Qed.

(** Raising the second operand cannot turn a 0 into a 1, whatever the
    first operand is, as long as the raised operand stays at least 512
    below the field modulus. *)
Lemma GreaterEqThan_8_raise a b b' :
  0 ≤ b → b ≤ b' → b' ≤ p - 512 →
  GreaterEqThan 8 a b = Some 0 → GreaterEqThan 8 a b' ≠ Some 1.
Proof.
  intros H0 Hle Hp. rewrite !GreaterEqThan_8. cbv zeta.
  pose proof (Z.mod_pos_bound (b + 255 - a) p eq_refl) as Hx.
  pose proof (Z.mod_pos_bound (b' + 255 - a) p eq_refl) as Hx'.
  rewrite (Z.mod_eq (b + 255 - a) p) in * by done.
  rewrite (Z.mod_eq (b' + 255 - a) p) in * by done.
  set (k := (b + 255 - a) / p) in *. set (k' := (b' + 255 - a) / p) in *.
  repeat case_match; try done; intros _ _; unfold p in *; lia.
Qed.


(** *** The wellness-milestone circuit *)

Lemma WellnessMilestoneProof_achieved Poseidon priv pub :
  milestoneAchieved <$> WellnessMilestoneProof Poseidon priv pub
  = wellness_achieved priv pub.
Proof.
  unfold WellnessMilestoneProof.
  destruct (wellness_achieved priv pub); reflexivity.
Qed.

(** The three AND gates on four boolean inputs. *)
Lemma AND_gates c1 c2 c3 c4 :
  (c1 = 0 ∨ c1 = 1) → (c2 = 0 ∨ c2 = 1) →
  (c3 = 0 ∨ c3 = 1) → (c4 = 0 ∨ c4 = 1) →
  AND (AND c1 c2) (AND c3 c4)
  = if (c1 =? 1) && (c2 =? 1) && (c3 =? 1) && (c4 =? 1) then 1 else 0.
Proof.
  intros [-> | ->] [-> | ->] [-> | ->] [-> | ->]; vm_compute; reflexivity.
Qed.

Lemma wellness_achieved_inv priv pub r :
  wellness_achieved priv pub = Some r →
  ∃ c1 c2 c3 c4,
    GreaterEqThan 8 (mentalHealthScore priv) (minWellnessThreshold pub) = Some c1
    ∧ GreaterEqThan 8 (sessionCount priv) (minSessionRequirement pub) = Some c2
    ∧ GreaterEqThan 8 (consistencyDays priv) (minConsistencyDays pub) = Some c3
    ∧ GreaterEqThan 8 (moodImprovementScore priv) (minImprovementPercent pub) = Some c4
    ∧ r = if (c1 =? 1) && (c2 =? 1) && (c3 =? 1) && (c4 =? 1) then 1 else 0.
Proof.
  unfold wellness_achieved. intros H.
  destruct (GreaterEqThan 8 (mentalHealthScore priv) _) as [c1|] eqn:E1; [|done].
  destruct (GreaterEqThan 8 (sessionCount priv) _) as [c2|] eqn:E2; [|done].
  destruct (GreaterEqThan 8 (consistencyDays priv) _) as [c3|] eqn:E3; [|done].
  destruct (GreaterEqThan 8 (moodImprovementScore priv) _) as [c4|] eqn:E4; [|done].
  exists c1, c2, c3, c4. repeat split.
  injection H as <-.
  apply AND_gates; eapply GreaterEqThan_8_bit; eassumption.
Qed.

(** The four public minimum thresholds, as numbers the comparator can
    take: non-negative and at least 512 below the field modulus. *)
Definition thresholds_representable (pub : WellnessPublic) : Prop :=
  0 ≤ minWellnessThreshold pub ≤ p - 512
  ∧ 0 ≤ minSessionRequirement pub ≤ p - 512
  ∧ 0 ≤ minConsistencyDays pub ≤ p - 512
  ∧ 0 ≤ minImprovementPercent pub ≤ p - 512.

(** [pub'] has every threshold at least as high as [pub]: one threshold
    raised, or several at once. *)
Definition thresholds_raised (pub pub' : WellnessPublic) : Prop :=
  minWellnessThreshold pub ≤ minWellnessThreshold pub'
  ∧ minSessionRequirement pub ≤ minSessionRequirement pub'
  ∧ minConsistencyDays pub ≤ minConsistencyDays pub'
  ∧ minImprovementPercent pub ≤ minImprovementPercent pub'.

Lemma wellness_achieved_raise priv pub pub' :
  thresholds_representable pub → thresholds_representable pub' →
  thresholds_raised pub pub' →
  wellness_achieved priv pub = Some 0 →
  wellness_achieved priv pub' ≠ Some 1.
Proof.
  intros (Hw & Hs & Hc & Hi) (Hw' & Hs' & Hc' & Hi') (Rw & Rs & Rc & Ri) H0 H1.
  apply wellness_achieved_inv in H0 as (c1 & c2 & c3 & c4 & E1 & E2 & E3 & E4 & Hr).
  apply wellness_achieved_inv in H1 as (d1 & d2 & d3 & d4 & F1 & F2 & F3 & F4 & Hr').
  assert (d1 = 1 ∧ d2 = 1 ∧ d3 = 1 ∧ d4 = 1) as (-> & -> & -> & ->).
  { destruct (Z.eqb_spec d1 1), (Z.eqb_spec d2 1),
      (Z.eqb_spec d3 1), (Z.eqb_spec d4 1); done. }
  assert (c1 = 0 ∨ c2 = 0 ∨ c3 = 0 ∨ c4 = 0) as Hzero.
  { pose proof (GreaterEqThan_8_bit _ _ _ E1). pose proof (GreaterEqThan_8_bit _ _ _ E2).
    pose proof (GreaterEqThan_8_bit _ _ _ E3). pose proof (GreaterEqThan_8_bit _ _ _ E4).
    destruct (Z.eqb_spec c1 1), (Z.eqb_spec c2 1),
      (Z.eqb_spec c3 1), (Z.eqb_spec c4 1); try done; lia. }
  destruct Hzero as [-> | [-> | [-> | ->]]].
  - exact (GreaterEqThan_8_raise _ _ _ (proj1 Hw) Rw (proj2 Hw') E1 F1).
  - exact (GreaterEqThan_8_raise _ _ _ (proj1 Hs) Rs (proj2 Hs') E2 F2).
  - exact (GreaterEqThan_8_raise _ _ _ (proj1 Hc) Rc (proj2 Hc') E3 F3).
  - exact (GreaterEqThan_8_raise _ _ _ (proj1 Hi) Ri (proj2 Hi') E4 F4).
Qed.

Lemma wellness_achieved_bit priv pub r :
  wellness_achieved priv pub = Some r → r = 0 ∨ r = 1.
Proof.
  intros H. apply wellness_achieved_inv in H as (c1 & c2 & c3 & c4 & _ & _ & _ & _ & ->).
  case_match; auto.
Qed.

(** C4.  Fix the private inputs of the wellness-milestone circuit and
    raise public minimum thresholds (any one of the four, or several).
    When the circuit has an output at both settings, an achieved output
    of 0 stays 0, and the only change the output can make is from 1 to 0.
    The private inputs are arbitrary field elements; the thresholds are
    non-negative and stay at least 512 below the field modulus. *)
Theorem milestone_threshold_monotone
    (Poseidon : list Z → Z) (priv : WellnessPrivate)
    (pub pub' : WellnessPublic) (r r' : Z) :
  thresholds_representable pub → thresholds_representable pub' →
  thresholds_raised pub pub' →
  milestoneAchieved <$> WellnessMilestoneProof Poseidon priv pub = Some r →
  milestoneAchieved <$> WellnessMilestoneProof Poseidon priv pub' = Some r' →
  (r = 0 → r' = 0) ∧ (r ≠ r' → r = 1 ∧ r' = 0).
Proof.
  rewrite !WellnessMilestoneProof_achieved. intros Hp Hp' Hr H H'.
  pose proof (wellness_achieved_bit _ _ _ H) as Hb.
  pose proof (wellness_achieved_bit _ _ _ H') as Hb'.
  assert (r = 0 → r' = 0) as Hmono.
  { intros ->. destruct Hb' as [-> | ->]; [done|].
    exfalso. exact (wellness_achieved_raise _ _ _ Hp Hp' Hr H H'). }
  split; [done|]. intros Hne. destruct Hb as [-> | ->]; [|lia].
  specialize (Hmono eq_refl). lia.
Qed.

Definition scenarioA_private (score : Z) (key : Z) (ts moods : list Z)
  : WellnessPrivate :=
  {| mentalHealthScore := score; sessionCount := 12; consistencyDays := 40;
     moodImprovementScore := 30; userPrivateKey := key;
     sessionTimestamps := ts; dailyMoodScores := moods |}.

Definition scenarioA_public (minScore : Z) (type time : Z) : WellnessPublic :=
  {| minWellnessThreshold := minScore; minSessionRequirement := 10;
     minConsistencyDays := 30; minImprovementPercent := 20;
     milestoneType := type; verificationTimestamp := time |}.

Lemma scenarioA_representable minScore type time :
  0 ≤ minScore < 256 → thresholds_representable (scenarioA_public minScore type time).
Proof. unfold thresholds_representable, p. simpl. lia. Qed.

Lemma milestone_threshold_monotone_witness :
  thresholds_representable (scenarioA_public 80 1 0)
  ∧ thresholds_representable (scenarioA_public 90 1 0)
  ∧ thresholds_raised (scenarioA_public 80 1 0) (scenarioA_public 90 1 0)
  ∧ ((1 = 0 → 0 = 0) ∧ (1 ≠ 0 → 1 = 1 ∧ 0 = 0)).
Proof.
  assert (thresholds_representable (scenarioA_public 80 1 0)) as H80
    by (unfold thresholds_representable, p; simpl; lia).
  assert (thresholds_representable (scenarioA_public 90 1 0)) as H90
    by (unfold thresholds_representable, p; simpl; lia).
  assert (thresholds_raised (scenarioA_public 80 1 0) (scenarioA_public 90 1 0))
    as Hr by (unfold thresholds_raised; simpl; lia).
  split; [exact H80 | split; [exact H90 | split; [exact Hr |]]].
  apply (milestone_threshold_monotone (fun _ => 0)
             (scenarioA_private 85 7 [] [])
             (scenarioA_public 80 1 0) (scenarioA_public 90 1 0) 1 0 H80 H90 Hr);
    vm_compute; reflexivity.
Defined.

(** C5.  On 8-bit inputs the achieved output is the AND of the four
    comparisons score ≥ minScore, sessions ≥ minSessions,
    consistency-days ≥ minConsistency and improvement ≥ minImprovement.
    With score 85, sessions 12, consistency-days 40 and improvement 30
    against the thresholds (80, 10, 30, 20) the output is 1, and with the
    score lowered to 70 it is 0, whatever the other inputs are. *)
Theorem milestone_is_and_of_comparisons :
  (∀ (Poseidon : list Z → Z) (priv : WellnessPrivate) (pub : WellnessPublic),
     0 ≤ mentalHealthScore priv < 256 → 0 ≤ minWellnessThreshold pub < 256 →
     0 ≤ sessionCount priv < 256 → 0 ≤ minSessionRequirement pub < 256 →
     0 ≤ consistencyDays priv < 256 → 0 ≤ minConsistencyDays pub < 256 →
     0 ≤ moodImprovementScore priv < 256 → 0 ≤ minImprovementPercent pub < 256 →
     milestoneAchieved <$> WellnessMilestoneProof Poseidon priv pub
     = Some (if (minWellnessThreshold pub <=? mentalHealthScore priv)
                && (minSessionRequirement pub <=? sessionCount priv)
                && (minConsistencyDays pub <=? consistencyDays priv)
                && (minImprovementPercent pub <=? moodImprovementScore priv)
             then 1 else 0))
  ∧ (∀ Poseidon key ts moods type time,
       milestoneAchieved <$>
         WellnessMilestoneProof Poseidon (scenarioA_private 85 key ts moods)
                                (scenarioA_public 80 type time) = Some 1)
  ∧ (∀ Poseidon key ts moods type time,
       milestoneAchieved <$>
         WellnessMilestoneProof Poseidon (scenarioA_private 70 key ts moods)
                                (scenarioA_public 80 type time) = Some 0).
Proof.
  split; [|split].
  - intros Poseidon priv pub Ha1 Hb1 Ha2 Hb2 Ha3 Hb3 Ha4 Hb4.
    rewrite WellnessMilestoneProof_achieved. unfold wellness_achieved.
    rewrite !GreaterEqThan_8_range by assumption. cbn [mbind option_bind].
    f_equal. rewrite AND_gates by (case_match; auto).
    destruct (minWellnessThreshold pub <=? mentalHealthScore priv),
      (minSessionRequirement pub <=? sessionCount priv),
      (minConsistencyDays pub <=? consistencyDays priv),
      (minImprovementPercent pub <=? moodImprovementScore priv); reflexivity.
  - intros. rewrite WellnessMilestoneProof_achieved. vm_compute. reflexivity.
  - intros. rewrite WellnessMilestoneProof_achieved. vm_compute. reflexivity.
Qed.

Lemma milestone_is_and_of_comparisons_witness :
  milestoneAchieved <$>
    WellnessMilestoneProof (fun _ => 0) (scenarioA_private 85 7 [] [])
                           (scenarioA_public 90 1 0) = Some 0.
Proof.
  apply (proj1 milestone_is_and_of_comparisons (fun _ => 0)
           (scenarioA_private 85 7 [] []) (scenarioA_public 90 1 0));
    simpl; lia.
Defined.

(** *** The support-quality calculator *)

Lemma fold_left_agree {A B} (f g : A → B → A) (l : list B) (a : A) :
  (∀ a x, In x l → f a x = g a x) → fold_left f l a = fold_left g l a.
Proof.
  revert a. induction l as [|x l IH]; intros a H; [reflexivity|].
  cbn [fold_left]. rewrite H by (left; reflexivity).
  apply IH. intros a' y Hy. apply H. right. exact Hy.
Qed.

(** Reading a list through its indices is reading the list. *)
Lemma fold_left_seq_nth {A} (g : A → Z → A) (l : list Z) (acc : A) :
  fold_left (fun acc i => g acc (nth i l 0)) (seq 0 (length l)) acc
  = fold_left g l acc.
Proof.
  induction l as [|x l IH] using rev_ind; [reflexivity|].
  rewrite length_app, Nat.add_comm. cbn [length Nat.add].
  rewrite seq_S, !fold_left_app. cbn [fold_left Nat.add].
  rewrite nth_middle. f_equal. rewrite <- IH.
  apply fold_left_agree. intros a i Hi%in_seq.
  by rewrite app_nth1 by lia.
Qed.

(** The entries the calculator counts. *)
Definition positive_entries (inputs : list Z) : list Z :=
  filter (fun x => fgt x 0 = true) inputs.

(** One round of the calculator's loop, on the entry itself. *)
Definition quality_step (acc : Z * Z) (x : Z) : Z * Z :=
  let '(totalScore, validInteractions) := acc in
  if fgt x 0
  then (fadd totalScore x, fadd validInteractions 1)
  else (totalScore, validInteractions).

Lemma quality_step_fold inputs s n :
  fold_left quality_step inputs (Fr s, Fr n)
  = (Fr (s + sum_list (positive_entries inputs)),
     Fr (n + Z.of_nat (length (positive_entries inputs)))).
Proof.
  revert s n. induction inputs as [|x l IH]; intros s n.
  - cbn. by rewrite !Z.add_0_r.
  - cbn [fold_left quality_step]. unfold positive_entries. rewrite filter_cons.
    destruct (fgt x 0) eqn:E.
    + rewrite decide_True by done.
      unfold fadd, Fr at 1 2. rewrite !Zplus_mod_idemp_l.
      fold (Fr (s + x)). fold (Fr (n + 1)). rewrite IH.
      cbn [length]. unfold positive_entries, sum_list. cbn [foldr].
      f_equal; f_equal; lia.
    + rewrite decide_False by done. apply IH.
Qed.

Lemma quality_loop_filter inputs :
  quality_loop (length inputs) inputs
  = (Fr (sum_list (positive_entries inputs)),
     Fr (Z.of_nat (length (positive_entries inputs)))).
Proof.
  transitivity (fold_left quality_step inputs (Fr 0, Fr 0)).
  - unfold quality_loop. change (Fr 0) with 0.
    rewrite <- (fold_left_seq_nth quality_step).
    apply fold_left_agree. intros [t v] i _. reflexivity.
  - rewrite quality_step_fold. by rewrite !Z.add_0_l.
Qed.

(** The calculator's divisor is a count between 1 and 20 whenever some
    entry is positive, and [finv] inverts every such count. *)
Lemma finv_count_all :
  forallb (fun k => fmul (finv (k + 1)) (k + 1) =? 1) (map Z.of_nat (seq 0 20))
  = true.
Proof. vm_compute. reflexivity. Qed.

Lemma finv_count k : 1 ≤ k ≤ 20 → fmul (finv k) k = 1.
Proof.
  intros Hk.
  pose proof (forallb_below _ 20 finv_count_all (k - 1)) as H.
  cbv beta in H. replace (k - 1 + 1) with k in H by lia.
  apply Z.eqb_eq, H. lia.
Qed.

Lemma fdiv_eq a b : fdiv a b = fmul a (finv b).
Proof. reflexivity. Qed.

Lemma fdiv_mul_cancel a k : 1 ≤ k ≤ 20 → fmul (fdiv a k) k = Fr a.
Proof.
  intros Hk. pose proof (finv_count k Hk) as Hinv.
  rewrite fdiv_eq. revert Hinv. generalize (finv k). intros i Hinv.
  unfold fmul, Fr in *.
  rewrite Zmult_mod_idemp_l, <- Z.mul_assoc, <- Zmult_mod_idemp_r, Hinv.
  by rewrite Z.mul_1_r.
Qed.

Lemma fdiv_exact m k : 1 ≤ k ≤ 20 → fdiv (Fr (m * k)) k = Fr m.
Proof.
  intros Hk. pose proof (finv_count k Hk) as Hinv.
  rewrite fdiv_eq. revert Hinv. generalize (finv k). intros i Hinv.
  unfold fmul, Fr in *.
  rewrite Zmult_mod_idemp_l, <- Z.mul_assoc, (Z.mul_comm k), <- Zmult_mod_idemp_r, Hinv.
  by rewrite Z.mul_1_r.
Qed.

Lemma positive_entries_count inputs :
  length inputs = 20%nat → positive_entries inputs ≠ [] →
  1 ≤ Z.of_nat (length (positive_entries inputs)) ≤ 20.
Proof.
  intros Hlen Hne. pose proof (length_filter (fun x => fgt x 0 = true) inputs) as Hle.
  unfold positive_entries in *.
  destruct (filter _ inputs); [done|]. cbn [length] in *. lia.
Qed.

(** The first half of C8, which the code does satisfy.  For a 20-entry
    history with at least one strictly positive entry the quality score
    is the sum of the strictly positive entries divided, in the field,
    by their count: multiplying it back by the count gives the sum, and
    when the count divides the sum it is the integer quotient. *)
Lemma quality_is_average_of_positive_entries (inputs : list Z) :
  length inputs = 20%nat →
  positive_entries inputs ≠ [] →
  let total := sum_list (positive_entries inputs) in
  let count := Z.of_nat (length (positive_entries inputs)) in
  SupportQualityCalculator 20 inputs = fdiv (Fr total) count
  ∧ fmul (SupportQualityCalculator 20 inputs) count = Fr total
  ∧ ∀ m, 0 ≤ m < p → total = m * count →
         SupportQualityCalculator 20 inputs = m.
Proof.
  intros Hlen Hne total count.
  pose proof (positive_entries_count inputs Hlen Hne) as Hk. fold count in Hk.
  assert (SupportQualityCalculator 20 inputs = fdiv (Fr total) count) as Hq.
  { unfold SupportQualityCalculator. rewrite <- Hlen, quality_loop_filter.
    fold total count. f_equal. unfold Fr. apply Z.mod_small. unfold p. lia. }
  rewrite Hq. split; [reflexivity|]. split.
  - rewrite fdiv_mul_cancel by done. unfold Fr. by rewrite Zmod_mod.
  - intros m Hm ->. rewrite fdiv_exact by done. by apply Z.mod_small.
Qed.

(** When no entry is strictly positive the loop leaves both accumulators
    at zero and the template divides zero by zero. *)
Lemma quality_without_positive_entries (inputs : list Z) :
  length inputs = 20%nat →
  positive_entries inputs = [] →
  quality_loop 20 inputs = (0, 0) ∧ SupportQualityCalculator 20 inputs = 0.
Proof.
  intros Hlen Hnone.
  assert (quality_loop 20 inputs = (0, 0)) as Hloop.
  { rewrite <- Hlen, quality_loop_filter, Hnone. reflexivity. }
  split; [exact Hloop|].
  unfold SupportQualityCalculator. rewrite Hloop. reflexivity.
Qed.

Definition idle_supporter : PeerPrivate :=
  {| supporterExperience := 5; supporterWellnessScore := 80;
     supportHistory := repeat 0 20; supporterPrivateKey := 7 |}.

Definition lenient_requirements : PeerPublic :=
  {| minExperienceRequired := 1; minWellnessForSupport := 50;
     supportQualityThreshold := 0 |}.

(** C8, second half, at an all-zero history.  The calculator does not
    fail: its divisor is 0, the division goes through, and the
    peer-support circuit has a witness with quality score 0, which even
    marks the supporter eligible when the quality threshold is 0. *)
Theorem quality_division_by_zero_is_not_rejected :
  quality_loop 20 (repeat 0 20) = (0, 0)
  ∧ SupportQualityCalculator 20 (repeat 0 20) = 0
  ∧ ∀ Poseidon : list Z → Z,
      PeerSupportVerification Poseidon idle_supporter lenient_requirements
      = Some {| canProvideSupport := 1;
                supportQualityScore := 0;
                anonymousCredential := Poseidon [5; 0; 80; 7] |}.
Proof.
  split; [|split].
  - vm_compute. reflexivity.
  - vm_compute. reflexivity.
  - intros Poseidon. vm_compute. reflexivity.
Qed.

End CircomSpec.

(** ** Properties of the proof service *)

Module ZKServiceSpec.

Import Js ZKService.
Local Open Scope string_scope.

(** *** Sample runtimes and a loaded service *)

Definition sample_proof : SnarkProof :=
  {| pi_a := ["11"; "12"; "1"];
     pi_b := [["21"; "22"]; ["23"; "24"]; ["1"; "0"]];
     pi_c := ["31"; "32"; "1"] |}.

(** A prover that answers every request with the same proof and public
    signals, next to a verifier that accepts ([accepts = true]) or
    rejects every proof: the latter is what a verification key that does
    not belong to the proving key gives. *)
Definition sample_runtime (accepts : bool) : Runtime :=
  {| groth16_fullProve := fun _ _ _ => inr (sample_proof, ["1"; "40"; "777"]);
     groth16_verify := fun _ _ _ => inr accepts;
     JSON_stringify := fun circuitName _ _ => circuitName;
     sha256_hex := fun data => data |}.

Definition loaded_service : Service :=
  {| circuits :=
       {[ "wellness_milestone" := {| wasm := "wellness.wasm"; zkey := "wellness.zkey" |};
          "peer_support" := {| wasm := "peer.wasm"; zkey := "peer.zkey" |} ]};
     verificationKeys :=
       {[ "wellness_milestone" := {| vkey_json := "wellness.vkey" |};
          "peer_support" := {| vkey_json := "peer.vkey" |} ]};
     proofCache := ∅ |}.

(** A call that takes 300 ms: the cache is asked, the proof is stamped
    250 ms later and stored after another 50 ms. *)
Definition sample_times : Times :=
  {| asked := 1700000000000; stamped := 1700000000250; stored := 1700000000300 |}.

(** *** verifyProof *)

Lemma verifyProof_total R S circuitName proof publicSignals :
  ∃ b, verifyProof R S circuitName proof publicSignals = inr b.
Proof.
  unfold verifyProof, try_catch, throw.
  destruct (verificationKeys S !! circuitName) as [vKey|]; [|by eexists].
  destruct (groth16_verify R vKey publicSignals proof); by eexists.
Qed.

Lemma verifyProof_true R S circuitName proof publicSignals :
  verifyProof R S circuitName proof publicSignals = inr true →
  ∃ vKey, verificationKeys S !! circuitName = Some vKey
          ∧ groth16_verify R vKey publicSignals proof = inr true.
Proof.
  unfold verifyProof, try_catch, throw.
  destruct (verificationKeys S !! circuitName) as [vKey|]; [|done].
  destruct (groth16_verify R vKey publicSignals proof) as [|b] eqn:E; [done|].
  intros [= ->]. by exists vKey.
Qed.

(** C6, as the code has it.  [verifyProof] returns a boolean for every
    circuit id, known or not, and never throws.  It returns [false] for
    a proof that the verifier rejects, [false] when the verifier itself
    throws, and [false] as well when no verification key is registered
    under the circuit id: the error raised for the missing key is caught
    by the function's own [catch]. *)
Theorem verifyProof_never_throws
    (R : Runtime) (S : Service) (circuitName : string)
    (proof : SnarkProof) (publicSignals : list string) :
  ∃ b : bool,
    verifyProof R S circuitName proof publicSignals = inr b
    ∧ (verificationKeys S !! circuitName = None → b = false)
    ∧ (∀ vKey, verificationKeys S !! circuitName = Some vKey →
               groth16_verify R vKey publicSignals proof ≠ inr true →
               b = false).
Proof.
  unfold verifyProof, try_catch, throw.
  destruct (verificationKeys S !! circuitName) as [vKey|] eqn:Ek.
  - destruct (groth16_verify R vKey publicSignals proof) as [e|[|]] eqn:E.
    + exists false. split; [done|]. split; [done|]. done.
    + exists true. split; [done|]. split; [done|].
      intros v [= <-] Hne. by destruct Hne.
    + exists false. split; [done|]. split; [done|]. done.
  - exists false. split; [done|]. split; [done|]. done.
Qed.

(** C6 as stated fails: with an unknown circuit id the call does not
    fail, it returns [false]. *)
Lemma verifyProof_unknown_circuit_returns_false :
  verificationKeys loaded_service !! "mood_privacy" = None
  ∧ verifyProof (sample_runtime true) loaded_service "mood_privacy"
                sample_proof ["1"] = inr false
  ∧ ¬ ∃ e, verifyProof (sample_runtime true) loaded_service "mood_privacy"
                       sample_proof ["1"] = inl e.
Proof.
  assert (verifyProof (sample_runtime true) loaded_service "mood_privacy"
                      sample_proof ["1"] = inr false) as H
    by (vm_compute; reflexivity).
  split; [vm_compute; reflexivity|]. split; [exact H|].
  intros [e He]. rewrite H in He. discriminate.
Qed.

(** *** Proof generation *)

Lemma snark_proof_eta (proof : SnarkProof) :
  {| pi_a := pi_a proof; pi_b := pi_b proof; pi_c := pi_c proof |} = proof.
Proof. by destruct proof. Qed.

(** The three ways [generateWellnessMilestoneProof] can end: with the
    cached proof, with a fresh proof and its entry written to the cache,
    or with a wrapped error. *)
Lemma generateWellnessMilestoneProof_cases R t S privateInputs publicInputs :
  let key := generateCacheKey R "wellness_milestone" privateInputs publicInputs in
  let promise := generateWellnessMilestoneProof R t S privateInputs publicInputs in
  (∃ cached, ProofCache_get (proofCache S) key (asked t) = Some cached
             ∧ promise = (inr cached, []))
  ∨ (∃ zkProof, ProofCache_get (proofCache S) key (asked t) = None
                ∧ WellnessZKProof.timestamp zkProof = stamped t
                ∧ promise
                  = (inr zkProof,
                     [ {| key := key; value := zkProof; ttlSeconds := 3600;
                          written := stored t |} ]))
  ∨ (∃ cause, ProofCache_get (proofCache S) key (asked t) = None
              ∧ promise
                = (inl {| message := "Failed to generate wellness milestone proof: "
                                     +:+ message cause |}, [])).
Proof.
  cbv zeta. unfold generateWellnessMilestoneProof.
  destruct (ProofCache_get _ _ _) as [cached|]; [left; by exists cached|].
  match goal with |- context [match ?a with inl _ => _ | inr _ => _ end] =>
    destruct a as [cause|zkProof] eqn:Ha end.
  - right. right. by exists cause.
  - right. left. exists zkProof. split; [done|]. split; [|done].
    unfold bind, throw in Ha.
    repeat match type of Ha with
           | match ?a with _ => _ end = _ => destruct a; try discriminate
           | (if ?a then _ else _) = _ => destruct a; try discriminate
           end.
    by injection Ha as <-.
Qed.

(** The wellness path: a proof generated on a cache miss has passed
    [verifyProof] against the verification key of its circuit. *)
Lemma wellness_proof_is_self_verified R t S privateInputs publicInputs
    zkProof writes :
  ProofCache_get (proofCache S)
    (generateCacheKey R "wellness_milestone" privateInputs publicInputs)
    (asked t) = None →
  generateWellnessMilestoneProof R t S privateInputs publicInputs
  = (inr zkProof, writes) →
  verifyProof R S "wellness_milestone" (WellnessZKProof.proof zkProof)
              (WellnessZKProof.publicSignals zkProof) = inr true
  ∧ WellnessZKProof.isValid zkProof = true.
Proof.
  intros Hmiss. unfold generateWellnessMilestoneProof. rewrite Hmiss.
  unfold bind, throw.
  destruct (circuit_of S "wellness_milestone") as [e|circuit]; [done|].
  destruct (groth16_fullProve R _ _ _) as [e|[proof publicSignals]]; [done|].
  destruct (verifyProof R S "wellness_milestone" proof publicSignals)
    as [e|[|]] eqn:Hv; [done| |done].
  cbn. intros [= <- <-]. cbn. by rewrite snark_proof_eta.
Qed.

(** The wellness path: when the fresh proof fails its own verification
    the call is rejected and nothing is written to the cache. *)
Lemma wellness_proof_aborts_when_invalid R t S privateInputs publicInputs
    circuit proof publicSignals :
  ProofCache_get (proofCache S)
    (generateCacheKey R "wellness_milestone" privateInputs publicInputs)
    (asked t) = None →
  circuits S !! "wellness_milestone" = Some circuit →
  groth16_fullProve R (wellnessCircuitInputs privateInputs publicInputs)
                    (wasm circuit) (zkey circuit) = inr (proof, publicSignals) →
  verifyProof R S "wellness_milestone" proof publicSignals = inr false →
  generateWellnessMilestoneProof R t S privateInputs publicInputs
  = (inl {| message := "Failed to generate wellness milestone proof: "
                       +:+ "Generated proof is invalid" |}, []).
Proof.
  intros Hmiss Hc Hp Hv. unfold generateWellnessMilestoneProof.
  rewrite Hmiss. unfold circuit_of. rewrite Hc. cbn [bind].
  rewrite Hp. cbn [bind]. rewrite Hv. reflexivity.
Qed.

(** C1 at a failing input: a verifier that rejects the fresh proof.  The
    wellness path aborts, but the peer-support path returns the proof to
    the caller with [isValid = false]. *)
Theorem peer_support_returns_unverified_proof :
  verifyProof (sample_runtime false) loaded_service "peer_support"
              sample_proof ["1"; "40"; "777"] = inr false
  ∧ generatePeerSupportProof (sample_runtime false) sample_times loaded_service [] []
    = inr {| PeerSupportZKProof.proof := sample_proof;
             PeerSupportZKProof.publicSignals := ["1"; "40"; "777"];
             PeerSupportZKProof.canProvideSupport := true;
             PeerSupportZKProof.supportQualityScore := Finite 40;
             PeerSupportZKProof.anonymousCredential := Some "777";
             PeerSupportZKProof.isValid := false;
             PeerSupportZKProof.timestamp := 1700000000250 |}
  ∧ await loaded_service
      (generateWellnessMilestoneProof (sample_runtime false) sample_times
         loaded_service [] [])
    = (inl {| message := "Failed to generate wellness milestone proof: Generated proof is invalid" |},
       loaded_service).
Proof.
  split; [|split]; vm_compute; reflexivity.
Qed.


(** *** Batch generation *)

(** Two service states with the same circuits and keys: they can differ
    in the proof cache only. *)
Definition same_setup (S S' : Service) : Prop :=
  circuits S' = circuits S
  ∧ verificationKeys S' = verificationKeys S.

Lemma same_setup_refl S : same_setup S S.
Proof. by split. Qed.

Lemma same_setup_trans S1 S2 S3 :
  same_setup S1 S2 → same_setup S2 S3 → same_setup S1 S3.
Proof.
  intros (H1 & H2) (H1' & H2'). split; congruence.
Qed.

Lemma writes_setup writes S : same_setup S (fold_left write writes S).
Proof.
  revert S. induction writes as [|w writes IH]; intros S; [apply same_setup_refl|].
  cbn [fold_left]. eapply same_setup_trans; [|apply IH]. by split.
Qed.

Lemma settle_setup {A} schedule (promises : list (Promise A)) S :
  same_setup S (settle schedule promises S).
Proof.
  unfold settle. revert S.
  induction schedule as [|i schedule IH]; intros S; [apply same_setup_refl|].
  cbn [fold_left]. eapply same_setup_trans; [|apply IH].
  destruct (promises !! i); [apply writes_setup | apply same_setup_refl].
Qed.

(** What one request's result record is, given the outcome of its own
    dispatch: the request's correlation id, and either the proof or the
    message of the error. *)
Definition result_of (request : BatchProofRequest.t) (outcome : Result ZKProof)
  : BatchProofResult.t :=
  match outcome with
  | inr proof =>
      {| BatchProofResult.requestId := BatchProofRequest.requestId request;
         BatchProofResult.success := true;
         BatchProofResult.proof := Some proof;
         BatchProofResult.error := None |}
  | inl error =>
      {| BatchProofResult.requestId := BatchProofRequest.requestId request;
         BatchProofResult.success := false;
         BatchProofResult.proof := None;
         BatchProofResult.error := Some (message error) |}
  end.

Lemma processRequest_result R t S request :
  processRequest R t S request
  = (inr (result_of request (dispatch R t S request).1), (dispatch R t S request).2).
Proof.
  unfold processRequest. destruct (dispatch R t S request) as [[e|proof] writes];
    reflexivity.
Qed.

Lemma Promise_all_fulfilled {A} (values : list A) :
  Promise_all (inr <$> values) = inr values.
Proof.
  induction values as [|a values IH]; [reflexivity|].
  cbn. rewrite IH. reflexivity.
Qed.

Lemma result_of_requestId request outcome :
  BatchProofResult.requestId (result_of request outcome)
  = BatchProofRequest.requestId request.
Proof. by destruct outcome. Qed.

(** The results of a batch: at every index, the record of the outcome
    that the request at that index has when it is dispatched on the
    service as the batch found it. *)
Definition own_results (R : Runtime) (times : nat → Times) (S : Service)
    (proofRequests : list BatchProofRequest.t) : list BatchProofResult.t :=
  imap (fun i request => result_of request (dispatch R (times i) S request).1)
       proofRequests.

Lemma proofPromises_outcomes R times S proofRequests :
  fst <$> proofPromises R times S proofRequests
  = inr <$> own_results R times S proofRequests.
Proof.
  unfold proofPromises, own_results. revert times.
  induction proofRequests as [|request rest IH]; intros times; [reflexivity|].
  rewrite !imap_cons, !fmap_cons, processRequest_result. cbn [fst].
  f_equal. apply (IH (times ∘ Datatypes.S)).
Qed.

Lemma generateBatchProofs_results R times schedule S proofRequests :
  generateBatchProofs R times schedule S proofRequests
  = (inr (own_results R times S proofRequests),
     settle schedule (proofPromises R times S proofRequests) S).
Proof.
  unfold generateBatchProofs.
  by rewrite proofPromises_outcomes, Promise_all_fulfilled.
Qed.

Lemma own_results_lookup R times S proofRequests i :
  own_results R times S proofRequests !! i
  = (λ request, result_of request (dispatch R (times i) S request).1)
    <$> proofRequests !! i.
Proof. unfold own_results. by rewrite list_lookup_imap. Qed.

Lemma own_results_requestId R times S proofRequests :
  BatchProofResult.requestId <$> own_results R times S proofRequests
  = BatchProofRequest.requestId <$> proofRequests.
Proof.
  unfold own_results. revert times.
  induction proofRequests as [|request rest IH]; intros times; [reflexivity|].
  rewrite imap_cons, !fmap_cons, result_of_requestId. f_equal.
  apply (IH (times ∘ Datatypes.S)).
Qed.

(** The [switch]: a request goes to the generation function that its
    type names, and an unknown type is an error. *)
Lemma dispatch_by_type R t S request :
  (dispatch R t S request).1
  = if bool_decide (BatchProofRequest.type request = "wellness_milestone") then
      do proof <- (generateWellnessMilestoneProof R t S
                     (BatchProofRequest.privateInputs request)
                     (BatchProofRequest.publicInputs request)).1;
      inr (WellnessProof proof)
    else if bool_decide (BatchProofRequest.type request = "peer_support") then
      do proof <- generatePeerSupportProof R t S
                    (BatchProofRequest.privateInputs request)
                    (BatchProofRequest.publicInputs request);
      inr (PeerSupportProof proof)
    else throw ("Unknown proof type: " +:+ BatchProofRequest.type request).
Proof.
  unfold dispatch. repeat case_bool_decide; try reflexivity.
  by destruct (generateWellnessMilestoneProof R t S _ _).
Qed.

(** C10.  For every list of batch proof requests, whatever the times of
    the requests and the order in which they settle,
    [generateBatchProofs] returns a list of results and is never
    rejected as a whole.  The results are one per request, in order,
    each with the correlation id of its request.  The result at an index
    is the outcome of that request's own dispatch on the service as the
    batch found it, that is, of the request awaited alone: the proof
    under [success = true] when its dispatch returns one, and the
    message of the error under [success = false] when its dispatch
    throws.  That dispatch goes by the type of the request alone: to
    [generateWellnessMilestoneProof], to [generatePeerSupportProof], or
    to the error for an unknown type.  The result does not depend on the
    other requests: in any other batch on the same service that has the
    same request with the same times at that index, the result at that
    index is the same, whether the siblings succeed or fail.  The batch
    leaves the circuits and keys of the service as they are. *)
Theorem generateBatchProofs_outcomes
    (R : Runtime) (times : nat → Times) (schedule : list nat) (S : Service)
    (proofRequests : list BatchProofRequest.t) :
  ∃ results S',
    generateBatchProofs R times schedule S proofRequests = (inr results, S')
    ∧ length results = length proofRequests
    ∧ BatchProofResult.requestId <$> results
      = BatchProofRequest.requestId <$> proofRequests
    ∧ (∀ i request proof,
         proofRequests !! i = Some request →
         (await S (dispatch R (times i) S request)).1 = inr proof →
         results !! i
         = Some {| BatchProofResult.requestId := BatchProofRequest.requestId request;
                   BatchProofResult.success := true;
                   BatchProofResult.proof := Some proof;
                   BatchProofResult.error := None |})
    ∧ (∀ i request error,
         proofRequests !! i = Some request →
         (await S (dispatch R (times i) S request)).1 = inl error →
         results !! i
         = Some {| BatchProofResult.requestId := BatchProofRequest.requestId request;
                   BatchProofResult.success := false;
                   BatchProofResult.proof := None;
                   BatchProofResult.error := Some (message error) |})
    ∧ (∀ i request,
         proofRequests !! i = Some request →
         let own := (await S (dispatch R (times i) S request)).1 in
         let privateInputs := BatchProofRequest.privateInputs request in
         let publicInputs := BatchProofRequest.publicInputs request in
         (BatchProofRequest.type request = "wellness_milestone" →
          own = do proof <- (await S (generateWellnessMilestoneProof R (times i) S
                                        privateInputs publicInputs)).1;
                inr (WellnessProof proof))
         ∧ (BatchProofRequest.type request = "peer_support" →
            own = do proof <- generatePeerSupportProof R (times i) S
                                privateInputs publicInputs;
                  inr (PeerSupportProof proof))
         ∧ (BatchProofRequest.type request ≠ "wellness_milestone" →
            BatchProofRequest.type request ≠ "peer_support" →
            own = throw ("Unknown proof type: " +:+ BatchProofRequest.type request)))
    ∧ (∀ times' schedule' proofRequests' results' S'' i request,
         generateBatchProofs R times' schedule' S proofRequests'
         = (inr results', S'') →
         proofRequests !! i = Some request →
         proofRequests' !! i = Some request →
         times' i = times i →
         results' !! i = results !! i)
    ∧ same_setup S S'.
Proof.
  rewrite generateBatchProofs_results.
  eexists _, _. split; [reflexivity|].
  split; [unfold own_results; by rewrite length_imap|].
  split; [apply own_results_requestId|].
  split; [|split; [|split; [|split]]].
  - intros i request proof Hi Hout. cbn [await fst] in Hout.
    rewrite own_results_lookup, Hi. cbn. by rewrite Hout.
  - intros i request error Hi Hout. cbn [await fst] in Hout.
    rewrite own_results_lookup, Hi. cbn. by rewrite Hout.
  - intros i request _. cbv zeta. cbn [await fst].
    rewrite dispatch_by_type. split; [|split].
    + intros Hty. by rewrite bool_decide_eq_true_2.
    + intros Hty. rewrite bool_decide_eq_false_2 by (rewrite Hty; discriminate).
      by rewrite bool_decide_eq_true_2.
    + intros Hw Hp. by rewrite !bool_decide_eq_false_2.
  - intros times' schedule' proofRequests' results' S'' i request Hb Hi Hi' Ht.
    rewrite generateBatchProofs_results in Hb. injection Hb as <- _.
    rewrite !own_results_lookup, Hi, Hi'. cbn. by rewrite Ht.
  - apply settle_setup.
Qed.

Definition request_of (id type : string) : BatchProofRequest.t :=
  {| BatchProofRequest.requestId := id;
     BatchProofRequest.type := type;
     BatchProofRequest.privateInputs := [];
     BatchProofRequest.publicInputs := [] |}.

Definition sample_batch : list BatchProofRequest.t :=
  [ request_of "req-1" "mood_privacy";
    request_of "req-2" "peer_support";
    request_of "req-3" "wellness_milestone" ].

(** The request at index [i] is started [i] ms after the batch and
    takes 300 ms. *)
Definition sample_batch_times (i : nat) : Times :=
  {| asked := 1700000000000 + Z.of_nat i;
     stamped := 1700000000250 + Z.of_nat i;
     stored := 1700000000300 + Z.of_nat i |}.

(** A batch in which the first request names no known proof type and
    the third fails self-verification: both failures are recorded with
    their messages, and the second request still succeeds. *)
Example generateBatchProofs_partial_failure :
  match (generateBatchProofs (sample_runtime false) sample_batch_times [0; 1; 2]%nat
           loaded_service sample_batch).1 with
  | inr results =>
      (λ r, (BatchProofResult.requestId r, BatchProofResult.success r,
             BatchProofResult.error r)) <$> results
  | inl _ => []
  end
  = [ ("req-1", false, Some "Unknown proof type: mood_privacy");
      ("req-2", true, None);
      ("req-3", false,
       Some "Failed to generate wellness milestone proof: Generated proof is invalid") ].
Proof. vm_compute. reflexivity. Qed.

Definition proof_timestamp (result : BatchProofResult.t) : option Z :=
  match BatchProofResult.proof result with
  | Some (WellnessProof proof) => Some (WellnessZKProof.timestamp proof)
  | Some (PeerSupportProof proof) => Some (PeerSupportZKProof.timestamp proof)
  | None => None
  end.

Definition batch_timestamps (outcome : Result (list BatchProofResult.t))
  : list (option Z) :=
  match outcome with
  | inr results => map proof_timestamp results
  | inl _ => []
  end.

Definition wellness_timestamp (outcome : Result WellnessZKProof.t) : option Z :=
  match outcome with
  | inr proof => Some (WellnessZKProof.timestamp proof)
  | inl _ => None
  end.

Definition asked_twice : list BatchProofRequest.t :=
  [ request_of "req-1" "wellness_milestone";
    request_of "req-2" "wellness_milestone" ].

(** The same wellness request twice in one batch: neither finds the
    proof of the other in the cache, and each result carries a proof of
    its own, stamped at its own time.  Awaited one after the other, the
    second call is answered from the cache with the proof of the
    first. *)
Example duplicate_requests_in_a_batch :
  batch_timestamps
    (generateBatchProofs (sample_runtime true) sample_batch_times [0; 1]%nat
       loaded_service asked_twice).1
  = [ Some 1700000000250%Z; Some 1700000000251%Z ]
  ∧ let first :=
      await loaded_service
        (generateWellnessMilestoneProof (sample_runtime true)
           (sample_batch_times 0) loaded_service [] []) in
    let second :=
      await first.2
        (generateWellnessMilestoneProof (sample_runtime true)
           (sample_batch_times 1) first.2 [] []) in
    (wellness_timestamp first.1, wellness_timestamp second.1)
    = (Some 1700000000250%Z, Some 1700000000250%Z).
Proof. split; vm_compute; reflexivity. Qed.

End ZKServiceSpec.

(** ** Properties of the analytics engine *)

Module AnalyticsSpec.

Import Js JsFacts Analytics.
Local Open Scope Z_scope.

(** *** Sample keys and inputs *)

(** Two small Paillier key pairs, with [g = n + 1]: [n = 3 * 5] with
    [lambda = lcm 2 4], and [n = 5 * 7] with [lambda = lcm 4 6]; [mu] is
    the inverse of [lambda] modulo [n]. *)
Definition keys15 : PaillierKeys :=
  let pk := {| Paillier.n := 15; Paillier.g := 16;
               Paillier.n_positive := eq_refl |} in
  {| publicKey := pk;
     privateKey := {| Paillier.lambda := 4; Paillier.mu := 4; Paillier.pub := pk |} |}.

Definition keys35 : PaillierKeys :=
  let pk := {| Paillier.n := 35; Paillier.g := 36;
               Paillier.n_positive := eq_refl |} in
  {| publicKey := pk;
     privateKey := {| Paillier.lambda := 12; Paillier.mu := 3; Paillier.pub := pk |} |}.

Definition metrics_of (user : string) (mood sessions engagement wellness crisis : Z)
  : UserMentalHealthMetrics.t :=
  {| UserMentalHealthMetrics.userId := user;
     UserMentalHealthMetrics.moodScore := Finite (inject_Z mood);
     UserMentalHealthMetrics.sessionCount := Finite (inject_Z sessions);
     UserMentalHealthMetrics.engagementTime := Finite (inject_Z engagement);
     UserMentalHealthMetrics.wellnessScore := Finite (inject_Z wellness);
     UserMentalHealthMetrics.crisisEvents := Finite (inject_Z crisis);
     UserMentalHealthMetrics.timestamp := 1700000000000 |}.

Definition draws_of (a b c d e : Z) : Draws :=
  {| rMood := a; rSessions := b; rEngagement := c; rWellness := d; rCrisis := e |}.

(** *** The empty list *)

Lemma decrypt_error sk c e :
  Paillier.decrypt sk c = inl e → message e = "a does not have inverse modulo n".
Proof.
  unfold Paillier.decrypt, Paillier.modPow, Paillier.modInv, bind, throw.
  destruct (Paillier.lambda sk) as [|l|l]; [done..|].
  destruct (Paillier.modInv_loop _ _ _ _ _ _); [done|].
  by intros [= <-].
Qed.

Lemma aggregate_error_nonempty paillier now first rest e log :
  aggregateEncryptedMetrics paillier now (first :: rest) = (inl e, log) →
  message e = "a does not have inverse modulo n".
Proof.
  unfold aggregateEncryptedMetrics.
  destruct (aggregation_loop (publicKey paillier) first rest)
    as [[[[t1 t2] t3] t4] t5].
  unfold logged_bind, decrypt_logged.
  destruct (Paillier.decrypt (privateKey paillier) t1) as [e1|s1] eqn:E1;
    [intros [= <- _]; by eapply decrypt_error|].
  destruct (Paillier.decrypt (privateKey paillier) t2) as [e2|s2] eqn:E2;
    [intros [= <- _]; by eapply decrypt_error|].
  destruct (Paillier.decrypt (privateKey paillier) t3) as [e3|s3] eqn:E3;
    [intros [= <- _]; by eapply decrypt_error|].
  destruct (Paillier.decrypt (privateKey paillier) t4) as [e4|s4] eqn:E4;
    [intros [= <- _]; by eapply decrypt_error|].
  destruct (Paillier.decrypt (privateKey paillier) t5) as [e5|s5] eqn:E5;
    [intros [= <- _]; by eapply decrypt_error|].
  done.
Qed.

(** C7.  [aggregateEncryptedMetrics] applied to the empty list throws
    the error "No metrics to aggregate": nothing has been decrypted and
    there is no result, zero or partial.  The empty list is the only
    input on which this error is thrown. *)
Theorem aggregate_empty_fails (paillier : PaillierKeys) (now : Z) :
  aggregateEncryptedMetrics paillier now []
  = (inl {| message := "No metrics to aggregate" |}, [])
  ∧ (∀ result log,
       aggregateEncryptedMetrics paillier now [] ≠ (inr result, log))
  ∧ (∀ encryptedMetrics log,
       aggregateEncryptedMetrics paillier now encryptedMetrics
       = (inl {| message := "No metrics to aggregate" |}, log) →
       encryptedMetrics = []).
Proof.
  split; [reflexivity|]. split; [done|].
  intros [|first rest] log H; [reflexivity|].
  apply aggregate_error_nonempty in H. discriminate H.
Qed.

(** *** Releases and the privacy budget *)

(** A sequence of calls to [generateDifferentialPrivateInsights] on one
    analytics object, one per requested epsilon, with the insights each
    call returns. *)
Fixpoint release_all (M : MathLib) (aggregatedMetrics : AggregatedMetrics.t Q)
    (epsilons : list (option Q)) (now : Z) (k : nat)
  : list DifferentialPrivateInsights.t :=
  match epsilons with
  | [] => []
  | epsilon :: rest =>
      let '(insights, k') :=
        generateDifferentialPrivateInsights M aggregatedMetrics epsilon now k in
      insights :: release_all M aggregatedMetrics rest now k'
  end.

Definition Qsum (l : list Q) : Q := fold_right Qplus 0%Q l.

Lemma release_budget_used M aggregatedMetrics epsilon now k :
  DifferentialPrivateInsights.privacyBudgetUsed
    (generateDifferentialPrivateInsights M aggregatedMetrics epsilon now k).1
  = default 1%Q epsilon.
Proof.
  unfold generateDifferentialPrivateInsights.
  repeat match goal with |- context [addNoise ?m ?e ?v ?j] =>
    destruct (addNoise m e v j) end.
  reflexivity.
Qed.

Lemma release_all_budget_used M aggregatedMetrics epsilons now k :
  DifferentialPrivateInsights.privacyBudgetUsed
    <$> release_all M aggregatedMetrics epsilons now k
  = default 1%Q <$> epsilons.
Proof.
  revert k. induction epsilons as [|epsilon rest IH]; intros k; [reflexivity|].
  cbn [release_all].
  pose proof (release_budget_used M aggregatedMetrics epsilon now k) as Hb.
  destruct (generateDifferentialPrivateInsights M aggregatedMetrics epsilon now k)
    as [insights k'].
  cbn in Hb |- *. by rewrite Hb, IH.
Qed.

(** C2, as the code has it.  No budget is kept: every call in a sequence
    of releases returns insights, whatever has been released before, and
    reports as [privacyBudgetUsed] the epsilon it was asked for (1 when
    none is given).  The cumulative epsilon of the sequence is then the
    sum of the requested epsilons. *)
Theorem release_reports_requested_epsilon
    (M : MathLib) (aggregatedMetrics : AggregatedMetrics.t Q)
    (epsilons : list (option Q)) (now : Z) (k : nat) :
  length (release_all M aggregatedMetrics epsilons now k) = length epsilons
  ∧ DifferentialPrivateInsights.privacyBudgetUsed
      <$> release_all M aggregatedMetrics epsilons now k
    = default 1%Q <$> epsilons
  ∧ Qsum (DifferentialPrivateInsights.privacyBudgetUsed
            <$> release_all M aggregatedMetrics epsilons now k)
    = Qsum (default 1%Q <$> epsilons).
Proof.
  pose proof (release_all_budget_used M aggregatedMetrics epsilons now k) as Hmap.
  split; [|split; [exact Hmap | by rewrite Hmap]].
  rewrite <- (length_fmap DifferentialPrivateInsights.privacyBudgetUsed), Hmap.
  apply length_fmap.
Qed.

Definition sample_math : MathLib :=
  {| Math_random := fun k => (1 # 4)%Q;
     Math_log := fun x => (x - 1)%Q;
     Math_sqrt := fun x => x |}.

Definition sample_aggregate : AggregatedMetrics.t Q :=
  {| AggregatedMetrics.userCount := (3 # 1)%Q;
     AggregatedMetrics.averageMoodScore := (80 # 1)%Q;
     AggregatedMetrics.totalSessions := (12 # 1)%Q;
     AggregatedMetrics.averageEngagementTime := (30 # 1)%Q;
     AggregatedMetrics.averageWellnessScore := (70 # 1)%Q;
     AggregatedMetrics.totalCrisisEvents := (1 # 1)%Q;
     AggregatedMetrics.aggregationTimestamp := 1700000000000 |}.

Definition two_releases : list DifferentialPrivateInsights.t :=
  release_all sample_math sample_aggregate
              [Some (6 # 10)%Q; Some (6 # 10)%Q] 1700000000000 0.

(** C2 as stated fails: against a cap of 1, two releases of epsilon 0.6
    each are both made, and the epsilon spent, 1.2, exceeds the cap. *)
Lemma release_exceeds_budget_cap :
  length two_releases = 2%nat
  ∧ DifferentialPrivateInsights.privacyBudgetUsed <$> two_releases
    = [(6 # 10)%Q; (6 # 10)%Q]
  ∧ ¬ (Qsum (DifferentialPrivateInsights.privacyBudgetUsed <$> two_releases) <= 1)%Q.
Proof.
  assert (DifferentialPrivateInsights.privacyBudgetUsed <$> two_releases
          = [(6 # 10)%Q; (6 # 10)%Q]) as Hused
    by apply release_all_budget_used.
  split; [|split; [exact Hused|]].
  - rewrite <- (length_fmap DifferentialPrivateInsights.privacyBudgetUsed), Hused.
    reflexivity.
  - rewrite Hused. vm_compute. intros H. apply H. reflexivity.
Qed.

(** *** Homomorphic aggregation *)

(** Well-formed draws and ciphertexts of a public key: units modulo [n],
    below [n] and [n^2]. *)
Definition draw_ok (pk : Paillier.PublicKey) (r : Z) : bool :=
  (0 <? r) && (r <? Paillier.n pk) && (Z.gcd r (Paillier.n pk) =? 1).

Definition ciphertext_ok (pk : Paillier.PublicKey) (c : Z) : bool :=
  (0 <? c) && (c <? Paillier.n2 pk) && (Z.gcd c (Paillier.n pk) =? 1).

(** The contract of an additively homomorphic key pair: a plaintext
    below [n] encrypts to a well-formed ciphertext that decrypts to it,
    and the [addition] of two well-formed ciphertexts is a well-formed
    ciphertext of the sum modulo [n]. *)
Definition additively_homomorphic (paillier : PaillierKeys) : Prop :=
  let pk := publicKey paillier in
  let sk := privateKey paillier in
  (∀ m r, 0 ≤ m < Paillier.n pk → draw_ok pk r = true →
     ∃ c, Paillier.encrypt pk m r = inr c
          ∧ ciphertext_ok pk c = true
          ∧ Paillier.decrypt sk c = inr m)
  ∧ (∀ a b x y,
       ciphertext_ok pk a = true → ciphertext_ok pk b = true →
       Paillier.decrypt sk a = inr x → Paillier.decrypt sk b = inr y →
       ciphertext_ok pk (Paillier.addition pk a b) = true
       ∧ Paillier.decrypt sk (Paillier.addition pk a b)
         = inr ((x + y) mod Paillier.n pk)).

(** The inputs of one aggregation: per user, the draws of the
    encryption and the plaintext metric vector. *)
Fixpoint encrypt_all (paillier : PaillierKeys)
    (inputs : list (Draws * UserMentalHealthMetrics.t))
  : Result (list EncryptedUserMetrics.t) :=
  match inputs with
  | [] => inr []
  | (draws, metrics) :: rest =>
      do e <- encryptUserMetrics paillier draws metrics;
      do es <- encrypt_all paillier rest;
      inr (e :: es)
  end.

(** A number that is a non-negative integer, and the integer it is. *)
Definition natural (x : number) : Prop := ∃ z, x = Finite (inject_Z z) ∧ 0 ≤ z.

Definition plain (x : number) : Z :=
  match x with
  | Finite x => Qfloor x
  | _ => 0
  end.

Definition field_sum (field : UserMentalHealthMetrics.t → number)
    (inputs : list (Draws * UserMentalHealthMetrics.t)) : Z :=
  sum_list (map (fun metrics => plain (field metrics)) (map snd inputs)).

Definition draws_ok (pk : Paillier.PublicKey) (draws : Draws) : Prop :=
  draw_ok pk (rMood draws) = true ∧ draw_ok pk (rSessions draws) = true
  ∧ draw_ok pk (rEngagement draws) = true ∧ draw_ok pk (rWellness draws) = true
  ∧ draw_ok pk (rCrisis draws) = true.

Definition metrics_nonneg (metrics : UserMentalHealthMetrics.t) : Prop :=
  natural (UserMentalHealthMetrics.moodScore metrics)
  ∧ natural (UserMentalHealthMetrics.sessionCount metrics)
  ∧ natural (UserMentalHealthMetrics.engagementTime metrics)
  ∧ natural (UserMentalHealthMetrics.wellnessScore metrics)
  ∧ natural (UserMentalHealthMetrics.crisisEvents metrics).

Lemma natural_plain x : natural x → BigInt x = inr (plain x) ∧ 0 ≤ plain x.
Proof.
  intros (z & -> & Hz). unfold plain. by rewrite BigInt_integer, Qfloor_Z.
Qed.

(** The declared plaintext domain: non-negative integers whose sum, per
    field, stays below the modulus of the key. *)
Definition in_plaintext_domain (pk : Paillier.PublicKey)
    (inputs : list (Draws * UserMentalHealthMetrics.t)) : Prop :=
  Forall (fun input => draws_ok pk input.1 ∧ metrics_nonneg input.2) inputs
  ∧ field_sum UserMentalHealthMetrics.moodScore inputs < Paillier.n pk
  ∧ field_sum UserMentalHealthMetrics.sessionCount inputs < Paillier.n pk
  ∧ field_sum UserMentalHealthMetrics.engagementTime inputs < Paillier.n pk
  ∧ field_sum UserMentalHealthMetrics.wellnessScore inputs < Paillier.n pk
  ∧ field_sum UserMentalHealthMetrics.crisisEvents inputs < Paillier.n pk.

(** [Number.MAX_SAFE_INTEGER]: up to it every integer is a double. *)
Definition MAX_SAFE_INTEGER : Z := 2 ^ 53 - 1.

Definition sums_are_safe
    (inputs : list (Draws * UserMentalHealthMetrics.t)) : Prop :=
  field_sum UserMentalHealthMetrics.moodScore inputs ≤ MAX_SAFE_INTEGER
  ∧ field_sum UserMentalHealthMetrics.sessionCount inputs ≤ MAX_SAFE_INTEGER
  ∧ field_sum UserMentalHealthMetrics.engagementTime inputs ≤ MAX_SAFE_INTEGER
  ∧ field_sum UserMentalHealthMetrics.wellnessScore inputs ≤ MAX_SAFE_INTEGER
  ∧ field_sum UserMentalHealthMetrics.crisisEvents inputs ≤ MAX_SAFE_INTEGER.

Lemma aggregation_loop_fields pk first rest :
  aggregation_loop pk first rest
  = (fold_left (Paillier.addition pk)
       (map EncryptedUserMetrics.encryptedMoodScore rest)
       (EncryptedUserMetrics.encryptedMoodScore first),
     fold_left (Paillier.addition pk)
       (map EncryptedUserMetrics.encryptedSessionCount rest)
       (EncryptedUserMetrics.encryptedSessionCount first),
     fold_left (Paillier.addition pk)
       (map EncryptedUserMetrics.encryptedEngagementTime rest)
       (EncryptedUserMetrics.encryptedEngagementTime first),
     fold_left (Paillier.addition pk)
       (map EncryptedUserMetrics.encryptedWellnessScore rest)
       (EncryptedUserMetrics.encryptedWellnessScore first),
     fold_left (Paillier.addition pk)
       (map EncryptedUserMetrics.encryptedCrisisEvents rest)
       (EncryptedUserMetrics.encryptedCrisisEvents first)).
Proof.
  unfold aggregation_loop.
  generalize (EncryptedUserMetrics.encryptedMoodScore first)
             (EncryptedUserMetrics.encryptedSessionCount first)
             (EncryptedUserMetrics.encryptedEngagementTime first)
             (EncryptedUserMetrics.encryptedWellnessScore first)
             (EncryptedUserMetrics.encryptedCrisisEvents first).
  induction rest as [|metric rest IH]; intros a b c d e; [reflexivity|].
  cbn [fold_left map]. apply IH.
Qed.

(** Five decryptions in a row, each of them successful. *)
Lemma aggregate_decrypts paillier now first rest t1 t2 t3 t4 t5 s1 s2 s3 s4 s5 :
  aggregation_loop (publicKey paillier) first rest = (t1, t2, t3, t4, t5) →
  Paillier.decrypt (privateKey paillier) t1 = inr s1 →
  Paillier.decrypt (privateKey paillier) t2 = inr s2 →
  Paillier.decrypt (privateKey paillier) t3 = inr s3 →
  Paillier.decrypt (privateKey paillier) t4 = inr s4 →
  Paillier.decrypt (privateKey paillier) t5 = inr s5 →
  let userCount := Finite (inject_Z (Z.of_nat (length (first :: rest)))) in
  aggregateEncryptedMetrics paillier now (first :: rest)
  = (inr {| AggregatedMetrics.userCount := userCount;
            AggregatedMetrics.averageMoodScore := divide (Number s1) userCount;
            AggregatedMetrics.totalSessions := Number s2;
            AggregatedMetrics.averageEngagementTime := divide (Number s3) userCount;
            AggregatedMetrics.averageWellnessScore := divide (Number s4) userCount;
            AggregatedMetrics.totalCrisisEvents := Number s5;
            AggregatedMetrics.aggregationTimestamp := now |},
     [t1; t2; t3; t4; t5]).
Proof.
  intros Hloop H1 H2 H3 H4 H5.
  unfold aggregateEncryptedMetrics. rewrite Hloop.
  unfold logged_bind, decrypt_logged. rewrite H1, H2, H3, H4, H5.
  reflexivity.
Qed.

Section Homomorphic.

Variable paillier : PaillierKeys.
Hypothesis Hhom : additively_homomorphic paillier.

(** [c] is a well-formed ciphertext of [m]. *)
Definition encrypts_to (c m : Z) : Prop :=
  ciphertext_ok (publicKey paillier) c = true
  ∧ Paillier.decrypt (privateKey paillier) c = inr m.

Lemma fold_addition cs ms :
  Forall2 encrypts_to cs ms →
  ∀ c0 m0, encrypts_to c0 m0 → 0 ≤ m0 → Forall (Z.le 0) ms →
           m0 + sum_list ms < Paillier.n (publicKey paillier) →
           encrypts_to (fold_left (Paillier.addition (publicKey paillier)) cs c0) (m0 + sum_list ms).
Proof.
  induction 1 as [|c m cs ms Hc _ IH]; intros c0 m0 H0 Hm0 Hnn Hlt.
  - cbn. by rewrite Z.add_0_r.
  - apply Forall_cons in Hnn as [Hm Hnn]. rewrite sum_list_cons in *.
    pose proof (sum_list_nonneg ms Hnn) as Hs.
    cbn [fold_left]. rewrite Z.add_assoc.
    apply IH; [|lia|done|lia].
    destruct H0 as [Hok0 Hd0], Hc as [Hok Hd].
    destruct (proj2 Hhom c0 c m0 m Hok0 Hok Hd0 Hd) as [Hok' Hd'].
    split; [exact Hok'|]. rewrite Hd'. f_equal.
    apply Z.mod_small. lia.
Qed.

Definition entry_encrypts (e : EncryptedUserMetrics.t)
    (metrics : UserMentalHealthMetrics.t) : Prop :=
  encrypts_to (EncryptedUserMetrics.encryptedMoodScore e)
              (plain (UserMentalHealthMetrics.moodScore metrics))
  ∧ encrypts_to (EncryptedUserMetrics.encryptedSessionCount e)
                (plain (UserMentalHealthMetrics.sessionCount metrics))
  ∧ encrypts_to (EncryptedUserMetrics.encryptedEngagementTime e)
                (plain (UserMentalHealthMetrics.engagementTime metrics))
  ∧ encrypts_to (EncryptedUserMetrics.encryptedWellnessScore e)
                (plain (UserMentalHealthMetrics.wellnessScore metrics))
  ∧ encrypts_to (EncryptedUserMetrics.encryptedCrisisEvents e)
                (plain (UserMentalHealthMetrics.crisisEvents metrics)).

Lemma encryptUserMetrics_ok draws metrics :
  draws_ok (publicKey paillier) draws →
  metrics_nonneg metrics →
  plain (UserMentalHealthMetrics.moodScore metrics) < Paillier.n (publicKey paillier) →
  plain (UserMentalHealthMetrics.sessionCount metrics) < Paillier.n (publicKey paillier) →
  plain (UserMentalHealthMetrics.engagementTime metrics) < Paillier.n (publicKey paillier) →
  plain (UserMentalHealthMetrics.wellnessScore metrics) < Paillier.n (publicKey paillier) →
  plain (UserMentalHealthMetrics.crisisEvents metrics) < Paillier.n (publicKey paillier) →
  ∃ e, encryptUserMetrics paillier draws metrics = inr e ∧ entry_encrypts e metrics.
Proof.
  intros (D1 & D2 & D3 & D4 & D5) (N1 & N2 & N3 & N4 & N5) M1 M2 M3 M4 M5.
  apply natural_plain in N1 as [B1 P1], N2 as [B2 P2], N3 as [B3 P3],
    N4 as [B4 P4], N5 as [B5 P5].
  destruct (proj1 Hhom _ _ (conj P1 M1) D1) as (c1 & E1 & O1 & X1).
  destruct (proj1 Hhom _ _ (conj P2 M2) D2) as (c2 & E2 & O2 & X2).
  destruct (proj1 Hhom _ _ (conj P3 M3) D3) as (c3 & E3 & O3 & X3).
  destruct (proj1 Hhom _ _ (conj P4 M4) D4) as (c4 & E4 & O4 & X4).
  destruct (proj1 Hhom _ _ (conj P5 M5) D5) as (c5 & E5 & O5 & X5).
  unfold encryptUserMetrics.
  rewrite B1. cbn [bind]. rewrite E1. cbn [bind].
  rewrite B2. cbn [bind]. rewrite E2. cbn [bind].
  rewrite B3. cbn [bind]. rewrite E3. cbn [bind].
  rewrite B4. cbn [bind]. rewrite E4. cbn [bind].
  rewrite B5. cbn [bind]. rewrite E5. cbn [bind].
  eexists. split; [reflexivity|]. by repeat split.
Qed.

Lemma metrics_nonneg_plain (field : UserMentalHealthMetrics.t → number) ms :
  (∀ m, metrics_nonneg m → natural (field m)) →
  Forall metrics_nonneg ms →
  Forall (Z.le 0) (map (fun m => plain (field m)) ms).
Proof.
  intros Hf. induction 1 as [|m l Hm _ IH]; constructor; [|exact IH].
  by apply natural_plain, Hf.
Qed.

Lemma encrypt_all_ok inputs :
  Forall (fun input => draws_ok (publicKey paillier) input.1
                       ∧ metrics_nonneg input.2) inputs →
  field_sum UserMentalHealthMetrics.moodScore inputs < Paillier.n (publicKey paillier) →
  field_sum UserMentalHealthMetrics.sessionCount inputs < Paillier.n (publicKey paillier) →
  field_sum UserMentalHealthMetrics.engagementTime inputs < Paillier.n (publicKey paillier) →
  field_sum UserMentalHealthMetrics.wellnessScore inputs < Paillier.n (publicKey paillier) →
  field_sum UserMentalHealthMetrics.crisisEvents inputs < Paillier.n (publicKey paillier) →
  ∃ encrypted, encrypt_all paillier inputs = inr encrypted
               ∧ Forall2 entry_encrypts encrypted (map snd inputs).
Proof.
  unfold field_sum.
  induction 1 as [|[draws metrics] inputs [Hd Hm] Hall IH];
    intros S1 S2 S3 S4 S5.
  - exists []. split; [reflexivity | constructor].
  - cbn [map snd] in *. rewrite !sum_list_cons in *.
    assert (Forall metrics_nonneg (map snd inputs)) as Hin.
    { clear -Hall. induction Hall as [|[d m] l [_ Hm] _ IHl]; constructor; done. }
    assert (∀ field : UserMentalHealthMetrics.t → number,
              (∀ m, metrics_nonneg m → natural (field m)) →
              0 ≤ plain (field metrics)
              ∧ 0 ≤ sum_list (map (fun m => plain (field m)) (map snd inputs)))
      as Hnn.
    { intros field Hf. split; [by apply natural_plain, Hf|].
      by apply sum_list_nonneg, metrics_nonneg_plain. }
    destruct (Hnn UserMentalHealthMetrics.moodScore
                (λ m Hm, proj1 Hm)) as [Q1 P1].
    destruct (Hnn UserMentalHealthMetrics.sessionCount
                (λ m Hm, proj1 (proj2 Hm))) as [Q2 P2].
    destruct (Hnn UserMentalHealthMetrics.engagementTime
                (λ m Hm, proj1 (proj2 (proj2 Hm)))) as [Q3 P3].
    destruct (Hnn UserMentalHealthMetrics.wellnessScore
                (λ m Hm, proj1 (proj2 (proj2 (proj2 Hm))))) as [Q4 P4].
    destruct (Hnn UserMentalHealthMetrics.crisisEvents
                (λ m Hm, proj2 (proj2 (proj2 (proj2 Hm))))) as [Q5 P5].
    destruct (encryptUserMetrics_ok draws metrics Hd Hm) as (e & He & Hee);
      try lia.
    destruct IH as (es & Hes & Hall2); try lia.
    exists (e :: es). cbn [encrypt_all]. rewrite He, Hes.
    split; [reflexivity|]. by constructor.
Qed.

(** The running total of one field over the whole list is a ciphertext
    of the plaintext sum of that field. *)
Lemma field_total (cipher : EncryptedUserMetrics.t → Z)
    (field : UserMentalHealthMetrics.t → number) e0 es m0 ms :
  (∀ e m, entry_encrypts e m → encrypts_to (cipher e) (plain (field m))) →
  (∀ m, metrics_nonneg m → natural (field m)) →
  entry_encrypts e0 m0 → Forall2 entry_encrypts es ms →
  Forall metrics_nonneg (m0 :: ms) →
  sum_list (map (fun m => plain (field m)) (m0 :: ms))
  < Paillier.n (publicKey paillier) →
  encrypts_to (fold_left (Paillier.addition (publicKey paillier))
                         (map cipher es) (cipher e0))
              (sum_list (map (fun m => plain (field m)) (m0 :: ms))).
Proof.
  intros Hfield Hnn H0 Hall Hdom Hlt.
  apply Forall_cons in Hdom as [Hm0 Hms].
  cbn [map] in *. rewrite sum_list_cons in *.
  apply fold_addition;
    [| by apply Hfield | by apply natural_plain, Hnn
     | by apply metrics_nonneg_plain | done].
  clear -Hall Hfield. induction Hall; constructor; auto.
Qed.

End Homomorphic.


Lemma in_plaintext_domain_nonneg pk inputs :
  in_plaintext_domain pk inputs → Forall metrics_nonneg (map snd inputs).
Proof.
  intros [Hall _]. induction Hall as [|[d m] l [_ Hm] _ IH]; constructor; done.
Qed.

Lemma field_sum_nonneg pk (field : UserMentalHealthMetrics.t → number) inputs :
  (∀ m, metrics_nonneg m → natural (field m)) →
  in_plaintext_domain pk inputs → 0 ≤ field_sum field inputs.
Proof.
  intros Hf Hdom. unfold field_sum.
  apply sum_list_nonneg, metrics_nonneg_plain; [exact Hf|].
  by eapply in_plaintext_domain_nonneg.
Qed.

Lemma Number_safe (z : Z) : 0 ≤ z ≤ MAX_SAFE_INTEGER → Number z = Finite (inject_Z z).
Proof.
  unfold MAX_SAFE_INTEGER. intros Hz. apply Number_exact. lia.
Qed.

Definition two_heavy_users : list (Draws * UserMentalHealthMetrics.t) :=
  [ (draws_of 2 3 5 7 11, metrics_of "u1" 3 9007199254740992 2 4 0);
    (draws_of 13 17 19 23 29, metrics_of "u2" 4 1 2 5 1) ].

(** A key pair with a modulus of 55 bits and [g = n + 1]:
    [n = 134217757 * 134218729], [lambda = lcm 134217756 134218728],
    and [mu] the inverse of [lambda] modulo [n]. *)
Definition keys55 : PaillierKeys :=
  let pk := {| Paillier.n := 18014536753770853;
               Paillier.g := 18014536753770854;
               Paillier.n_positive := eq_refl |} in
  {| publicKey := pk;
     privateKey := {| Paillier.lambda := 166801263753096;
                      Paillier.mu := 8933372744535744;
                      Paillier.pub := pk |} |}.

(** C3 as stated fails.  Two users with 9007199254740992 sessions and 1
    session, both non-negative integers, under a key whose modulus is
    above every field sum.  The homomorphic total of the session
    counts decrypts to the exact sum 9007199254740993, but the
    aggregate reports [Number] of it, 9007199254740992: the sum is above
    [2 ^ 53] and is not a double. *)
Lemma aggregate_rounds_sums_above_2_53 :
  two_heavy_users ≠ []
  ∧ in_plaintext_domain (publicKey keys55) two_heavy_users
  ∧ field_sum UserMentalHealthMetrics.sessionCount two_heavy_users
    = 9007199254740993
  ∧ ∃ encrypted result c1 c2 c3 c4 c5,
      encrypt_all keys55 two_heavy_users = inr encrypted
      ∧ aggregateEncryptedMetrics keys55 1700000000000 encrypted
        = (inr result, [c1; c2; c3; c4; c5])
      ∧ Paillier.decrypt (privateKey keys55) c2 = inr 9007199254740993
      ∧ AggregatedMetrics.totalSessions result = Finite 9007199254740992
      ∧ AggregatedMetrics.totalSessions result
        ≠ Finite (inject_Z (field_sum UserMentalHealthMetrics.sessionCount
                              two_heavy_users)).
Proof.
  split; [discriminate|]. split.
  { split.
    - repeat constructor; try (eexists; split; [reflexivity|]; lia).
    - vm_compute. repeat split; reflexivity. }
  split; [vm_compute; reflexivity|].
  do 7 eexists. split; [vm_compute; reflexivity|].
  split; [vm_compute; reflexivity|].
  split; [vm_compute; reflexivity|].
  split; [reflexivity|]. vm_compute. discriminate.
Qed.

(** C3, with the bound it needs.  Take a non-empty list of plaintext
    metric vectors in the declared domain (non-negative integers whose
    per-field sums stay below the modulus) and a key pair that is
    additively homomorphic.  Encrypting every vector field by field and
    aggregating the ciphertexts succeeds; the five homomorphic totals
    decrypt to exactly the five plaintext field sums; and [decrypt] is
    called five times, once per field, whatever the number of inputs.
    The aggregate reports [Number] of the sums: sessions and crisis
    events as they are, mood, engagement and wellness divided by the
    user count.  When the five sums are at most
    [Number.MAX_SAFE_INTEGER], the reported sessions and crisis events
    are exactly the plaintext sums, and the reported mood, engagement
    and wellness are the doubles nearest to the sums divided by the
    user count. *)
Theorem aggregate_of_encrypted_is_exact
    (paillier : PaillierKeys) (now : Z)
    (inputs : list (Draws * UserMentalHealthMetrics.t)) :
  additively_homomorphic paillier →
  inputs ≠ [] →
  in_plaintext_domain (publicKey paillier) inputs →
  let userCount := Z.of_nat (length inputs) in
  let moods := field_sum UserMentalHealthMetrics.moodScore inputs in
  let sessions := field_sum UserMentalHealthMetrics.sessionCount inputs in
  let engagements := field_sum UserMentalHealthMetrics.engagementTime inputs in
  let wellnesses := field_sum UserMentalHealthMetrics.wellnessScore inputs in
  let crises := field_sum UserMentalHealthMetrics.crisisEvents inputs in
  ∃ encrypted result log,
    encrypt_all paillier inputs = inr encrypted
    ∧ aggregateEncryptedMetrics paillier now encrypted = (inr result, log)
    ∧ length log = 5%nat
    ∧ Forall2 (fun c total => Paillier.decrypt (privateKey paillier) c = inr total)
        log [moods; sessions; engagements; wellnesses; crises]
    ∧ result
      = {| AggregatedMetrics.userCount := Finite (inject_Z userCount);
           AggregatedMetrics.averageMoodScore :=
             divide (Number moods) (Finite (inject_Z userCount));
           AggregatedMetrics.totalSessions := Number sessions;
           AggregatedMetrics.averageEngagementTime :=
             divide (Number engagements) (Finite (inject_Z userCount));
           AggregatedMetrics.averageWellnessScore :=
             divide (Number wellnesses) (Finite (inject_Z userCount));
           AggregatedMetrics.totalCrisisEvents := Number crises;
           AggregatedMetrics.aggregationTimestamp := now |}
    ∧ (sums_are_safe inputs →
       result
       = {| AggregatedMetrics.userCount := Finite (inject_Z userCount);
            AggregatedMetrics.averageMoodScore :=
              nearest_double (inject_Z moods / inject_Z userCount);
            AggregatedMetrics.totalSessions := Finite (inject_Z sessions);
            AggregatedMetrics.averageEngagementTime :=
              nearest_double (inject_Z engagements / inject_Z userCount);
            AggregatedMetrics.averageWellnessScore :=
              nearest_double (inject_Z wellnesses / inject_Z userCount);
            AggregatedMetrics.totalCrisisEvents := Finite (inject_Z crises);
            AggregatedMetrics.aggregationTimestamp := now |}).
Proof.
  intros Hhom Hne Hdom. cbv zeta.
  pose proof (in_plaintext_domain_nonneg _ _ Hdom) as Hnn.
  pose proof (field_sum_nonneg _ UserMentalHealthMetrics.moodScore inputs
                (λ m Hm, proj1 Hm) Hdom) as P1.
  pose proof (field_sum_nonneg _ UserMentalHealthMetrics.sessionCount inputs
                (λ m Hm, proj1 (proj2 Hm)) Hdom) as P2.
  pose proof (field_sum_nonneg _ UserMentalHealthMetrics.engagementTime inputs
                (λ m Hm, proj1 (proj2 (proj2 Hm))) Hdom) as P3.
  pose proof (field_sum_nonneg _ UserMentalHealthMetrics.wellnessScore inputs
                (λ m Hm, proj1 (proj2 (proj2 (proj2 Hm)))) Hdom) as P4.
  pose proof (field_sum_nonneg _ UserMentalHealthMetrics.crisisEvents inputs
                (λ m Hm, proj2 (proj2 (proj2 (proj2 Hm)))) Hdom) as P5.
  destruct Hdom as (Hall & S1 & S2 & S3 & S4 & S5).
  destruct (encrypt_all_ok paillier Hhom inputs Hall S1 S2 S3 S4 S5)
    as (encrypted & Henc & Hee).
  destruct inputs as [|[d0 m0] rest]; [done|].
  cbn [map snd] in *. inversion Hee as [|e0 ? es ? He0 Hes]; subst.
  unfold sums_are_safe, field_sum in *. cbn [map snd] in *.
  set (ms := map snd rest) in *.
  destruct (field_total paillier Hhom EncryptedUserMetrics.encryptedMoodScore
              UserMentalHealthMetrics.moodScore e0 es m0 ms) as [_ D1];
    [by intros ?? (?&?&?&?&?) | by intros ? (?&?&?&?&?) | done..|].
  destruct (field_total paillier Hhom EncryptedUserMetrics.encryptedSessionCount
              UserMentalHealthMetrics.sessionCount e0 es m0 ms) as [_ D2];
    [by intros ?? (?&?&?&?&?) | by intros ? (?&?&?&?&?) | done..|].
  destruct (field_total paillier Hhom EncryptedUserMetrics.encryptedEngagementTime
              UserMentalHealthMetrics.engagementTime e0 es m0 ms) as [_ D3];
    [by intros ?? (?&?&?&?&?) | by intros ? (?&?&?&?&?) | done..|].
  destruct (field_total paillier Hhom EncryptedUserMetrics.encryptedWellnessScore
              UserMentalHealthMetrics.wellnessScore e0 es m0 ms) as [_ D4];
    [by intros ?? (?&?&?&?&?) | by intros ? (?&?&?&?&?) | done..|].
  destruct (field_total paillier Hhom EncryptedUserMetrics.encryptedCrisisEvents
              UserMentalHealthMetrics.crisisEvents e0 es m0 ms) as [_ D5];
    [by intros ?? (?&?&?&?&?) | by intros ? (?&?&?&?&?) | done..|].
  assert (length (e0 :: es) = length ((d0, m0) :: rest)) as Hlen.
  { apply Forall2_length in Hes. cbn. unfold ms in Hes.
    rewrite length_map in Hes. by rewrite Hes. }
  eexists (e0 :: es), _, _. split; [exact Henc|]. split.
  { exact (aggregate_decrypts paillier now e0 es _ _ _ _ _ _ _ _ _ _
             (aggregation_loop_fields _ e0 es) D1 D2 D3 D4 D5). }
  split; [reflexivity|]. split; [repeat constructor; assumption|].
  rewrite Hlen. split; [reflexivity|].
  intros (B1 & B2 & B3 & B4 & B5).
  rewrite !Number_safe by (split; assumption).
  rewrite !divide_by_count by (cbn [length]; lia).
  reflexivity.
Qed.


(** *** A key pair that meets the contract *)

Definition encrypt_check (paillier : PaillierKeys) (m r : Z) : bool :=
  if draw_ok (publicKey paillier) r then
    match Paillier.encrypt (publicKey paillier) m r with
    | inr c =>
        ciphertext_ok (publicKey paillier) c
        && match Paillier.decrypt (privateKey paillier) c with
           | inr m' => m' =? m
           | inl _ => false
           end
    | inl _ => false
    end
  else true.

Definition addition_check (paillier : PaillierKeys) (a b : Z) : bool :=
  if ciphertext_ok (publicKey paillier) a && ciphertext_ok (publicKey paillier) b then
    match Paillier.decrypt (privateKey paillier) a,
          Paillier.decrypt (privateKey paillier) b,
          Paillier.decrypt (privateKey paillier)
            (Paillier.addition (publicKey paillier) a b) with
    | inr x, inr y, inr z =>
        ciphertext_ok (publicKey paillier)
          (Paillier.addition (publicKey paillier) a b)
        && (z =? (x + y) mod Paillier.n (publicKey paillier))
    | _, _, _ => false
    end
  else true.

Lemma keys15_encrypt_checked :
  forallb (fun m => forallb (encrypt_check keys15 m) (map Z.of_nat (seq 0 15)))
          (map Z.of_nat (seq 0 15)) = true.
Proof. vm_compute. reflexivity. Qed.

Lemma keys15_addition_checked :
  forallb (fun a => forallb (addition_check keys15 a) (map Z.of_nat (seq 0 225)))
          (map Z.of_nat (seq 0 225)) = true.
Proof. vm_compute. reflexivity. Qed.

Lemma draw_ok_range pk r : draw_ok pk r = true → 0 ≤ r < Paillier.n pk.
Proof. unfold draw_ok. intros H. apply andb_true_iff in H as [H _]. lia. Qed.

Lemma ciphertext_ok_range pk c : ciphertext_ok pk c = true → 0 ≤ c < Paillier.n2 pk.
Proof. unfold ciphertext_ok. intros H. apply andb_true_iff in H as [H _]. lia. Qed.

Lemma keys15_homomorphic : additively_homomorphic keys15.
Proof.
  unfold additively_homomorphic. cbv zeta. split.
  - intros m r Hm Hr.
    pose proof (draw_ok_range _ _ Hr) as Hrange.
    pose proof (forallb_below2 _ 15 15 keys15_encrypt_checked m r Hm Hrange) as H.
    unfold encrypt_check in H. rewrite Hr in H.
    destruct (Paillier.encrypt (publicKey keys15) m r) as [|c] eqn:Ec; [done|].
    apply andb_true_iff in H as [Hok H].
    destruct (Paillier.decrypt (privateKey keys15) c) as [|m'] eqn:Ed; [done|].
    apply Z.eqb_eq in H. subst m'.
    exists c. split; [reflexivity|]. split; [exact Hok | exact Ed].
  - intros a b x y Ha Hb Hx Hy.
    pose proof (ciphertext_ok_range _ _ Ha) as Hra.
    pose proof (ciphertext_ok_range _ _ Hb) as Hrb.
    pose proof (forallb_below2 _ 225 225 keys15_addition_checked a b Hra Hrb) as H.
    unfold addition_check in H. rewrite Ha, Hb, Hx, Hy in H. cbn [andb] in H.
    destruct (Paillier.decrypt (privateKey keys15)
                (Paillier.addition (publicKey keys15) a b)) as [|z] eqn:Ed; [done|].
    apply andb_true_iff in H as [Hok H]. apply Z.eqb_eq in H. subst z.
    split; [exact Hok | reflexivity].
Qed.

Definition three_users : list (Draws * UserMentalHealthMetrics.t) :=
  [ (draws_of 2 4 7 8 11, metrics_of "u1" 3 1 2 4 0);
    (draws_of 13 14 1 2 4, metrics_of "u2" 4 2 2 5 1);
    (draws_of 7 8 11 13 14, metrics_of "u3" 5 3 2 3 0) ].

Lemma three_users_in_domain : in_plaintext_domain (publicKey keys15) three_users.
Proof.
  split.
  - repeat constructor; try (eexists; split; [reflexivity|]; lia).
  - vm_compute. repeat split; reflexivity.
Qed.

Lemma three_users_are_safe : sums_are_safe three_users.
Proof. vm_compute. repeat split; discriminate. Qed.

Lemma aggregate_of_encrypted_is_exact_witness :
  additively_homomorphic keys15
  ∧ three_users ≠ []
  ∧ in_plaintext_domain (publicKey keys15) three_users
  ∧ sums_are_safe three_users
  ∧ ∃ encrypted log,
      encrypt_all keys15 three_users = inr encrypted
      ∧ aggregateEncryptedMetrics keys15 1700000000000 encrypted
        = (inr {| AggregatedMetrics.userCount := Finite 3;
                  AggregatedMetrics.averageMoodScore := Finite 4;
                  AggregatedMetrics.totalSessions := Finite 6;
                  AggregatedMetrics.averageEngagementTime := Finite 2;
                  AggregatedMetrics.averageWellnessScore := Finite 4;
                  AggregatedMetrics.totalCrisisEvents := Finite 1;
                  AggregatedMetrics.aggregationTimestamp := 1700000000000 |}, log)
      ∧ length log = 5%nat
      ∧ Forall2 (fun c total => Paillier.decrypt (privateKey keys15) c = inr total)
          log [12; 6; 6; 12; 1].
Proof.
  assert (three_users ≠ []) as Hne by discriminate.
  split; [exact keys15_homomorphic|]. split; [exact Hne|].
  split; [exact three_users_in_domain|].
  split; [exact three_users_are_safe|].
  destruct (aggregate_of_encrypted_is_exact keys15 1700000000000 three_users
              keys15_homomorphic Hne three_users_in_domain)
    as (encrypted & result & log & Henc & Hagg & Hlen & Hlog & _ & Hsafe).
  exists encrypted, log. split; [exact Henc|].
  split; [|split; [exact Hlen | exact Hlog]].
  rewrite Hagg, (Hsafe three_users_are_safe). reflexivity.
Defined.

(** *** Entries encrypted under different keys *)

(** C9 as stated fails.  One entry is encrypted under the key of the
    engine and one under another public key; the aggregation raises no
    error and returns totals that are not the plaintext sums: 11
    sessions where the two users had 1 and 2. *)
Lemma aggregate_mixed_keys_is_silently_wrong :
  publicKey keys15 ≠ publicKey keys35
  ∧ ∃ e1 e2 result log,
      encryptUserMetrics keys15 (draws_of 2 4 7 8 11) (metrics_of "u1" 3 1 2 4 0)
      = inr e1
      ∧ encryptUserMetrics keys35 (draws_of 2 4 8 9 11) (metrics_of "u2" 4 2 2 5 1)
        = inr e2
      ∧ aggregateEncryptedMetrics keys15 1700000000000 [e1; e2] = (inr result, log)
      ∧ AggregatedMetrics.totalSessions result = Finite 11
      ∧ AggregatedMetrics.totalSessions result ≠ Finite (inject_Z (1 + 2)).
Proof.
  split; [discriminate|].
  do 4 eexists. split; [vm_compute; reflexivity|].
  split; [vm_compute; reflexivity|].
  split; [vm_compute; reflexivity|].
  split; [reflexivity | discriminate].
Qed.

Lemma decrypt_total sk c :
  0 ≤ Paillier.lambda sk → ∃ m, Paillier.decrypt sk c = inr m.
Proof.
  intros Hl. unfold Paillier.decrypt, Paillier.modPow.
  destruct (Paillier.lambda sk) as [|l|l]; [by eexists..|lia].
Qed.

(** The homomorphic total of one field: the ciphertexts of the field,
    combined entry after entry by the [addition] of a public key. *)
Definition homomorphic_total (pk : Paillier.PublicKey)
    (cipher : EncryptedUserMetrics.t → Z)
    (first : EncryptedUserMetrics.t) (rest : list EncryptedUserMetrics.t) : Z :=
  fold_left (Paillier.addition pk) (map cipher rest) (cipher first).

(** C9, as the code has it.  [aggregateEncryptedMetrics] makes no check
    of the key an entry was encrypted under, and an entry carries none.
    Take an engine whose private key has a non-negative exponent
    [lambda], as every generated key has.  For every non-empty list of
    entries, whatever their origin, the aggregation returns a result and
    throws no error.  The five ciphertexts it hands to [decrypt] are the
    homomorphic totals of the five fields under the public key of the
    engine; each is decrypted with the private key of the engine; and
    the result is made of these five decrypted values, for as many users
    as there are entries. *)
Theorem aggregate_has_no_key_check
    (paillier : PaillierKeys) (now : Z)
    (first : EncryptedUserMetrics.t) (rest : list EncryptedUserMetrics.t) :
  0 ≤ Paillier.lambda (privateKey paillier) →
  let total := fun cipher =>
    homomorphic_total (publicKey paillier) cipher first rest in
  let userCount := Finite (inject_Z (Z.of_nat (length (first :: rest)))) in
  ∃ mood sessions engagement wellness crisis,
    Paillier.decrypt (privateKey paillier)
      (total EncryptedUserMetrics.encryptedMoodScore) = inr mood
    ∧ Paillier.decrypt (privateKey paillier)
        (total EncryptedUserMetrics.encryptedSessionCount) = inr sessions
    ∧ Paillier.decrypt (privateKey paillier)
        (total EncryptedUserMetrics.encryptedEngagementTime) = inr engagement
    ∧ Paillier.decrypt (privateKey paillier)
        (total EncryptedUserMetrics.encryptedWellnessScore) = inr wellness
    ∧ Paillier.decrypt (privateKey paillier)
        (total EncryptedUserMetrics.encryptedCrisisEvents) = inr crisis
    ∧ aggregateEncryptedMetrics paillier now (first :: rest)
      = (inr {| AggregatedMetrics.userCount := userCount;
                AggregatedMetrics.averageMoodScore := divide (Number mood) userCount;
                AggregatedMetrics.totalSessions := Number sessions;
                AggregatedMetrics.averageEngagementTime :=
                  divide (Number engagement) userCount;
                AggregatedMetrics.averageWellnessScore :=
                  divide (Number wellness) userCount;
                AggregatedMetrics.totalCrisisEvents := Number crisis;
                AggregatedMetrics.aggregationTimestamp := now |},
         [ total EncryptedUserMetrics.encryptedMoodScore;
           total EncryptedUserMetrics.encryptedSessionCount;
           total EncryptedUserMetrics.encryptedEngagementTime;
           total EncryptedUserMetrics.encryptedWellnessScore;
           total EncryptedUserMetrics.encryptedCrisisEvents ]).
Proof.
  intros Hl. cbv zeta. unfold homomorphic_total.
  destruct (decrypt_total (privateKey paillier)
              (fold_left (Paillier.addition (publicKey paillier))
                 (map EncryptedUserMetrics.encryptedMoodScore rest)
                 (EncryptedUserMetrics.encryptedMoodScore first)) Hl) as [s1 H1].
  destruct (decrypt_total (privateKey paillier)
              (fold_left (Paillier.addition (publicKey paillier))
                 (map EncryptedUserMetrics.encryptedSessionCount rest)
                 (EncryptedUserMetrics.encryptedSessionCount first)) Hl) as [s2 H2].
  destruct (decrypt_total (privateKey paillier)
              (fold_left (Paillier.addition (publicKey paillier))
                 (map EncryptedUserMetrics.encryptedEngagementTime rest)
                 (EncryptedUserMetrics.encryptedEngagementTime first)) Hl) as [s3 H3].
  destruct (decrypt_total (privateKey paillier)
              (fold_left (Paillier.addition (publicKey paillier))
                 (map EncryptedUserMetrics.encryptedWellnessScore rest)
                 (EncryptedUserMetrics.encryptedWellnessScore first)) Hl) as [s4 H4].
  destruct (decrypt_total (privateKey paillier)
              (fold_left (Paillier.addition (publicKey paillier))
                 (map EncryptedUserMetrics.encryptedCrisisEvents rest)
                 (EncryptedUserMetrics.encryptedCrisisEvents first)) Hl) as [s5 H5].
  exists s1, s2, s3, s4, s5. repeat (split; [assumption|]).
  exact (aggregate_decrypts paillier now first rest _ _ _ _ _ _ _ _ _ _
           (aggregation_loop_fields _ first rest) H1 H2 H3 H4 H5).
Qed.

Definition entry_of (user : string) (mood sessions engagement wellness crisis : Z)
  : EncryptedUserMetrics.t :=
  {| EncryptedUserMetrics.userId := user;
     EncryptedUserMetrics.encryptedMoodScore := mood;
     EncryptedUserMetrics.encryptedSessionCount := sessions;
     EncryptedUserMetrics.encryptedEngagementTime := engagement;
     EncryptedUserMetrics.encryptedWellnessScore := wellness;
     EncryptedUserMetrics.encryptedCrisisEvents := crisis;
     EncryptedUserMetrics.timestamp := 1700000000000 |}.

(** The two entries of the counterexample: the first encrypted under
    [keys15], the second under [keys35]. *)
Definition mixed_entries : list EncryptedUserMetrics.t :=
  [ entry_of "u1" 53 34 58 2 26; entry_of "u2" 88 954 22 424 786 ].

Lemma aggregate_has_no_key_check_witness :
  0 ≤ Paillier.lambda (privateKey keys15)
  ∧ ∃ result,
      aggregateEncryptedMetrics keys15 1700000000000 mixed_entries
      = (inr result,
         [ Z.rem (53 * 88) 225; Z.rem (34 * 954) 225; Z.rem (58 * 22) 225;
           Z.rem (2 * 424) 225; Z.rem (26 * 786) 225 ])
      ∧ AggregatedMetrics.userCount result = Finite 2.
Proof.
  assert (0 ≤ Paillier.lambda (privateKey keys15)) as Hl by (cbn; lia).
  split; [exact Hl|].
  destruct (aggregate_has_no_key_check keys15 1700000000000
              (entry_of "u1" 53 34 58 2 26) [entry_of "u2" 88 954 22 424 786] Hl)
    as (s1 & s2 & s3 & s4 & s5 & _ & _ & _ & _ & _ & H).
  eexists. split; [exact H | reflexivity].
Defined.

End AnalyticsSpec.

(** ** Further properties of the circuits *)

Module CircomExtra.

Import Circom CircomSpec.
Local Open Scope Z_scope.

(** *** Inputs outside the 8-bit range *)

(** The comparator has an output exactly when its second operand lies in
    the window [[a - 255, a + 256]] around the first. *)
Definition in_window (a b : Z) : bool := (a - 255 <=? b) && (b <=? a + 256).

(** On operands that are at least 512 below the modulus the comparator
    either decides [a ≥ b] or has no witness; it never gives the wrong
    bit. *)
Lemma GreaterEqThan_8_window a b :
  0 ≤ a ≤ p - 512 → 0 ≤ b ≤ p - 512 →
  GreaterEqThan 8 a b
  = if in_window a b then Some (if b <=? a then 1 else 0) else None.
Proof.
  intros Ha Hb. rewrite GreaterEqThan_8. cbv zeta. unfold in_window.
  pose proof (Z.mod_pos_bound (b + 255 - a) p eq_refl) as Hx.
  rewrite (Z.mod_eq (b + 255 - a) p) in * by done.
  set (k := (b + 255 - a) / p) in *.
  assert (k = 0 ∨ k = -1) as Hk by (unfold p in *; lia).
  destruct Hk as [-> | ->].
  - rewrite Z.mul_0_r, Z.sub_0_r in *.
    destruct (Z.ltb_spec (b + 255 - a) 512), (Z.leb_spec (a - 255) b),
      (Z.leb_spec b (a + 256)); cbn [andb]; try lia; try reflexivity.
    f_equal. destruct (Z.ltb_spec (b + 255 - a) 256), (Z.leb_spec b a);
      lia || reflexivity.
  - destruct (Z.ltb_spec (b + 255 - a - p * -1) 512);
      [unfold p in *; lia|].
    destruct (Z.leb_spec (a - 255) b); [unfold p in *; lia|]. reflexivity.
Qed.

Definition wellness_values_plain (priv : WellnessPrivate) (pub : WellnessPublic)
  : Prop :=
  0 ≤ mentalHealthScore priv ≤ p - 512 ∧ 0 ≤ minWellnessThreshold pub ≤ p - 512
  ∧ 0 ≤ sessionCount priv ≤ p - 512 ∧ 0 ≤ minSessionRequirement pub ≤ p - 512
  ∧ 0 ≤ consistencyDays priv ≤ p - 512 ∧ 0 ≤ minConsistencyDays pub ≤ p - 512
  ∧ 0 ≤ moodImprovementScore priv ≤ p - 512
  ∧ 0 ≤ minImprovementPercent pub ≤ p - 512.

(** X1.  The wellness-milestone circuit never reports a wrong
    [milestoneAchieved], also on inputs wider than 8 bits.  For
    non-negative inputs at least 512 below the field modulus it has a
    witness exactly when every threshold lies within [[v - 255, v + 256]]
    of the private value [v] it is compared with, and its output is then
    the AND of the four true comparisons; otherwise the circuit is
    unsatisfiable. *)
Theorem milestone_achieved_window
    (Poseidon : list Z → Z) (priv : WellnessPrivate) (pub : WellnessPublic) :
  wellness_values_plain priv pub →
  milestoneAchieved <$> WellnessMilestoneProof Poseidon priv pub
  = if in_window (mentalHealthScore priv) (minWellnessThreshold pub)
       && in_window (sessionCount priv) (minSessionRequirement pub)
       && in_window (consistencyDays priv) (minConsistencyDays pub)
       && in_window (moodImprovementScore priv) (minImprovementPercent pub)
    then Some (if (minWellnessThreshold pub <=? mentalHealthScore priv)
                  && (minSessionRequirement pub <=? sessionCount priv)
                  && (minConsistencyDays pub <=? consistencyDays priv)
                  && (minImprovementPercent pub <=? moodImprovementScore priv)
               then 1 else 0)
    else None.
Proof.
  intros (A1 & B1 & A2 & B2 & A3 & B3 & A4 & B4).
  rewrite WellnessMilestoneProof_achieved. unfold wellness_achieved.
  rewrite !GreaterEqThan_8_window by assumption.
  destruct (in_window (mentalHealthScore priv) _); [|reflexivity].
  destruct (in_window (sessionCount priv) _); [|reflexivity].
  destruct (in_window (consistencyDays priv) _); [|reflexivity].
  destruct (in_window (moodImprovementScore priv) _); [|reflexivity].
  cbn [mbind option_bind andb]. f_equal.
  rewrite AND_gates by (case_match; auto).
  destruct (minWellnessThreshold pub <=? mentalHealthScore priv),
    (minSessionRequirement pub <=? sessionCount priv),
    (minConsistencyDays pub <=? consistencyDays priv),
    (minImprovementPercent pub <=? moodImprovementScore priv); reflexivity.
Qed.

(** A score of 1000 against a threshold of 80: no proof can be made. *)
Lemma milestone_achieved_window_witness :
  wellness_values_plain (scenarioA_private 1000 7 [] []) (scenarioA_public 80 1 0)
  ∧ milestoneAchieved <$>
      WellnessMilestoneProof (fun _ => 0) (scenarioA_private 1000 7 [] [])
                             (scenarioA_public 80 1 0) = None.
Proof.
  assert (wellness_values_plain (scenarioA_private 1000 7 [] [])
                                (scenarioA_public 80 1 0)) as H
    by (unfold wellness_values_plain, p; simpl; lia).
  split; [exact H|].
  exact (milestone_achieved_window (fun _ => 0) _ _ H).
Defined.

(** *** The peer-support circuit *)

(** The three bits of the peer-support circuit and their product. *)
Lemma peer_gates c1 c2 c3 :
  (c1 = 0 ∨ c1 = 1) → (c2 = 0 ∨ c2 = 1) → (c3 = 0 ∨ c3 = 1) →
  fmul (AND c1 c2) c3 = if (c1 =? 1) && (c2 =? 1) && (c3 =? 1) then 1 else 0.
Proof. intros [-> | ->] [-> | ->] [-> | ->]; vm_compute; reflexivity. Qed.

Definition peer_inputs_8bit (priv : PeerPrivate) (pub : PeerPublic) : Prop :=
  0 ≤ supporterExperience priv < 256 ∧ 0 ≤ minExperienceRequired pub < 256
  ∧ 0 ≤ supporterWellnessScore priv < 256 ∧ 0 ≤ minWellnessForSupport pub < 256
  ∧ 0 ≤ supportQualityThreshold pub < 256.

(** X2.  On 8-bit inputs and a 20-entry history whose strictly positive
    entries have an integer mean below 256, the peer-support circuit has
    a witness: [supportQualityScore] is that mean, and
    [canProvideSupport] is 1 exactly when experience, wellness and the
    mean all reach their minimum. *)
Theorem peer_support_eligibility
    (Poseidon : list Z → Z) (priv : PeerPrivate) (pub : PeerPublic) (mean : Z) :
  peer_inputs_8bit priv pub →
  length (supportHistory priv) = 20%nat →
  positive_entries (supportHistory priv) ≠ [] →
  0 ≤ mean < 256 →
  sum_list (positive_entries (supportHistory priv))
  = mean * Z.of_nat (length (positive_entries (supportHistory priv))) →
  PeerSupportVerification Poseidon priv pub
  = Some {| canProvideSupport :=
              if (minExperienceRequired pub <=? supporterExperience priv)
                 && (minWellnessForSupport pub <=? supporterWellnessScore priv)
                 && (supportQualityThreshold pub <=? mean)
              then 1 else 0;
            supportQualityScore := mean;
            anonymousCredential :=
              Poseidon [supporterExperience priv; mean;
                        supporterWellnessScore priv; supporterPrivateKey priv] |}.
Proof.
  intros (A1 & B1 & A2 & B2 & B3) Hlen Hne Hmean Hsum.
  destruct (quality_is_average_of_positive_entries _ Hlen Hne) as (_ & _ & Hq).
  assert (SupportQualityCalculator 20 (supportHistory priv) = mean) as Hquality
    by (apply Hq; [unfold p; lia | exact Hsum]).
  unfold PeerSupportVerification. rewrite Hquality.
  rewrite !GreaterEqThan_8_range by assumption.
  cbn [mbind option_bind]. f_equal. f_equal.
  rewrite peer_gates by (case_match; auto).
  destruct (minExperienceRequired pub <=? supporterExperience priv),
    (minWellnessForSupport pub <=? supporterWellnessScore priv),
    (supportQualityThreshold pub <=? mean); reflexivity.
Qed.

Definition steady_supporter (history : list Z) : PeerPrivate :=
  {| supporterExperience := 5; supporterWellnessScore := 80;
     supportHistory := history; supporterPrivateKey := 7 |}.

Definition usual_requirements : PeerPublic :=
  {| minExperienceRequired := 2; minWellnessForSupport := 60;
     supportQualityThreshold := 4 |}.

Lemma peer_support_eligibility_witness :
  PeerSupportVerification (fun _ => 0)
    (steady_supporter ([4; 6] ++ repeat 0 18)) usual_requirements
  = Some {| canProvideSupport := 1; supportQualityScore := 5;
            anonymousCredential := 0 |}.
Proof.
  apply (peer_support_eligibility (fun _ => 0)
           (steady_supporter ([4; 6] ++ repeat 0 18)) usual_requirements 5).
  - unfold peer_inputs_8bit. simpl. lia.
  - reflexivity.
  - vm_compute. discriminate.
  - lia.
  - vm_compute. reflexivity.
Defined.

(** A quotient that is not an integer is a field element far above the
    comparator's range. *)
Lemma fractional_quality_out_of_range q k S thr :
  1 ≤ k ≤ 20 → 0 ≤ S ≤ 255 * k → 0 ≤ q < p →
  (q * k) mod p = S → ¬ (k | S) → 0 ≤ thr < 256 →
  512 ≤ (thr + 255 - q) mod p.
Proof.
  intros Hk HS Hq Hmod Hnd Hthr.
  assert (q * k = S → False) as Hne
    by (intros E; apply Hnd; exists q; lia).
  assert (∃ n : nat, (n < 20)%nat ∧ k = Z.of_nat n + 1) as (n & Hn & ->)
    by (exists (Z.to_nat (k - 1)); lia).
  clear Hk Hnd. revert Hmod Hne HS.
  do 20 (destruct n as [|n];
         [cbn [Z.of_nat Pos.of_succ_nat Pos.succ Z.add Pos.add];
          intros Hmod Hne HS; unfold p in *;
          Z.div_mod_to_equations; lia |]).
  lia.
Qed.

Lemma positive_entries_sum_bound inputs :
  Forall (fun x => 0 ≤ x < 256) inputs →
  0 ≤ sum_list (positive_entries inputs)
    ≤ 255 * Z.of_nat (length (positive_entries inputs)).
Proof.
  unfold positive_entries.
  induction 1 as [|x l Hx _ IH]; [cbn; lia|].
  rewrite filter_cons. case_decide; [|exact IH].
  rewrite sum_list_cons. cbn [length]. lia.
Qed.

Lemma fractional_quality_check q k S thr :
  1 ≤ k ≤ 20 → 0 ≤ S ≤ 255 * k → 0 ≤ q < p →
  fmul q k = Fr S → ¬ (k | S) → 0 ≤ thr < 256 →
  GreaterEqThan 8 q thr = None.
Proof.
  intros Hk HS Hq Hmul Hnd Hthr.
  rewrite GreaterEqThan_8. cbv zeta.
  unfold fmul, Fr in Hmul. rewrite (Z.mod_small S) in Hmul by (unfold p; lia).
  pose proof (fractional_quality_out_of_range q k S thr Hk HS Hq Hmul Hnd Hthr).
  destruct (Z.ltb_spec ((thr + 255 - q) mod p) 512); [lia | reflexivity].
Qed.

Lemma quality_in_field inputs : 0 ≤ SupportQualityCalculator 20 inputs < p.
Proof.
  unfold SupportQualityCalculator.
  destruct (quality_loop 20 inputs) as [t v].
  rewrite fdiv_eq. generalize (finv v). intros i.
  unfold fmul. apply Z.mod_pos_bound. reflexivity.
Qed.

(** X3.  The peer-support circuit cannot be satisfied when the mean of
    the strictly positive entries is not an integer: for a 20-entry
    history of 8-bit values whose positive entries have a sum that their
    count does not divide, and an 8-bit quality threshold, no witness
    exists, whatever the other inputs are. *)
Theorem peer_support_fractional_mean_unsatisfiable
    (Poseidon : list Z → Z) (priv : PeerPrivate) (pub : PeerPublic) :
  length (supportHistory priv) = 20%nat →
  Forall (fun x => 0 ≤ x < 256) (supportHistory priv) →
  positive_entries (supportHistory priv) ≠ [] →
  ¬ (Z.of_nat (length (positive_entries (supportHistory priv)))
     | sum_list (positive_entries (supportHistory priv))) →
  0 ≤ supportQualityThreshold pub < 256 →
  PeerSupportVerification Poseidon priv pub = None.
Proof.
  intros Hlen Hbits Hne Hnd Hthr.
  pose proof (positive_entries_count _ Hlen Hne) as Hk.
  pose proof (positive_entries_sum_bound _ Hbits) as HS.
  destruct (quality_is_average_of_positive_entries _ Hlen Hne) as (_ & Hmul & _).
  pose proof (quality_in_field (supportHistory priv)) as Hrange.
  pose proof (fractional_quality_check _ _ _ _ Hk HS Hrange Hmul Hnd Hthr) as Hcheck.
  unfold PeerSupportVerification. cbv zeta. rewrite Hcheck.
  destruct (GreaterEqThan 8 (supporterExperience priv) _); [|reflexivity].
  destruct (GreaterEqThan 8 (supporterWellnessScore priv) _); reflexivity.
Qed.

Lemma peer_support_fractional_mean_unsatisfiable_witness :
  PeerSupportVerification (fun _ => 0)
    (steady_supporter ([4; 3] ++ repeat 0 18)) usual_requirements = None.
Proof.
  apply (peer_support_fractional_mean_unsatisfiable (fun _ => 0)
           (steady_supporter ([4; 3] ++ repeat 0 18)) usual_requirements).
  - reflexivity.
  - simpl. repeat constructor; lia.
  - vm_compute. discriminate.
  - change (¬ (2 | 7)). intros [z Hz]. lia.
  - simpl. lia.
Defined.

(** *** The statistical helper templates *)

Lemma fdiv_cancel a k : fmul (finv k) k = 1 → fmul (fdiv a k) k = Fr a.
Proof.
  rewrite fdiv_eq. generalize (finv k). intros i Hinv.
  unfold fmul, Fr in *.
  rewrite Zmult_mod_idemp_l, <- Z.mul_assoc, <- Zmult_mod_idemp_r, Hinv.
  by rewrite Z.mul_1_r.
Qed.

Lemma fdiv_multiple m k : fmul (finv k) k = 1 → fdiv (Fr (m * k)) k = Fr m.
Proof.
  rewrite fdiv_eq. generalize (finv k). intros i Hinv.
  unfold fmul, Fr in *.
  rewrite Zmult_mod_idemp_l, <- Z.mul_assoc, (Z.mul_comm k), <- Zmult_mod_idemp_r, Hinv.
  by rewrite Z.mul_1_r.
Qed.

Lemma finv_29 : fmul (finv 29) 29 = 1.
Proof. vm_compute. reflexivity. Qed.

Lemma finv_30 : fmul (finv 30) 30 = 1.
Proof. vm_compute. reflexivity. Qed.

Lemma finv_67425 : fmul (finv 67425) 67425 = 1.
Proof. vm_compute. reflexivity. Qed.

Lemma fold_fadd l s : fold_left fadd l (Fr s) = Fr (s + sum_list l).
Proof.
  revert s. induction l as [|x l IH]; intros s.
  - cbn. by rewrite Z.add_0_r.
  - cbn [fold_left]. unfold fadd at 2, Fr at 1. rewrite Zplus_mod_idemp_l.
    fold (Fr (s + x)). rewrite IH, sum_list_cons. f_equal. lia.
Qed.

(** X4.  [Average(30)] of a 30-entry list is the sum divided by 30 in
    the field: multiplied back by 30 it gives the sum, and it is the
    integer mean whenever 30 divides the sum. *)
Theorem Average_is_mean (inputs : list Z) :
  length inputs = 30%nat →
  fmul (Average 30 inputs) 30 = Fr (sum_list inputs)
  ∧ ∀ mean, 0 ≤ mean < p → sum_list inputs = mean * 30 →
            Average 30 inputs = mean.
Proof.
  intros Hlen.
  assert (Average 30 inputs = fdiv (Fr (sum_list inputs)) 30) as Havg.
  { unfold Average. change (Fr (Z.of_nat 30)) with 30. f_equal.
    rewrite <- Hlen, (fold_left_seq_nth fadd).
    apply (fold_fadd inputs 0). }
  rewrite Havg. split.
  - rewrite (fdiv_cancel _ _ finv_30). unfold Fr. by rewrite Zmod_mod.
  - intros mean Hm ->. rewrite (fdiv_multiple _ _ finv_30). by apply Z.mod_small.
Qed.

Lemma Average_is_mean_witness :
  fmul (Average 30 (repeat 50 30)) 30 = Fr (sum_list (repeat 50 30))
  ∧ ∀ mean, 0 ≤ mean < p → sum_list (repeat 50 30) = mean * 30 →
            Average 30 (repeat 50 30) = mean.
Proof. apply (Average_is_mean (repeat 50 30)). reflexivity. Defined.

Lemma frequency_gaps inputs m :
  fold_left (fun totalGaps i =>
               fadd totalGaps (fsub (nth i inputs 0) (nth (i - 1) inputs 0)))
            (seq 1 m) 0
  = Fr (nth m inputs 0 - nth 0 inputs 0).
Proof.
  induction m as [|m IH].
  - cbn. by rewrite Z.sub_diag.
  - rewrite seq_S, fold_left_app, IH. cbn [fold_left].
    replace (1 + m - 1)%nat with m by lia. change (1 + m)%nat with (S m).
    unfold fadd, fsub, Fr. rewrite Zplus_mod_idemp_l, Zplus_mod_idemp_r.
    f_equal. lia.
Qed.

(** X5.  The gaps that [FrequencyAnalyzer(30)] adds up telescope: its
    output times 29 is the last timestamp minus the first, whatever the
    timestamps in between are, and it is the integer (last - first) / 29
    whenever 29 divides that difference. *)
Theorem FrequencyAnalyzer_telescopes (inputs : list Z) :
  fmul (FrequencyAnalyzer 30 inputs) 29
  = Fr (nth 29 inputs 0 - nth 0 inputs 0)
  ∧ ∀ gap, 0 ≤ gap < p → nth 29 inputs 0 - nth 0 inputs 0 = gap * 29 →
           FrequencyAnalyzer 30 inputs = gap.
Proof.
  assert (FrequencyAnalyzer 30 inputs
          = fdiv (Fr (nth 29 inputs 0 - nth 0 inputs 0)) 29) as Hfreq.
  { unfold FrequencyAnalyzer. change (Fr (Z.of_nat 30 - 1)) with 29.
    change (30 - 1)%nat with 29%nat. by rewrite frequency_gaps. }
  rewrite Hfreq. split.
  - rewrite (fdiv_cancel _ _ finv_29). unfold Fr. by rewrite Zmod_mod.
  - intros gap Hg ->. rewrite (fdiv_multiple _ _ finv_29). by apply Z.mod_small.
Qed.

(** The sum of [f 0], ..., [f (n - 1)]. *)
Fixpoint sum_to (n : nat) (f : nat → Z) : Z :=
  match n with
  | O => 0
  | S n' => sum_to n' f + f n'
  end.

Lemma sum_to_ext n f g :
  (∀ i, (i < n)%nat → f i = g i) → sum_to n f = sum_to n g.
Proof.
  induction n as [|n IH]; intros H; [reflexivity|].
  cbn [sum_to]. rewrite IH, H by (intros; auto with lia). reflexivity.
Qed.

Lemma trend_sums moodData n :
  fold_left (fun '(sumX, sumY, sumXY, sumXX) i =>
               let fi := Fr (Z.of_nat i) in
               (fadd sumX fi,
                fadd sumY (nth i moodData 0),
                fadd sumXY (fmul fi (nth i moodData 0)),
                fadd sumXX (fmul fi fi)))
            (seq 0 n) (0, 0, 0, 0)
  = (Fr (sum_to n (fun i => Z.of_nat i)),
     Fr (sum_to n (fun i => nth i moodData 0)),
     Fr (sum_to n (fun i => Z.of_nat i * nth i moodData 0)),
     Fr (sum_to n (fun i => Z.of_nat i * Z.of_nat i))).
Proof.
  induction n as [|n IH]; [reflexivity|].
  rewrite seq_S, fold_left_app, IH. cbn [fold_left sum_to Nat.add].
  cbv zeta. f_equal; [f_equal; [f_equal|]|]; unfold fadd, fmul, Fr.
  - by rewrite <- Zplus_mod.
  - by rewrite Zplus_mod_idemp_l.
  - by rewrite Zmult_mod_idemp_l, Zplus_mod_idemp_l, Zplus_mod_idemp_r.
  - by rewrite <- Zmult_mod, Zplus_mod_idemp_l, Zplus_mod_idemp_r.
Qed.

Lemma field_difference_of_products a b c d :
  fsub (fmul (Fr a) (Fr b)) (fmul (Fr c) (Fr d)) = Fr (a * b - c * d).
Proof.
  unfold fsub, fmul, Fr. rewrite <- !Zmult_mod, <- Zminus_mod. reflexivity.
Qed.

(** X6.  [TrendAnalysis(30)] returns the slope of the regression line:
    for mood data that lie on a line, [moodData[i] = c + m * i], the
    improvement trend is [m] as a field element (a declining series
    gives [p - |m|]); a constant series has trend 0.  The divisor is the
    constant 67425, so the division is always defined. *)
Theorem TrendAnalysis_slope (moodData timeData : list Z) (c m : Z) :
  (∀ i, (i < 30)%nat → nth i moodData 0 = c + m * Z.of_nat i) →
  TrendAnalysis 30 moodData timeData = Fr m.
Proof.
  intros Hline. unfold TrendAnalysis. rewrite trend_sums.
  rewrite (sum_to_ext 30 (fun i => nth i moodData 0)
             (fun i => c + m * Z.of_nat i)) by exact Hline.
  rewrite (sum_to_ext 30 (fun i => Z.of_nat i * nth i moodData 0)
             (fun i => Z.of_nat i * (c + m * Z.of_nat i)))
    by (intros i Hi; by rewrite Hline).
  change (Fr (Z.of_nat 30)) with (Fr 30).
  rewrite !field_difference_of_products.
  replace (30 * sum_to 30 (λ i, Z.of_nat i * (c + m * Z.of_nat i))
           - sum_to 30 (λ i, Z.of_nat i) * sum_to 30 (λ i, c + m * Z.of_nat i))
    with (m * 67425) by (cbn [sum_to]; lia).
  replace (30 * sum_to 30 (λ i, Z.of_nat i * Z.of_nat i)
           - sum_to 30 (λ i, Z.of_nat i) * sum_to 30 (λ i, Z.of_nat i))
    with 67425 by reflexivity.
  change (Fr 67425) with 67425.
  apply (fdiv_multiple _ _ finv_67425).
Qed.

Definition rising_moods : list Z := map (fun i => 50 + 2 * Z.of_nat i) (seq 0 30).

Lemma TrendAnalysis_slope_witness :
  TrendAnalysis 30 rising_moods [] = Fr 2.
Proof.
  apply (TrendAnalysis_slope rising_moods [] 50 2).
  intros i Hi.
  do 30 (destruct i as [|i]; [reflexivity|]). lia.
Defined.

End CircomExtra.

(** ** Further properties of the proof service *)

Module ZKServiceExtra.

Import Js ZKService ZKServiceSpec ZKLoading.
Local Open Scope string_scope.

#[local] Set Warnings "-clear-no-such-hyp".

(** *** The proof cache *)

Lemma verifyProof_keys R S S' circuitName proof publicSignals :
  verificationKeys S' = verificationKeys S →
  verifyProof R S' circuitName proof publicSignals
  = verifyProof R S circuitName proof publicSignals.
Proof. intros H. unfold verifyProof. by rewrite H. Qed.

(** Every cached proof is marked valid and passes [verifyProof] against
    the verification key of the wellness circuit. *)
Definition cache_verified (R : Runtime) (S : Service) : Prop :=
  ∀ key zkProof expires,
    proofCache S !! key = Some (zkProof, expires) →
    WellnessZKProof.isValid zkProof = true
    ∧ verifyProof R S "wellness_milestone" (WellnessZKProof.proof zkProof)
                  (WellnessZKProof.publicSignals zkProof) = inr true.

Lemma ProofCache_get_Some (cache : gmap string (WellnessZKProof.t * Z)) key now v :
  ProofCache_get cache key now = Some v →
  ∃ expires, cache !! key = Some (v, expires) ∧ (now < expires)%Z.
Proof.
  unfold ProofCache_get. destruct (cache !! key) as [[v' expires]|]; [|done].
  destruct (Z.ltb_spec now expires); [|done]. intros [= ->]. by exists expires.
Qed.


(** X7.  The proof cache only ever holds verified proofs.  If every
    cached proof is marked valid and passes [verifyProof], the same is
    true after a call to [generateWellnessMilestoneProof], and the proof
    the call returns, cached or fresh, is marked valid and passes
    [verifyProof] against the wellness verification key. *)
Theorem wellness_cache_stays_verified
    (R : Runtime) (t : Times) (S : Service)
    (privateInputs publicInputs : JsObject) :
  cache_verified R S →
  cache_verified R
    (await S (generateWellnessMilestoneProof R t S privateInputs publicInputs)).2
  ∧ ∀ zkProof,
      (await S (generateWellnessMilestoneProof R t S privateInputs publicInputs)).1
      = inr zkProof →
      WellnessZKProof.isValid zkProof = true
      ∧ verifyProof R S "wellness_milestone" (WellnessZKProof.proof zkProof)
                    (WellnessZKProof.publicSignals zkProof) = inr true.
Proof.
  intros Hinv.
  destruct (generateWellnessMilestoneProof_cases R t S privateInputs publicInputs)
    as [(cached & Hget & Hout) | [(zkProof & Hget & _ & Hout) | (cause & Hget & Hout)]];
    rewrite Hout; cbn [await fst snd fold_left].
  - split; [exact Hinv|]. intros zk [= <-].
    apply ProofCache_get_Some in Hget as (expires & Hlook & _).
    by eapply Hinv.
  - destruct (wellness_proof_is_self_verified R t S privateInputs publicInputs
                zkProof _ Hget Hout) as [Hv Hvalid].
    split.
    + intros key zk expires. unfold write, ProofCache_set.
      cbn [proofCache ZKService.key value ttlSeconds written].
      rewrite lookup_insert. case_decide as Hkey.
      * intros [= <- _]. split; [exact Hvalid|].
        by rewrite (verifyProof_keys R S).
      * intros Hlook. destruct (Hinv key zk expires Hlook) as [H1 H2].
        split; [exact H1|]. by rewrite (verifyProof_keys R S).
    + intros zk [= <-]. by split.
  - split; [exact Hinv|]. intros zk [=].
Qed.

Lemma wellness_cache_stays_verified_witness :
  cache_verified (sample_runtime true) loaded_service
  ∧ cache_verified (sample_runtime true)
      (await loaded_service
         (generateWellnessMilestoneProof (sample_runtime true) sample_times
            loaded_service [] [])).2.
Proof.
  assert (cache_verified (sample_runtime true) loaded_service) as H.
  { intros key zk expires Hlook. cbn in Hlook. by rewrite lookup_empty in Hlook. }
  split; [exact H|].
  exact (proj1 (wellness_cache_stays_verified (sample_runtime true) sample_times
                  loaded_service [] [] H)).
Defined.



(** The second call is made half an hour after the first. *)
Definition half_an_hour_later : Times :=
  {| asked := 1700001800000; stamped := 1700001800250; stored := 1700001800300 |}.


(** A runtime whose [JSON.stringify] writes the property names of the
    two objects in their order. *)
Definition naming_runtime : Runtime :=
  {| groth16_fullProve := fun _ _ _ => inr (sample_proof, ["1"; "40"; "777"]);
     groth16_verify := fun _ _ _ => inr true;
     JSON_stringify := fun circuitName privateInputs publicInputs =>
       circuitName +:+ String.concat "," (map fst (privateInputs ++ publicInputs)%list);
     sha256_hex := fun data => data |}.

(** The fingerprint is taken of the objects as they are written: after
    a call with the properties [a] and [b] in this order, a call
    half an hour later with the same properties in the other order is
    not answered from the cache. *)
Example reordered_properties_miss_the_cache :
  let ab := [ ("a", JsNumber 1); ("b", JsNumber 2) ] in
  let ba := [ ("b", JsNumber 2); ("a", JsNumber 1) ] in
  let S1 :=
    (await loaded_service
       (generateWellnessMilestoneProof naming_runtime sample_times
          loaded_service ab [])).2 in
  (∀ name, prop ab name = prop ba name)
  ∧ wellness_timestamp
      (await S1 (generateWellnessMilestoneProof naming_runtime
                   half_an_hour_later S1 ab [])).1
    = Some 1700000000250%Z
  ∧ wellness_timestamp
      (await S1 (generateWellnessMilestoneProof naming_runtime
                   half_an_hour_later S1 ba [])).1
    = Some 1700001800250%Z.
Proof.
  cbv zeta. split; [|split; vm_compute; reflexivity].
  intros name. cbn. repeat case_bool_decide; congruence.
Qed.

(** *** Failures *)

(** X9.  Failures of the two generation functions are reported under
    their own heading and leave no trace.  An error thrown by
    [generateWellnessMilestoneProof] has a message that starts with
    "Failed to generate wellness milestone proof: " and the service,
    cache included, is as before the call; an error thrown by
    [generatePeerSupportProof] has a message that starts with "Failed to
    generate peer support proof: ". *)
Theorem generation_failures_are_wrapped
    (R : Runtime) (t : Times) (S : Service)
    (privateInputs publicInputs : JsObject) :
  (∀ e, (await S (generateWellnessMilestoneProof R t S privateInputs publicInputs)).1
        = inl e →
        (∃ cause, message e
                  = "Failed to generate wellness milestone proof: " +:+ cause)
        ∧ (await S (generateWellnessMilestoneProof R t S privateInputs publicInputs)).2
          = S)
  ∧ (∀ e, generatePeerSupportProof R t S privateInputs publicInputs = inl e →
          ∃ cause, message e = "Failed to generate peer support proof: " +:+ cause).
Proof.
  split.
  - intros e.
    destruct (generateWellnessMilestoneProof_cases R t S privateInputs publicInputs)
      as [(cached & _ & Hout) | [(zk & _ & _ & Hout) | (cause & _ & Hout)]];
      rewrite Hout; cbn [await fst snd fold_left]; intros [= <-].
    split; [by exists (message cause) | reflexivity].
  - intros e. unfold generatePeerSupportProof, try_catch, throw.
    match goal with |- context [match ?a with inl _ => _ | inr _ => _ end] =>
      destruct a as [cause|proof] end; intros [= <-].
    by exists (message cause).
Qed.

(** *** Independence inside a batch *)

(** X10.  A request that is not a wellness-milestone request gets, in a
    batch, exactly the result it gets alone: its result record is the
    outcome of dispatching it on the service as it was before the batch,
    whatever the other requests of the batch are and however they end. *)
Theorem batch_result_of_uncached_request
    (R : Runtime) (times : nat → Times) (schedule : list nat) (S : Service)
    (proofRequests : list BatchProofRequest.t) :
  ∃ results,
    (generateBatchProofs R times schedule S proofRequests).1 = inr results
    ∧ length results = length proofRequests
    ∧ ∀ i request,
        proofRequests !! i = Some request →
        BatchProofRequest.type request ≠ "wellness_milestone" →
        results !! i
        = Some (result_of request (dispatch R (times i) S request).1).
Proof.
  rewrite generateBatchProofs_results. eexists. split; [reflexivity|].
  split; [unfold own_results; by rewrite length_imap|].
  intros i request Hi _. by rewrite own_results_lookup, Hi.
Qed.

(** *** Loading *)

(** The configurations that load, up to the first one that does not. *)
Fixpoint loadable_prefix (L : Loaders) (configs : list CircuitConfig)
  : list CircuitConfig :=
  match configs with
  | [] => []
  | config :: rest =>
      match load_artifacts L config with
      | inr _ => config :: loadable_prefix L rest
      | inl _ => []
      end
  end.

Lemma loadCircuit_outcome L S config :
  match load_artifacts L config with
  | inr (circuit, vkey) =>
      loadCircuit L S config
      = (inr tt,
         {| circuits := <[name config := circuit]> (circuits S);
            verificationKeys := <[name config := vkey]> (verificationKeys S);
            proofCache := proofCache S |})
  | inl error => loadCircuit L S config = (inl error, S)
  end.
Proof.
  unfold loadCircuit, try_catch.
  destruct (load_artifacts L config) as [error|[circuit vkey]]; reflexivity.
Qed.

Lemma loadCircuits_domains L configs S :
  dom (circuits (loadCircuits L S configs).2)
  =@{gset string} dom (circuits S) ∪ list_to_set (name <$> loadable_prefix L configs)
  ∧ dom (verificationKeys (loadCircuits L S configs).2)
    =@{gset string} dom (verificationKeys S)
                    ∪ list_to_set (name <$> loadable_prefix L configs)
  ∧ ((loadCircuits L S configs).1 = inr tt ↔ loadable_prefix L configs = configs).
Proof.
  revert S. induction configs as [|config rest IH]; intros S.
  - cbn. split; [set_solver|]. split; [set_solver | done].
  - cbn [loadCircuits loadable_prefix].
    pose proof (loadCircuit_outcome L S config) as Hout.
    destruct (load_artifacts L config) as [error|[circuit vkey]]; rewrite Hout.
    + cbn. split; [set_solver|]. split; [set_solver | done].
    + destruct (IH {| circuits := <[name config := circuit]> (circuits S);
                      verificationKeys := <[name config := vkey]> (verificationKeys S);
                      proofCache := proofCache S |})
        as (Hc & Hk & Hr).
      rewrite Hc, Hk. cbn [circuits verificationKeys fmap list_fmap list_to_set].
      rewrite !dom_insert_L. split; [set_solver|]. split; [set_solver|].
      rewrite Hr. split; [by intros -> | by intros [= ->]].
Qed.

(** X11.  One circuit that fails to load stops the initialization.  The
    constructor registers exactly the configured circuits that come
    before the first one whose artifacts fail to load, each with both
    its proving artifacts and its verification key; the circuits listed
    after the failing one are not registered, even if their artifacts
    would load.  The initialization succeeds exactly when all four
    circuits load. *)
Theorem initialization_stops_at_first_failure (L : Loaders) :
  dom (circuits (constructor L).2)
  =@{gset string} list_to_set (name <$> loadable_prefix L circuitConfigs)
  ∧ dom (verificationKeys (constructor L).2)
    =@{gset string} list_to_set (name <$> loadable_prefix L circuitConfigs)
  ∧ ((constructor L).1 = inr tt
     ↔ loadable_prefix L circuitConfigs = circuitConfigs).
Proof.
  unfold constructor, initializeCircuits.
  destruct (loadCircuits_domains L circuitConfigs
              {| circuits := ∅; verificationKeys := ∅; proofCache := ∅ |})
    as (Hc & Hk & Hr).
  rewrite Hc, Hk. cbn [circuits verificationKeys].
  rewrite !dom_empty_L. split; [set_solver|]. split; [set_solver | exact Hr].
Qed.

(** Loaders that find every artifact except those of [peer_support]. *)
Definition loaders_without_peer_support : Loaders :=
  {| CircuitWasmLoader_load := fun path =>
       if bool_decide (path = "./circuits/peer_support.wasm")
       then throw "ENOENT: no such file" else inr path;
     ZkeyLoader_load := fun path => inr path;
     readFileSync := fun path => inr path;
     JSON_parse := fun text => inr {| vkey_json := text |} |}.

(** With the artifacts of [peer_support] missing, only
    [wellness_milestone] is registered. *)
Example initialization_without_peer_support :
  (constructor loaders_without_peer_support).1
  = inl {| message := "ENOENT: no such file" |}
  ∧ dom (circuits (constructor loaders_without_peer_support).2)
    =@{gset string} {[ "wellness_milestone" ]}.
Proof.
  split; [vm_compute; reflexivity|].
  unfold constructor, initializeCircuits.
  rewrite (proj1 (loadCircuits_domains _ _ _)). cbn. set_solver.
Qed.

End ZKServiceExtra.

(** ** Further properties of the analytics engine *)

Module AnalyticsExtra.

Import Js JsFacts Analytics AnalyticsSpec Gradients.
Local Open Scope Z_scope.

(** *** The order of the entries *)

Definition prod_list (l : list Z) : Z := fold_right Z.mul 1 l.

Lemma prod_list_cons x l : prod_list (x :: l) = x * prod_list l.
Proof. reflexivity. Qed.

Lemma prod_list_perm l l' : l ≡ₚ l' → prod_list l = prod_list l'.
Proof.
  induction 1 as [|x l l' _ IH|x y l|l1 l2 l3 _ IH1 _ IH2].
  - reflexivity.
  - by rewrite !prod_list_cons, IH.
  - rewrite !prod_list_cons. lia.
  - congruence.
Qed.

Lemma fold_addition_rem pk cs x :
  fold_left (Paillier.addition pk) cs (Z.rem x (Paillier.n2 pk))
  = Z.rem (x * prod_list cs) (Paillier.n2 pk).
Proof.
  revert x. induction cs as [|c cs IH]; intros x.
  - cbn. by rewrite Z.mul_1_r.
  - cbn [fold_left]. rewrite prod_list_cons. unfold Paillier.addition at 2.
    rewrite Z.mul_1_l, Zrem_rem, Zmult_rem_idemp_l, IH. f_equal. lia.
Qed.

(** With two entries or more, a running total is the product of the
    ciphertexts, reduced modulo [n^2]. *)
Lemma fold_addition_product pk c0 c1 cs :
  fold_left (Paillier.addition pk) (c1 :: cs) c0
  = Z.rem (prod_list (c0 :: c1 :: cs)) (Paillier.n2 pk).
Proof.
  cbn [fold_left]. unfold Paillier.addition at 2.
  rewrite Z.mul_1_l, Zmult_rem_idemp_l, fold_addition_rem.
  rewrite !prod_list_cons. f_equal. lia.
Qed.

(** The five totals and the number of entries are all that the result
    depends on. *)
Definition totals (pk : Paillier.PublicKey)
    (encryptedMetrics : list EncryptedUserMetrics.t) : Z * Z * Z * Z * Z :=
  match encryptedMetrics with
  | [] => (0, 0, 0, 0, 0)
  | first :: rest => aggregation_loop pk first rest
  end.

Lemma aggregate_from_totals paillier now ms ms' :
  length ms = length ms' →
  totals (publicKey paillier) ms = totals (publicKey paillier) ms' →
  aggregateEncryptedMetrics paillier now ms
  = aggregateEncryptedMetrics paillier now ms'.
Proof.
  destruct ms as [|m ms], ms' as [|m' ms']; try done.
  cbn [totals]. intros Hlen Htot. unfold aggregateEncryptedMetrics.
  rewrite Htot, Hlen. reflexivity.
Qed.

Lemma totals_perm pk ms ms' : ms ≡ₚ ms' → totals pk ms = totals pk ms'.
Proof.
  intros Hperm.
  destruct ms as [|a [|b ms]].
  - apply Permutation_nil_l in Hperm as ->. reflexivity.
  - apply Permutation_singleton_l in Hperm as ->. reflexivity.
  - destruct ms' as [|a' [|b' ms']].
    + by apply Permutation_nil_r in Hperm.
    + by apply Permutation_singleton_r in Hperm.
    + cbn [totals]. rewrite !aggregation_loop_fields. cbn [map].
      rewrite !fold_addition_product.
      assert (∀ f : EncryptedUserMetrics.t → Z,
                prod_list (f a :: f b :: map f ms)
                = prod_list (f a' :: f b' :: map f ms')) as Hprod.
      { intros f. apply (prod_list_perm (map f (a :: b :: ms))
                                        (map f (a' :: b' :: ms'))).
        by apply Permutation_map. }
      by rewrite !Hprod.
Qed.

(** X12.  The aggregate does not depend on the order of the entries:
    two lists that are permutations of each other give the same result,
    the same error or the same totals, averages and decrypted
    ciphertexts. *)
Theorem aggregate_order_independent
    (paillier : PaillierKeys) (now : Z)
    (encryptedMetrics encryptedMetrics' : list EncryptedUserMetrics.t) :
  encryptedMetrics ≡ₚ encryptedMetrics' →
  aggregateEncryptedMetrics paillier now encryptedMetrics
  = aggregateEncryptedMetrics paillier now encryptedMetrics'.
Proof.
  intros Hperm. apply aggregate_from_totals.
  - by apply Permutation_length.
  - by apply totals_perm.
Qed.

Lemma aggregate_order_independent_witness :
  aggregateEncryptedMetrics keys15 0 mixed_entries
  = aggregateEncryptedMetrics keys15 0 (reverse mixed_entries).
Proof.
  apply (aggregate_order_independent keys15 0 mixed_entries (reverse mixed_entries)).
  symmetry. apply reverse_Permutation.
Defined.

(** *** A single entry *)

(** X13.  There is no minimum group size.  For a list with a single
    entry the ciphertexts handed to [decrypt] are that user's own five
    ciphertexts, and the result reports the user's own decrypted values
    as totals and, divided by 1, as averages. *)
Theorem aggregate_single_entry
    (paillier : PaillierKeys) (now : Z) (entry : EncryptedUserMetrics.t) :
  0 ≤ Paillier.lambda (privateKey paillier) →
  ∃ mood sessions engagement wellness crisis,
    Paillier.decrypt (privateKey paillier)
      (EncryptedUserMetrics.encryptedMoodScore entry) = inr mood
    ∧ Paillier.decrypt (privateKey paillier)
        (EncryptedUserMetrics.encryptedSessionCount entry) = inr sessions
    ∧ Paillier.decrypt (privateKey paillier)
        (EncryptedUserMetrics.encryptedEngagementTime entry) = inr engagement
    ∧ Paillier.decrypt (privateKey paillier)
        (EncryptedUserMetrics.encryptedWellnessScore entry) = inr wellness
    ∧ Paillier.decrypt (privateKey paillier)
        (EncryptedUserMetrics.encryptedCrisisEvents entry) = inr crisis
    ∧ aggregateEncryptedMetrics paillier now [entry]
      = (inr {| AggregatedMetrics.userCount := Finite 1;
                AggregatedMetrics.averageMoodScore := divide (Number mood) (Finite 1);
                AggregatedMetrics.totalSessions := Number sessions;
                AggregatedMetrics.averageEngagementTime :=
                  divide (Number engagement) (Finite 1);
                AggregatedMetrics.averageWellnessScore :=
                  divide (Number wellness) (Finite 1);
                AggregatedMetrics.totalCrisisEvents := Number crisis;
                AggregatedMetrics.aggregationTimestamp := now |},
         [ EncryptedUserMetrics.encryptedMoodScore entry;
           EncryptedUserMetrics.encryptedSessionCount entry;
           EncryptedUserMetrics.encryptedEngagementTime entry;
           EncryptedUserMetrics.encryptedWellnessScore entry;
           EncryptedUserMetrics.encryptedCrisisEvents entry ]).
Proof.
  intros Hl.
  destruct (decrypt_total (privateKey paillier)
              (EncryptedUserMetrics.encryptedMoodScore entry) Hl) as [s1 H1].
  destruct (decrypt_total (privateKey paillier)
              (EncryptedUserMetrics.encryptedSessionCount entry) Hl) as [s2 H2].
  destruct (decrypt_total (privateKey paillier)
              (EncryptedUserMetrics.encryptedEngagementTime entry) Hl) as [s3 H3].
  destruct (decrypt_total (privateKey paillier)
              (EncryptedUserMetrics.encryptedWellnessScore entry) Hl) as [s4 H4].
  destruct (decrypt_total (privateKey paillier)
              (EncryptedUserMetrics.encryptedCrisisEvents entry) Hl) as [s5 H5].
  exists s1, s2, s3, s4, s5. repeat (split; [assumption|]).
  exact (aggregate_decrypts paillier now entry [] _ _ _ _ _ _ _ _ _ _
           eq_refl H1 H2 H3 H4 H5).
Qed.

Lemma aggregate_single_entry_witness :
  ∃ r log,
    aggregateEncryptedMetrics keys15 0 (take 1 mixed_entries) = (inr r, log)
    ∧ log = [53; 34; 58; 2; 26].
Proof.
  destruct (aggregate_single_entry keys15 0 (entry_of "u1" 53 34 58 2 26))
    as (s1 & s2 & s3 & s4 & s5 & _ & _ & _ & _ & _ & H); [cbn; lia|].
  eexists _, _. split; [exact H | reflexivity].
Defined.

(** *** Encryption *)










(** A mood score of 3.5 is not encrypted: the call throws the error of
    [BigInt(3.5)]. *)
Example encryptUserMetrics_fractional_mood :
  ∃ error,
    BigInt (Finite (7 # 2)) = inl error
    ∧ encryptUserMetrics keys15 (draws_of 2 4 7 8 11)
        {| UserMentalHealthMetrics.userId := "u1";
           UserMentalHealthMetrics.moodScore := Finite (7 # 2);
           UserMentalHealthMetrics.sessionCount := Finite 1;
           UserMentalHealthMetrics.engagementTime := Finite 2;
           UserMentalHealthMetrics.wellnessScore := Finite 4;
           UserMentalHealthMetrics.crisisEvents := Finite 0;
           UserMentalHealthMetrics.timestamp := 1700000000000 |}
      = inl error.
Proof. eexists. split; reflexivity. Qed.

(** *** Noise on gradients *)









End AnalyticsExtra.
(** ** Reasoning about contract calls *)

Module EvmFacts.

Import Evm.

Local Open Scope string_scope.
Local Open Scope Z_scope.

Lemma bind_inr {A B} (m : Result A) (k : A → Result B) (b : B) :
  bind m k = inr b → ∃ a, m = inr a ∧ k a = inr b.
Proof. destruct m as [f|a]; [discriminate|]. intros H. by exists a. Qed.

Lemma require_inr (condition : bool) (reason : string) (u : unit) :
  require condition reason = inr u → condition = true.
Proof. by destruct condition. Qed.

(** Taking a successful run apart, statement by statement. *)
Ltac run :=
  repeat match goal with
  | H : bind _ _ = inr _ |- _ =>
      let x := fresh "x" in
      let E := fresh "E" in
      apply bind_inr in H as (x & E & H)
  | H : require _ _ = inr _ |- _ => apply require_inr in H
  | H : inl _ = inr _ |- _ => discriminate H
  | H : inr _ = inr _ |- _ => injection H as H
  | H : (_, _) = (_, _) |- _ => injection H as ? ?
  | H : (if ?b then _ else _) = inr _ |- _ => destruct b eqn:?
  | H : (let (_, _) := ?p in _) = inr _ |- _ => destruct p
  | H : _ = inr _ |- _ => progress cbv beta zeta in H
  end.

Lemma read_insert {K V} `{Countable K} (zero : V) (m : gmap K V) (i j : K) (x : V) :
  read zero (<[i := x]> m) j = if decide (i = j) then x else read zero m j.
Proof. unfold read. rewrite lookup_insert. by destruct (decide (i = j)). Qed.

Ltac bools :=
  repeat match goal with
  | H : negb _ = true |- _ => apply negb_true_iff in H
  | H : negb _ = false |- _ => apply negb_false_iff in H
  | H : _ && _ = true |- _ => apply andb_true_iff in H as [? ?]
  | H : (_ =? _)%N = true |- _ => apply N.eqb_eq in H
  | H : (_ =? _) = true |- _ => apply Z.eqb_eq in H
  | H : (_ =? _) = false |- _ => apply Z.eqb_neq in H
  | H : (_ <=? _) = true |- _ => apply Z.leb_le in H
  | H : (_ <=? _) = false |- _ => apply Z.leb_gt in H
  | H : (_ <? _) = true |- _ => apply Z.ltb_lt in H
  | H : (_ <? _) = false |- _ => apply Z.ltb_ge in H
  end.

Definition fails {A} (r : Result A) : Prop := ∃ failure, r = inl failure.

Lemma fails_bind {A B} (m : Result A) (k : A → Result B) :
  (∀ a, m = inr a → fails (k a)) → fails (bind m k).
Proof.
  intros Hk. destruct m as [failure|a]; [by exists failure|]. by apply Hk.
Qed.

End EvmFacts.
(** ** The data token contract: invariants *)

Module DataNFTExtra.

Import Evm EvmFacts MentalHealthDataNFT.

Local Open Scope string_scope.
Local Open Scope Z_scope.

Ltac fields :=
  unfold _exists in *;
  unfold token, _ownerOf, tokenized, tokens_of, licenses_of,
    hasRole, isApprovedForAll in *;
  cbn [_owners _tokenApprovals _operatorApprovals _tokenURIs _paused _roles
       _entered dataTokens researchLicenses userOwnedTokens dataHashToTokenId
       _tokenIdCounter zkVerifier balance
       with_owners with_tokenApprovals with_operatorApprovals with_tokenURIs
       with_paused with_roles with_entered with_dataTokens
       with_researchLicenses with_userOwnedTokens with_dataHashToTokenId
       with_tokenIdCounter with_balance
       dataHash creationTimestamp privacyLevel zkProof dataCategories
       isTransferable accessPermissions dataController authorizedViewers] in *.

(** The calls that a call's receiver makes back into the contract. *)
Definition callbacks (call : Call) : list (Msg * Call) :=
  match call with
  | MintDataNFT _ _ _ _ _ _ _ _ _ _ (Contract calls _)
  | SafeTransferFrom _ _ _ _ (Contract calls _) => calls
  | _ => []
  end.

Lemma Call_nested_ind (P : Call → Prop) :
  (∀ call, Forall (fun '(_, inner) => P inner) (callbacks call) → P call) →
  ∀ call, P call.
Proof.
  intros step. fix IH 1. intros call. apply step.
  destruct call; try (by constructor);
    (destruct receiver as [|calls reply]; [by constructor|]; cbn;
     induction calls as [|[msg' inner] calls IHcalls];
     constructor; [apply IH | exact IHcalls]).
Qed.

Section Contract.

Variable keccak256 : string → bytes32.
Variable verifyProof : Z * Z → (Z * Z) * (Z * Z) → Z * Z → list Z → bool.

#[local] Abbreviation exec := (exec keccak256 verifyProof).
#[local] Abbreviation reenter := (reenter keccak256 verifyProof).
#[local] Abbreviation received := (received keccak256 verifyProof).

Lemma exec_MintDataNFT now msg s to dataHash privacyLevel dataCategories
    zkProof pA pB pC publicSignals tokenURI receiver :
  exec now (MintDataNFT to dataHash privacyLevel dataCategories zkProof pA pB
              pC publicSignals tokenURI receiver) msg s
  = mintDataNFT keccak256 verifyProof (received now receiver) now msg s to
      dataHash privacyLevel dataCategories zkProof pA pB pC publicSignals
      tokenURI.
Proof. reflexivity. Qed.

Lemma exec_SafeTransferFrom now msg s from to tokenId data receiver :
  exec now (SafeTransferFrom from to tokenId data receiver) msg s
  = safeTransferFrom (received now receiver) msg s from to tokenId data.
Proof. reflexivity. Qed.

(** *** Invariants *)

(** What holds of the storage between and during transactions: token
    ids are handed out in order, exactly the handed-out ids have an
    owner, only they have token data, a transferable token has privacy level at most 3, the
    level of a token is between 1 and 5, and every token but the first
    is found under its data hash. *)
Record wf (s : State) : Prop := {
  wf_counter : 0 ≤ _tokenIdCounter s;
  wf_owned : ∀ id, _ownerOf s id ≠ 0 → 0 ≤ id < _tokenIdCounter s;
  wf_minted : ∀ id, 0 ≤ id < _tokenIdCounter s → _ownerOf s id ≠ 0;
  wf_written : ∀ id, is_Some (dataTokens s !! id) → 0 ≤ id < _tokenIdCounter s;
  wf_transferable :
    ∀ id, isTransferable (token s id) = true → privacyLevel (token s id) ≤ 3;
  wf_levels :
    ∀ id, 0 ≤ id < _tokenIdCounter s → 1 ≤ privacyLevel (token s id) ≤ 5;
  wf_hashes :
    ∀ id, 1 ≤ id < _tokenIdCounter s → tokenized s (dataHash (token s id)) = id;
  wf_tokenized :
    ∀ h, tokenized s h ≠ 0 →
         1 ≤ tokenized s h < _tokenIdCounter s
         ∧ dataHash (token s (tokenized s h)) = h;
}.

(** What a call can only push one way. *)
Record grows (s s' : State) : Prop := {
  grows_level : ∀ id, privacyLevel (token s id) ≤ privacyLevel (token s' id);
  grows_balance : balance s ≤ balance s';
  grows_owned : ∀ id, _ownerOf s id ≠ 0 → _ownerOf s' id ≠ 0;
  grows_counter : _tokenIdCounter s ≤ _tokenIdCounter s';
  grows_licenses : ∀ id, licenses_of s id `prefix_of` licenses_of s' id;
}.

Definition core (s : State) :=
  (_owners s, dataTokens s, dataHashToTokenId s, _tokenIdCounter s).

Lemma wf_core s s' : core s = core s' → wf s → wf s'.
Proof.
  destruct s, s'. unfold core. cbn. intros [= -> -> -> ->] [].
  by constructor.
Qed.

Lemma grows_refl s : grows s s.
Proof. by constructor. Qed.

Lemma grows_trans s t u : grows s t → grows t u → grows s u.
Proof.
  intros [] []. constructor; intros; try (etrans; eauto); eauto.
Qed.

Lemma grows_core s s' :
  core s = core s' → researchLicenses s = researchLicenses s' →
  balance s ≤ balance s' → grows s s'.
Proof.
  destruct s, s'. unfold core, licenses_of. cbn.
  intros [= -> -> -> ->] -> Hbalance. by constructor.
Qed.

Lemma kept s s' :
  core s = core s' → researchLicenses s = researchLicenses s' →
  balance s ≤ balance s' → wf s → wf s' ∧ grows s s'.
Proof.
  intros Hcore Hlicenses Hbalance Hwf.
  split; [by eapply wf_core | by apply grows_core].
Qed.

(** Rewriting the data of a token that has an owner. *)
Lemma token_update_safe s s' id d :
  wf s → _ownerOf s id ≠ 0 →
  _owners s' = _owners s →
  dataHashToTokenId s' = dataHashToTokenId s →
  _tokenIdCounter s' = _tokenIdCounter s →
  balance s' = balance s →
  researchLicenses s' = researchLicenses s →
  dataTokens s' = <[id := d]> (dataTokens s) →
  dataHash d = dataHash (token s id) →
  privacyLevel (token s id) ≤ privacyLevel d ≤ 5 →
  (isTransferable d = true → privacyLevel d ≤ 3) →
  wf s' ∧ grows s s'.
Proof.
  intros [] Hid Howners Hhashes Hcounter Hbalance Hlicenses Htokens Hhash Hlevel
    Htransfer.
  pose proof (wf_owned0 _ Hid) as Hrange.
  pose proof (wf_levels0 _ Hrange) as Hold.
  assert (∀ id', token s' id'
                 = if decide (id = id') then d else token s id') as Htoken.
  { intros id'. unfold token. rewrite Htokens. apply read_insert. }
  split; constructor; unfold _ownerOf, tokenized, licenses_of in *;
    rewrite ?Howners, ?Hhashes, ?Hcounter, ?Hbalance, ?Hlicenses; try done.
  - intros id'. rewrite Htokens, lookup_insert_is_Some.
    intros [<-|[_ ?]]; [done | by apply wf_written0].
  - intros id'. rewrite Htoken. destruct (decide (id = id')); [done|].
    apply wf_transferable0.
  - intros id' Hid'. rewrite Htoken. destruct (decide (id = id')); [lia|].
    by apply wf_levels0.
  - intros id' Hid'. rewrite Htoken. destruct (decide (id = id')) as [<-|].
    + rewrite Hhash. by apply wf_hashes0.
    + by apply wf_hashes0.
  - intros h Hh. rewrite Htoken.
    destruct (decide (id = read 0 (dataHashToTokenId s) h)) as [->|].
    + rewrite Hhash. by apply wf_tokenized0.
    + by apply wf_tokenized0.
  - intros id'. rewrite Htoken. destruct (decide (id = id')) as [<-|]; lia.
Qed.

(** Handing a token that has an owner to another address. *)
Lemma owner_update_safe s s' id to :
  wf s → _ownerOf s id ≠ 0 → to ≠ 0 →
  _owners s' = <[id := to]> (_owners s) →
  dataTokens s' = dataTokens s →
  dataHashToTokenId s' = dataHashToTokenId s →
  _tokenIdCounter s' = _tokenIdCounter s →
  balance s' = balance s →
  researchLicenses s' = researchLicenses s →
  wf s' ∧ grows s s'.
Proof.
  intros [] Hid Hto Howners Htokens Hhashes Hcounter Hbalance Hlicenses.
  assert (∀ id', _ownerOf s' id'
                 = if decide (id = id') then to else _ownerOf s id') as Howner.
  { intros id'. unfold _ownerOf. rewrite Howners. apply read_insert. }
  split; constructor; unfold token, tokenized, licenses_of in *;
    rewrite ?Htokens, ?Hhashes, ?Hcounter, ?Hbalance, ?Hlicenses; try done.
  - intros id'. rewrite Howner. destruct (decide (id = id')) as [<-|].
    + intros _. by apply wf_owned0.
    + apply wf_owned0.
  - intros id'. rewrite Howner. destruct (decide (id = id')); [done|].
    apply wf_minted0.
  - intros id'. rewrite Howner. by destruct (decide (id = id')).
Qed.

(** A new token under the next id. *)
Lemma mint_update_safe s s' to d :
  wf s → to ≠ 0 →
  tokenized s (dataHash d) = 0 →
  1 ≤ privacyLevel d ≤ 5 →
  (isTransferable d = true → privacyLevel d ≤ 3) →
  _tokenIdCounter s' = _tokenIdCounter s + 1 →
  _owners s' = <[_tokenIdCounter s := to]> (_owners s) →
  dataTokens s' = <[_tokenIdCounter s := d]> (dataTokens s) →
  dataHashToTokenId s'
  = <[dataHash d := _tokenIdCounter s]> (dataHashToTokenId s) →
  balance s' = balance s →
  researchLicenses s' = researchLicenses s →
  wf s' ∧ grows s s'.
Proof.
  intros [] Hto Hfresh Hlevel Htransfer Hcounter Howners Htokens Hhashes
    Hbalance Hlicenses.
  assert (∀ id, _ownerOf s' id
                = if decide (_tokenIdCounter s = id) then to
                  else _ownerOf s id) as Howner.
  { intros id. unfold _ownerOf. rewrite Howners. apply read_insert. }
  assert (∀ id, token s' id
                = if decide (_tokenIdCounter s = id) then d
                  else token s id) as Htoken.
  { intros id. unfold token. rewrite Htokens. apply read_insert. }
  assert (∀ h, tokenized s' h
               = if decide (dataHash d = h) then _tokenIdCounter s
                 else tokenized s h) as Hhash.
  { intros h. unfold tokenized. rewrite Hhashes. apply read_insert. }
  assert (privacyLevel (token s (_tokenIdCounter s)) = 0) as Hnone.
  { unfold token, read.
    destruct (dataTokens s !! _tokenIdCounter s) as [d'|] eqn:E; [|done].
    assert (is_Some (dataTokens s !! _tokenIdCounter s)) as Hsome by eauto.
    apply wf_written0 in Hsome. lia. }
  split; constructor; unfold licenses_of; rewrite ?Hcounter, ?Hbalance, ?Hlicenses;
    try lia; try done.
  - intros id. rewrite Howner. destruct (decide (_tokenIdCounter s = id)).
    + lia.
    + intros Hid. apply wf_owned0 in Hid. lia.
  - intros id Hid. rewrite Howner.
    destruct (decide (_tokenIdCounter s = id)); [done|].
    apply wf_minted0. lia.
  - intros id. rewrite Htokens, lookup_insert_is_Some.
    intros [<-|[_ Hid]]; [lia|]. apply wf_written0 in Hid. lia.
  - intros id. rewrite Htoken. destruct (decide (_tokenIdCounter s = id)).
    + done.
    + apply wf_transferable0.
  - intros id Hid. rewrite Htoken.
    destruct (decide (_tokenIdCounter s = id)); [done|].
    apply wf_levels0. lia.
  - intros id Hid. rewrite Htoken, Hhash.
    destruct (decide (_tokenIdCounter s = id)) as [<-|Hne].
    + by destruct (decide (dataHash d = dataHash d)).
    + destruct (decide (dataHash d = dataHash (token s id))) as [Heq|].
      * rewrite Heq, wf_hashes0 in Hfresh; lia.
      * apply wf_hashes0. lia.
  - intros h. rewrite Hhash. destruct (decide (dataHash d = h)) as [<-|].
    + intros Hpos. rewrite Htoken.
      destruct (decide (_tokenIdCounter s = _tokenIdCounter s)); [|done].
      split; [lia | done].
    + intros Hh. destruct (wf_tokenized0 _ Hh) as [Hrange Hback].
      rewrite Htoken.
      destruct (decide (_tokenIdCounter s = tokenized s h)); [lia|].
      split; [lia | done].
  - intros id. rewrite Htoken.
    destruct (decide (_tokenIdCounter s = id)) as [<-|]; lia.
  - intros id. rewrite Howner.
    by destruct (decide (_tokenIdCounter s = id)).
Qed.

(** A call keeps [wf] and only [grows] the state. *)
Definition safe (call : Call) : Prop :=
  ∀ now msg s s', wf s → exec now call msg s = inr s' → wf s' ∧ grows s s'.

Lemma reenter_safe now calls s :
  Forall (fun '(_, inner) => safe inner) calls →
  wf s → wf (reenter now calls s) ∧ grows s (reenter now calls s).
Proof.
  intros Hcalls. revert s.
  induction Hcalls as [|[msg' inner] calls Hinner _ IH]; intros s Hwf.
  - split; [done | apply grows_refl].
  - cbn. destruct (exec now inner msg' s) as [failure|s'] eqn:E.
    + by apply IH.
    + destruct (Hinner _ _ _ _ Hwf E) as [Hwf' Hgrows].
      destruct (IH _ Hwf') as [Hwf'' Hgrows'].
      split; [done | by eapply grows_trans].
Qed.

Lemma received_safe now receiver s s' :
  Forall (fun '(_, inner) => safe inner)
    (match receiver with Account => [] | Contract calls _ => calls end) →
  wf s → received now receiver s = inr s' → wf s' ∧ grows s s'.
Proof.
  intros Hcalls Hwf. destruct receiver as [|calls reply]; cbn.
  - intros [= <-]. split; [done | apply grows_refl].
  - destruct reply; cbn; try discriminate.
    + intros [= <-]. by apply reenter_safe.
    + by destruct (String.eqb reason "").
Qed.

Lemma grantRole_safe msg s s' role account :
  wf s → grantRole msg s role account = inr s' → wf s' ∧ grows s s'.
Proof.
  intros Hwf H. unfold grantRole, onlyRole, nonpayable in H. run.
  subst s'. by apply kept.
Qed.

Lemma revokeRole_safe msg s s' role account :
  wf s → revokeRole msg s role account = inr s' → wf s' ∧ grows s s'.
Proof.
  intros Hwf H. unfold revokeRole, onlyRole, nonpayable in H. run.
  subst s'. by apply kept.
Qed.

Lemma renounceRole_safe msg s s' role account :
  wf s → renounceRole msg s role account = inr s' → wf s' ∧ grows s s'.
Proof.
  intros Hwf H. unfold renounceRole, nonpayable in H. run.
  subst s'. by apply kept.
Qed.

Lemma pause_safe msg s s' : wf s → pause msg s = inr s' → wf s' ∧ grows s s'.
Proof.
  intros Hwf H.
  unfold pause, _pause, whenNotPaused, onlyRole, nonpayable in H. run.
  subst s'. by apply kept.
Qed.

Lemma unpause_safe msg s s' : wf s → unpause msg s = inr s' → wf s' ∧ grows s s'.
Proof.
  intros Hwf H.
  unfold unpause, _unpause, whenPaused, onlyRole, nonpayable in H. run.
  subst s'. by apply kept.
Qed.

Lemma approve_safe msg s s' to id :
  wf s → approve msg s to id = inr s' → wf s' ∧ grows s s'.
Proof.
  intros Hwf H. unfold approve, ownerOf, nonpayable in H. run.
  subst s'. by apply kept.
Qed.

Lemma setApprovalForAll_safe msg s s' operator approved :
  wf s → setApprovalForAll msg s operator approved = inr s' → wf s' ∧ grows s s'.
Proof.
  intros Hwf H. unfold setApprovalForAll, nonpayable in H. run.
  subst s'. by apply kept.
Qed.

Lemma requestDataAccess_safe msg s s' id purpose :
  wf s → requestDataAccess msg s id purpose = inr s' → wf s' ∧ grows s s'.
Proof.
  intros Hwf H. unfold requestDataAccess, nonpayable in H. run.
  subst s'. by apply kept.
Qed.

Lemma grantResearchLicense_safe paid now msg s s' id researcher licenseDuration
    licenseTerms compensationAmount :
  wf s →
  grantResearchLicense paid now msg s id researcher licenseDuration
    licenseTerms compensationAmount = inr s' →
  wf s' ∧ grows s s'.
Proof.
  intros Hwf H.
  unfold grantResearchLicense, nonReentrant, ownerOf, add, transfer in H.
  run; bools; subst;
    (split; [by apply (wf_core s)|]; constructor; fields; try done; try lia;
     intros id'; unfold licenses_of; fields; rewrite read_insert;
     case_decide; [subst; by apply prefix_app_r | done]).
Qed.

Lemma set_viewer_safe s id viewer allowed :
  wf s → _ownerOf s id ≠ 0 →
  wf (set_viewer s id viewer allowed) ∧ grows s (set_viewer s id viewer allowed).
Proof.
  intros Hwf Hid.
  pose proof (wf_levels _ Hwf _ (wf_owned _ Hwf _ Hid)) as Hlevel.
  eapply (token_update_safe s _ id); try done; cbn; try done; [lia|].
  apply (wf_transferable _ Hwf).
Qed.

Lemma authorizeViewer_safe msg s s' id viewer :
  wf s → authorizeViewer msg s id viewer = inr s' → wf s' ∧ grows s s'.
Proof.
  intros Hwf H. unfold authorizeViewer, ownerOf, nonpayable in H. run.
  subst s'. apply set_viewer_safe; [done|]. lia.
Qed.

Lemma revokeViewerAccess_safe msg s s' id viewer :
  wf s → revokeViewerAccess msg s id viewer = inr s' → wf s' ∧ grows s s'.
Proof.
  intros Hwf H. unfold revokeViewerAccess, ownerOf, nonpayable in H. run.
  subst s'. apply set_viewer_safe; [done|]. lia.
Qed.

Lemma updatePrivacyLevel_safe msg s s' id newPrivacyLevel :
  wf s → updatePrivacyLevel msg s id newPrivacyLevel = inr s' →
  wf s' ∧ grows s s'.
Proof.
  intros Hwf H. unfold updatePrivacyLevel, ownerOf, nonpayable in H. run.
  subst s'.
  eapply (token_update_safe s _ id); try done; cbn; try done; try lia.
  destruct (3 <? newPrivacyLevel) eqn:Hhigh; [done|]. lia.
Qed.

Lemma _transfer_safe s s' from to id :
  wf s → _transfer s from to id = inr s' → wf s' ∧ grows s s'.
Proof.
  intros Hwf H. unfold _transfer, ownerOf in H. run. subst s'.
  eapply (owner_update_safe s _ id to); try done; lia.
Qed.

Lemma _updateOwnershipTracking_safe s from to id :
  wf s →
  wf (_updateOwnershipTracking s from to id)
  ∧ grows s (_updateOwnershipTracking s from to id).
Proof. intros Hwf. by apply kept. Qed.

Lemma transferFrom_safe msg s s' from to id :
  wf s → transferFrom msg s from to id = inr s' → wf s' ∧ grows s s'.
Proof.
  intros Hwf H. unfold transferFrom, ERC721_transferFrom, nonpayable in H.
  run. subst s'.
  match goal with
  | Ht : _transfer _ _ _ _ = inr ?t |- _ =>
      destruct (_transfer_safe _ _ _ _ _ Hwf Ht) as [Hwf1 Hgrows1];
      destruct (_updateOwnershipTracking_safe t from to id Hwf1)
        as [Hwf2 Hgrows2]
  end.
  split; [done | by eapply grows_trans].
Qed.

Lemma safeTransferFrom_safe (callback : State → Result State) msg s s' from to
    id data :
  (∀ t t', wf t → callback t = inr t' → wf t' ∧ grows t t') →
  wf s → safeTransferFrom callback msg s from to id data = inr s' →
  wf s' ∧ grows s s'.
Proof.
  intros Hcallback Hwf H.
  unfold safeTransferFrom, ERC721_safeTransferFrom, nonpayable in H.
  run. subst s'.
  match goal with
  | Ht : _transfer _ _ _ _ = inr ?t, Hc : callback ?t = inr ?t' |- _ =>
      destruct (_transfer_safe _ _ _ _ _ Hwf Ht) as [Hwf1 Hgrows1];
      destruct (Hcallback _ _ Hwf1 Hc) as [Hwf2 Hgrows2];
      destruct (_updateOwnershipTracking_safe t' from to id Hwf2)
        as [Hwf3 Hgrows3]
  end.
  split; [done|]. eapply grows_trans; [|done]. by eapply grows_trans.
Qed.

(** The state in which the receiver of a new token is called. *)
Definition minted (now : Z) (s : State) (to : address) (dataHash : bytes32)
    (privacyLevel : Z) (dataCategories : list string) (zkProof : list Z)
  : State :=
  let tokenId := _tokenIdCounter s in
  let nftData := {|
    dataHash := dataHash;
    creationTimestamp := now;
    privacyLevel := privacyLevel;
    zkProof := zkProof;
    dataCategories := dataCategories;
    isTransferable := privacyLevel <=? 3;
    accessPermissions := 1;
    dataController := to;
    authorizedViewers := authorizedViewers (token s tokenId);
  |} in
  with_owners (<[tokenId := to]> (_owners s))
    (with_userOwnedTokens
       (<[to := (tokens_of s to ++ [tokenId])%list]> (userOwnedTokens s))
       (with_dataTokens (<[tokenId := nftData]> (dataTokens s))
          (with_dataHashToTokenId
             (<[dataHash := tokenId]> (dataHashToTokenId s))
             (with_tokenIdCounter (tokenId + 1) (with_entered true s))))).

Definition mint_allowed (msg : Msg) (s : State) (to : address)
    (dataHash : bytes32) (privacyLevel : Z)
    (pA : Z * Z) (pB : (Z * Z) * (Z * Z)) (pC : Z * Z) (publicSignals : list Z)
  : Prop :=
  value msg = 0%N
  ∧ hasRole s (MINTER_ROLE keccak256) (sender msg) = true
  ∧ _entered s = false
  ∧ _paused s = false
  ∧ 1 ≤ privacyLevel ≤ 5
  ∧ tokenized s dataHash = 0
  ∧ verifyProof pA pB pC publicSignals = true
  ∧ _tokenIdCounter s + 1 ≤ MAX_UINT256
  ∧ to ≠ 0
  ∧ _ownerOf s (_tokenIdCounter s) = 0.

Lemma mintDataNFT_inr (callback : State → Result State) now msg s s' to
    dataHash privacyLevel dataCategories zkProof pA pB pC publicSignals
    tokenURI :
  mintDataNFT keccak256 verifyProof callback now msg s to dataHash
    privacyLevel dataCategories zkProof pA pB pC publicSignals tokenURI
  = inr s' ↔
  mint_allowed msg s to dataHash privacyLevel pA pB pC publicSignals
  ∧ ∃ t, callback (minted now s to dataHash privacyLevel dataCategories zkProof)
         = inr t
         ∧ _ownerOf t (_tokenIdCounter s) ≠ 0
         ∧ s' = with_entered false
                  (with_tokenURIs
                     (<[_tokenIdCounter s := tokenURI]> (_tokenURIs t)) t).
Proof.
  unfold mint_allowed. split.
  - intros H.
    unfold mintDataNFT, nonReentrant, onlyRole, whenNotPaused, nonpayable, add,
      _safeMint, _mint, _setTokenURI in H.
    run. fields. bools. subst.
    repeat split; try done; try lia.
    eexists. split; [eassumption|]. by split.
  - intros ((Hvalue & Hrole & Hentered & Hpaused & Hlevel & Hfresh & Hproof
             & Hcounter & Hto & Hnew) & t & Hcallback & Hminted & ->).
    unfold mintDataNFT, nonReentrant, onlyRole, whenNotPaused, nonpayable, add,
      _safeMint, _mint, _setTokenURI.
    rewrite Hvalue, Hrole, Hentered. cbn.
    rewrite Hpaused. cbn.
    replace ((1 <=? privacyLevel) && (privacyLevel <=? 5)) with true
      by (symmetry; apply andb_true_iff; lia).
    cbn. fields. rewrite Hfresh. cbn. rewrite Hproof. cbn.
    replace (_tokenIdCounter s + 1 <=? MAX_UINT256) with true
      by (symmetry; lia).
    cbn.
    replace (to =? 0) with false by (symmetry; lia). cbn.
    fields. rewrite Hnew. cbn.
    fold (token s (_tokenIdCounter s)). fold (tokens_of s to).
    change (with_owners _ _)
      with (minted now s to dataHash privacyLevel dataCategories zkProof).
    rewrite Hcallback. cbn.
    replace (read 0 (_owners t) (_tokenIdCounter s) =? 0) with false
      by (symmetry; by apply Z.eqb_neq).
    reflexivity.
Qed.

Lemma minted_safe now s to dataHash privacyLevel dataCategories zkProof :
  wf s → to ≠ 0 → tokenized s dataHash = 0 → 1 ≤ privacyLevel ≤ 5 →
  wf (minted now s to dataHash privacyLevel dataCategories zkProof)
  ∧ grows s (minted now s to dataHash privacyLevel dataCategories zkProof).
Proof.
  intros Hwf Hto Hfresh Hlevel.
  eapply (mint_update_safe s _ to); try done; cbn; try done.
  intros Hle. lia.
Qed.

Lemma mintDataNFT_safe (callback : State → Result State) now msg s s' to
    dataHash privacyLevel dataCategories zkProof pA pB pC publicSignals
    tokenURI :
  (∀ t t', wf t → callback t = inr t' → wf t' ∧ grows t t') →
  wf s →
  mintDataNFT keccak256 verifyProof callback now msg s to dataHash
    privacyLevel dataCategories zkProof pA pB pC publicSignals tokenURI
  = inr s' →
  wf s' ∧ grows s s'.
Proof.
  intros Hcallback Hwf H.
  apply mintDataNFT_inr in H as (Hallowed & t & Ht & _ & ->).
  destruct Hallowed as (_ & _ & _ & _ & Hlevel & Hfresh & _ & _ & Hto & _).
  destruct (minted_safe now s to dataHash privacyLevel dataCategories zkProof
              Hwf Hto Hfresh Hlevel) as [Hwf1 Hgrows1].
  destruct (Hcallback _ _ Hwf1 Ht) as [Hwf2 Hgrows2].
  assert (wf (with_entered false
                (with_tokenURIs
                   (<[_tokenIdCounter s := tokenURI]> (_tokenURIs t)) t))
          ∧ grows t (with_entered false
                (with_tokenURIs
                   (<[_tokenIdCounter s := tokenURI]> (_tokenURIs t)) t)))
    as [Hwf3 Hgrows3] by by apply kept.
  split; [done|]. eapply grows_trans; [|done]. by eapply grows_trans.
Qed.

Lemma exec_safe call : safe call.
Proof.
  induction call as [call IH] using Call_nested_ind.
  intros now msg s s' Hwf H.
  assert (∀ receiver t t',
            callbacks call
            = match receiver with Account => [] | Contract calls _ => calls end →
            wf t → received now receiver t = inr t' → wf t' ∧ grows t t')
    as Hreceived.
  { intros receiver t t' Hcalls. apply received_safe. by rewrite <- Hcalls. }
  destruct call.
  - rewrite exec_MintDataNFT in H.
    eapply mintDataNFT_safe; [|done|done].
    intros t t'. apply (Hreceived receiver). by destruct receiver.
  - by eapply grantResearchLicense_safe.
  - by eapply requestDataAccess_safe with (purpose := purpose).
  - by eapply authorizeViewer_safe.
  - by eapply revokeViewerAccess_safe.
  - by eapply updatePrivacyLevel_safe.
  - by eapply transferFrom_safe.
  - rewrite exec_SafeTransferFrom in H.
    eapply safeTransferFrom_safe; [|done|done].
    intros t t'. apply (Hreceived receiver). by destruct receiver.
  - by eapply pause_safe.
  - by eapply unpause_safe.
  - by eapply approve_safe.
  - by eapply setApprovalForAll_safe.
  - by eapply grantRole_safe.
  - by eapply revokeRole_safe.
  - by eapply renounceRole_safe.
Qed.

Lemma constructor_wf msg _zkVerifier : wf (constructor keccak256 msg _zkVerifier).
Proof.
  constructor; unfold token, _ownerOf, tokenized, read; cbn;
    intros; rewrite ?lookup_empty in *; cbn in *;
    try done; try lia.
Qed.

Lemma reachable_wf s : reachable keccak256 verifyProof s → wf s.
Proof.
  induction 1 as [msg v|s s' now call msg _ IH H|s amount _ IH _].
  - apply constructor_wf.
  - by destruct (exec_safe call now msg s s' IH H).
  - by apply (wf_core s).
Qed.

(** The later states of the contract. *)
Inductive later (s : State) : State → Prop :=
| later_now : later s s
| later_call (t t' : State) (now : Z) (call : Call) (msg : Msg) :
    later s t → exec now call msg t = inr t' → later s t'
| later_funded (t : State) (amount : Z) :
    later s t → 0 ≤ amount → later s (with_balance (balance t + amount) t).

Lemma later_reachable s s' :
  reachable keccak256 verifyProof s → later s s' →
  reachable keccak256 verifyProof s'.
Proof.
  intros Hs. induction 1 as [|t t' now call msg _ IH H|t amount _ IH Hamount].
  - done.
  - by eapply reachable_call.
  - by apply reachable_funded.
Qed.

Lemma later_after now call msg s t s' :
  exec now call msg s = inr t → later t s' → later s s'.
Proof.
  intros Hstep.
  induction 1 as [|u u' now' call' msg' _ IH Hu|u amount _ IH Hamount].
  - eapply later_call; [apply later_now | done].
  - eapply later_call; [exact IH | done].
  - by apply later_funded.
Qed.

Lemma later_grows s s' : wf s → later s s' → wf s' ∧ grows s s'.
Proof.
  intros Hs.
  induction 1 as [|t t' now call msg _ [Hwf Hgrows] H
                  |t amount _ [Hwf Hgrows] Hamount].
  - split; [done | apply grows_refl].
  - destruct (exec_safe call now msg t t' Hwf H) as [Hwf' Hgrows'].
    split; [done | by eapply grows_trans].
  - split; [by apply (wf_core t)|].
    eapply grows_trans; [done|]. apply grows_core; [done | done | cbn; lia].
Qed.

(** The reentrancy flag is the same before and after every call. *)
Definition guarded (call : Call) : Prop :=
  ∀ now msg s s', exec now call msg s = inr s' → _entered s' = _entered s.

Lemma reenter_guarded now calls s :
  Forall (fun '(_, inner) => guarded inner) calls →
  _entered (reenter now calls s) = _entered s.
Proof.
  intros Hcalls. revert s.
  induction Hcalls as [|[msg' inner] calls Hinner _ IH]; intros s; [done|].
  cbn. destruct (exec now inner msg' s) as [failure|s'] eqn:E; [apply IH|].
  rewrite IH. by eapply Hinner.
Qed.

Lemma received_guarded now receiver s s' :
  Forall (fun '(_, inner) => guarded inner)
    (match receiver with Account => [] | Contract calls _ => calls end) →
  received now receiver s = inr s' → _entered s' = _entered s.
Proof.
  intros Hcalls. destruct receiver as [|calls reply]; cbn.
  - by intros [= <-].
  - destruct reply; cbn; try discriminate.
    + intros [= <-]. by apply reenter_guarded.
    + by destruct (String.eqb reason "").
Qed.

Lemma exec_guarded call : guarded call.
Proof.
  induction call as [call IH] using Call_nested_ind.
  intros now msg s s' H.
  assert (∀ receiver t t',
            callbacks call
            = match receiver with Account => [] | Contract calls _ => calls end →
            received now receiver t = inr t' → _entered t' = _entered t)
    as Hreceived.
  { intros receiver t t' Hcalls. apply received_guarded. by rewrite <- Hcalls. }
  destruct call.
  - rewrite exec_MintDataNFT in H.
    apply mintDataNFT_inr in H as (Hallowed & t & Ht & _ & ->).
    by destruct Hallowed as (_ & _ & -> & _).
  - cbn [exec] in H.
    unfold grantResearchLicense, nonReentrant, ownerOf, add, transfer in H.
    run; bools; by subst.
  - cbn [exec] in H. unfold requestDataAccess, nonpayable in H.
    run. by subst.
  - cbn [exec] in H. unfold authorizeViewer, ownerOf, nonpayable in H.
    run. by subst.
  - cbn [exec] in H. unfold revokeViewerAccess, ownerOf, nonpayable in H.
    run. by subst.
  - cbn [exec] in H. unfold updatePrivacyLevel, ownerOf, nonpayable in H.
    run. by subst.
  - cbn [exec] in H.
    unfold transferFrom, ERC721_transferFrom, _transfer, ownerOf, nonpayable
      in H.
    run. by subst.
  - rewrite exec_SafeTransferFrom in H.
    unfold safeTransferFrom, ERC721_safeTransferFrom, _transfer, ownerOf,
      nonpayable in H.
    run. subst.
    match goal with
    | Hr : received _ _ _ = inr _ |- _ =>
        apply (Hreceived receiver) in Hr; [|by destruct receiver]
    end.
    cbn. by etrans.
  - cbn [exec] in H.
    unfold pause, _pause, whenNotPaused, onlyRole, nonpayable in H.
    run. by subst.
  - cbn [exec] in H.
    unfold unpause, _unpause, whenPaused, onlyRole, nonpayable in H.
    run. by subst.
  - cbn [exec] in H. unfold approve, ownerOf, nonpayable in H. run. by subst.
  - cbn [exec] in H. unfold setApprovalForAll, nonpayable in H. run. by subst.
  - cbn [exec] in H. unfold grantRole, onlyRole, nonpayable in H.
    run. by subst.
  - cbn [exec] in H. unfold revokeRole, onlyRole, nonpayable in H.
    run. by subst.
  - cbn [exec] in H. unfold renounceRole, nonpayable in H. run. by subst.
Qed.

Lemma reachable_entered s :
  reachable keccak256 verifyProof s → _entered s = false.
Proof.
  induction 1 as [msg v|s s' now call msg _ IH H|s amount _ IH _];
    [done | | done].
  by rewrite (exec_guarded call now msg s s' H).
Qed.

(** *** Privacy levels *)

Definition not_transferable : Failure :=
  Revert "Token not transferable due to privacy settings".

(** X16.  The privacy level of a token only rises, whatever is called
    and whoever calls it back; and once it is above 3 the token can
    never be transferred again: [transferFrom] and [safeTransferFrom]
    revert for it in every later state. *)
Theorem privacy_level_is_a_ratchet (s s' : State) (id : Z) :
  reachable keccak256 verifyProof s → later s s' →
  privacyLevel (token s id) ≤ privacyLevel (token s' id)
  ∧ (3 < privacyLevel (token s id) →
     ∀ now msg from to data receiver,
       value msg = 0%N →
       exec now (TransferFrom from to id) msg s' = inl not_transferable
       ∧ exec now (SafeTransferFrom from to id data receiver) msg s'
         = inl not_transferable).
Proof.
  intros Hs Hlater.
  destruct (later_grows s s' (reachable_wf s Hs) Hlater) as [Hwf Hgrows].
  pose proof (grows_level _ _ Hgrows id) as Hlevel.
  split; [done|]. intros Hhigh now msg from to data receiver Hvalue.
  assert (isTransferable (token s' id) = false) as Hfixed.
  { destruct (isTransferable (token s' id)) eqn:E; [|done].
    apply (wf_transferable _ Hwf) in E. lia. }
  rewrite exec_SafeTransferFrom. cbn [exec].
  unfold transferFrom, safeTransferFrom, nonpayable.
  by rewrite Hvalue, Hfixed.
Qed.

(** *** Data hashes *)

(** X17.  From the second token on, no two tokens carry the same data
    hash. *)
Theorem data_hash_unique_after_first_token (s : State) (i j : Z) :
  reachable keccak256 verifyProof s →
  1 ≤ i < _tokenIdCounter s → 1 ≤ j < _tokenIdCounter s → i ≠ j →
  dataHash (token s i) ≠ dataHash (token s j).
Proof.
  intros Hs Hi Hj Hne Hhash. apply reachable_wf in Hs. apply Hne.
  rewrite <- (wf_hashes _ Hs i Hi), <- (wf_hashes _ Hs j Hj).
  by rewrite Hhash.
Qed.

(** X18.  The first token is not protected: its id is 0, which is also
    what [dataHashToTokenId] holds for a hash that was never seen.  As
    long as no later token carries the hash of token 0, a minter can
    tokenize the same data a second time. *)
Theorem first_token_hash_can_be_minted_again (s : State) (now : Z) (msg : Msg)
    (to : address) (level : Z) (categories : list string) (proof : list Z)
    (pA : Z * Z) (pB : (Z * Z) * (Z * Z)) (pC : Z * Z) (publicSignals : list Z)
    (tokenURI : string) :
  reachable keccak256 verifyProof s →
  0 < _tokenIdCounter s →
  (∀ id, 1 ≤ id < _tokenIdCounter s →
         dataHash (token s id) ≠ dataHash (token s 0)) →
  value msg = 0%N →
  hasRole s (MINTER_ROLE keccak256) (sender msg) = true →
  _paused s = false →
  1 ≤ level ≤ 5 →
  verifyProof pA pB pC publicSignals = true →
  _tokenIdCounter s + 1 ≤ MAX_UINT256 →
  to ≠ 0 →
  ∃ s',
    exec now
      (MintDataNFT to (dataHash (token s 0)) level categories proof pA pB pC
         publicSignals tokenURI Account) msg s = inr s'
    ∧ dataHash (token s' (_tokenIdCounter s)) = dataHash (token s' 0)
    ∧ _ownerOf s' 0 ≠ 0
    ∧ _ownerOf s' (_tokenIdCounter s) = to.
Proof.
  intros Hs Hsome Hothers Hvalue Hrole Hpaused Hlevel Hproof Hroom Hto.
  pose proof (reachable_wf s Hs) as Hwf.
  assert (tokenized s (dataHash (token s 0)) = 0) as Hfresh.
  { destruct (decide (tokenized s (dataHash (token s 0)) = 0)) as [|Hne];
      [done|].
    destruct (wf_tokenized _ Hwf _ Hne) as [Hrange Hback].
    by destruct (Hothers _ Hrange). }
  assert (_ownerOf s (_tokenIdCounter s) = 0) as Hnew.
  { destruct (decide (_ownerOf s (_tokenIdCounter s) = 0)) as [|Hne]; [done|].
    apply (wf_owned _ Hwf) in Hne. lia. }
  eexists. rewrite exec_MintDataNFT. split.
  - apply mintDataNFT_inr. split.
    + unfold mint_allowed. repeat split; try done; try lia.
      by apply reachable_entered.
    + eexists. split; [reflexivity|]. split; [|reflexivity].
      unfold _ownerOf, minted. cbn. by rewrite read_insert, decide_True.
  - unfold token, _ownerOf, minted. cbn. rewrite !read_insert.
    repeat case_decide; try lia. cbn.
    split; [done|]. split; [|done].
    apply (wf_minted _ Hwf). lia.
Qed.

(** *** Ether *)

(** X19.  No call takes ether out of the contract: its balance never
    goes down.  What a caller of [grantResearchLicense] sends above the
    compensation, which is paid back to that same caller, stays in the
    contract for good. *)
Theorem contract_balance_never_decreases (s s' : State) :
  reachable keccak256 verifyProof s → later s s' → balance s ≤ balance s'.
Proof.
  intros Hs Hlater.
  destruct (later_grows s s' (reachable_wf s Hs) Hlater) as [_ Hgrows].
  apply (grows_balance _ _ Hgrows).
Qed.

(** *** Licenses *)

(** X25.  A research license, once granted, stays: no call removes a
    license from [getResearchLicenses] or changes it, so it cannot be
    revoked or deactivated, not even by raising the privacy level of
    the token above 3, the level at which new licenses are refused. *)
Theorem licenses_are_never_withdrawn (s s' : State) (id : Z) :
  reachable keccak256 verifyProof s → later s s' →
  getResearchLicenses s id `prefix_of` getResearchLicenses s' id.
Proof.
  intros Hs Hlater.
  destruct (later_grows s s' (reachable_wf s Hs) Hlater) as [_ Hgrows].
  apply (grows_licenses _ _ Hgrows).
Qed.

(** *** The emergency pause *)

(** The calls that neither mint nor pause, and whose receiver, if any,
    makes no call of its own. *)
Definition ignores_pause (call : Call) : bool :=
  match call with
  | MintDataNFT _ _ _ _ _ _ _ _ _ _ _ | Pause | Unpause => false
  | SafeTransferFrom _ _ _ _ (Contract (_ :: _) _) => false
  | _ => true
  end.

Definition paused_as (flag : bool) (r : Result State) : Result State :=
  match r with
  | inr s => inr (with_paused flag s)
  | inl failure => inl failure
  end.

Lemma paused_bind_same {A} (m : Result A) (k k' : A → Result State) flag :
  (∀ a, k' a = paused_as flag (k a)) → bind m k' = paused_as flag (bind m k).
Proof. intros Hk. destruct m as [failure|a]; [done | apply Hk]. Qed.

Lemma paused_bind_state (m m' : Result State) (k k' : State → Result State)
    flag :
  m' = paused_as flag m →
  (∀ t, k' (with_paused flag t) = paused_as flag (k t)) →
  bind m' k' = paused_as flag (bind m k).
Proof. intros -> Hk. destruct m as [failure|t]; [done | apply Hk]. Qed.

Ltac commute :=
  repeat first
    [ reflexivity
    | apply paused_bind_same; intros ?
    | apply paused_bind_state; [|intros ?; cbv beta]
    | match goal with
      | |- (if ?c then _ else _) = paused_as _ (if ?c then _ else _) =>
          destruct c
      end
    | progress fields ].

(** X26.  The emergency pause stops minting and nothing else.  While
    the contract is paused every [mintDataNFT] reverts; transfers,
    license grants with their payments, privacy updates, viewer
    changes, approvals and role changes go through exactly as they do
    when it is not paused. *)
Theorem pause_stops_only_minting (now : Z) (msg : Msg) (s : State) :
  (_paused s = true →
   ∀ to hash level categories proof pA pB pC publicSignals tokenURI receiver,
     fails (exec now
              (MintDataNFT to hash level categories proof pA pB pC
                 publicSignals tokenURI receiver) msg s))
  ∧ (∀ call flag,
       ignores_pause call = true →
       exec now call msg (with_paused flag s)
       = paused_as flag (exec now call msg s)).
Proof.
  split.
  - intros Hpaused to hash level categories proof pA pB pC publicSignals
      tokenURI receiver.
    rewrite exec_MintDataNFT.
    destruct (mintDataNFT keccak256 verifyProof (received now receiver) now
                msg s to hash level categories proof pA pB pC publicSignals
                tokenURI) as [failure|s'] eqn:E; [by exists failure|].
    apply mintDataNFT_inr in E as ((_ & _ & _ & Hnot & _) & _). congruence.
  - intros call flag Hcall. destruct call; try discriminate.
    + cbn [MentalHealthDataNFT.exec].
      unfold grantResearchLicense, nonReentrant, ownerOf, add, transfer.
      commute.
    + cbn [MentalHealthDataNFT.exec]. unfold requestDataAccess, nonpayable.
      commute.
    + cbn [MentalHealthDataNFT.exec].
      unfold authorizeViewer, ownerOf, nonpayable. commute.
    + cbn [MentalHealthDataNFT.exec].
      unfold revokeViewerAccess, ownerOf, nonpayable. commute.
    + cbn [MentalHealthDataNFT.exec].
      unfold updatePrivacyLevel, ownerOf, nonpayable. commute.
    + cbn [MentalHealthDataNFT.exec].
      unfold transferFrom, ERC721_transferFrom, _isApprovedOrOwner, _transfer,
        getApproved, ownerOf, nonpayable.
      commute.
    + rewrite !exec_SafeTransferFrom.
      assert (∀ t, received now receiver (with_paused flag t)
                   = paused_as flag (received now receiver t)) as Hreceived.
      { intros t. destruct receiver as [|[|] reply]; [done | | done].
        cbn. destruct reply; cbn; [done | done |].
        by destruct (String.eqb reason ""). }
      unfold safeTransferFrom, ERC721_safeTransferFrom, _isApprovedOrOwner,
        _transfer, getApproved, ownerOf, nonpayable.
      commute. apply Hreceived.
    + cbn [MentalHealthDataNFT.exec]. unfold approve, ownerOf, nonpayable.
      commute.
    + cbn [MentalHealthDataNFT.exec]. unfold setApprovalForAll, nonpayable.
      commute.
    + cbn [MentalHealthDataNFT.exec]. unfold grantRole, onlyRole, nonpayable.
      commute.
    + cbn [MentalHealthDataNFT.exec]. unfold revokeRole, onlyRole, nonpayable.
      commute.
    + cbn [MentalHealthDataNFT.exec]. unfold renounceRole, nonpayable.
      commute.
Qed.

(** *** Viewers *)

(** X20.  A transfer leaves the authorizations of a token as they are:
    whoever the previous owner authorized still passes
    [isAuthorizedViewer] under the new owner, and the previous owner
    does not, unless authorized as a viewer. *)
Theorem transfer_keeps_authorized_viewers (msg : Msg) (s s' : State)
    (from to : address) (id : Z) :
  transferFrom msg s from to id = inr s' →
  (∀ viewer,
     read false (authorizedViewers (token s id)) viewer = true →
     isAuthorizedViewer s' id viewer = inr true)
  ∧ isAuthorizedViewer s' id to = inr true
  ∧ (from ≠ to →
     read false (authorizedViewers (token s id)) from = false →
     isAuthorizedViewer s' id from = inr false).
Proof.
  intros H.
  unfold transferFrom, ERC721_transferFrom, _transfer, ownerOf, nonpayable in H.
  run. bools. subst.
  unfold isAuthorizedViewer, ownerOf, token, _ownerOf. cbn.
  rewrite read_insert, decide_True by done.
  fold (token s id).
  replace (to =? 0) with false by (symmetry; by apply Z.eqb_neq).
  cbn. split; [|split].
  - by intros viewer ->.
  - destruct (read false (authorizedViewers (token s id)) to); [done|].
    by rewrite Z.eqb_refl.
  - intros Hne ->. f_equal. apply Z.eqb_neq. congruence.
Qed.

End Contract.

(** *** A deployment *)

Definition toy_keccak256 (text : string) : bytes32 :=
  Z.of_nat (String.length text).

Definition toy_verifier (pA : Z * Z) (pB : (Z * Z) * (Z * Z)) (pC : Z * Z)
    (publicSignals : list Z) : bool :=
  true.

Definition from_ (account : address) : Msg := {| sender := account; value := 0 |}.

Definition mint (to : address) (hash : bytes32) (level : Z) : Call :=
  MintDataNFT to hash level ["mood"] [] (0, 0) ((0, 0), (0, 0)) (0, 0) []
    "ipfs://token" Account.

(** The calls of a list in turn, each by its sender at its time. *)
Fixpoint play (calls : list (Z * Msg * Call)) (s : State) : Result State :=
  match calls with
  | [] => inr s
  | (now, msg, call) :: calls =>
      do s <- exec toy_keccak256 toy_verifier now call msg s;
      play calls s
  end.

Lemma play_later calls s s' :
  play calls s = inr s' → later toy_keccak256 toy_verifier s s'.
Proof.
  revert s. induction calls as [|[[now msg] call] calls IH]; intros s H.
  - injection H as <-. apply later_now.
  - cbn in H. apply bind_inr in H as (t & Ht & H).
    eapply later_after; [exact Ht | by apply IH].
Qed.

Lemma play_reachable calls s s' :
  reachable toy_keccak256 toy_verifier s → play calls s = inr s' →
  reachable toy_keccak256 toy_verifier s'.
Proof.
  intros Hs H. eapply later_reachable; [exact Hs|]. by eapply play_later.
Qed.

Definition deployed : State := constructor toy_keccak256 (from_ 1) 99.

Definition outcome (r : Result State) : State :=
  match r with
  | inr s => s
  | inl _ => deployed
  end.

(** The deployer mints a token of level 2 for account 2, ... *)
Definition one_token : list (Z * Msg * Call) :=
  [(100, from_ 1, mint 2 7001 2)].

Definition minted_once : State := outcome (play one_token deployed).

(** ... then a token of level 4 for account 3 and one of level 1 for
    account 2. *)
Definition two_more : list (Z * Msg * Call) :=
  [(200, from_ 1, mint 3 7002 4); (300, from_ 1, mint 2 7003 1)].

Definition minted_thrice : State := outcome (play two_more minted_once).

(** Account 2 grants a license on token 0, sending 10 wei for a
    compensation of 4. *)
Definition one_license : list (Z * Msg * Call) :=
  [(400, {| sender := 2; value := 10 |},
    GrantResearchLicense 0 8 3600 0 4 true)].

Definition licensed : State := outcome (play one_license minted_thrice).

Lemma minted_once_reachable : reachable toy_keccak256 toy_verifier minted_once.
Proof.
  apply (play_reachable one_token deployed); [apply reachable_deployed|].
  by vm_compute.
Qed.

Lemma minted_thrice_reachable :
  reachable toy_keccak256 toy_verifier minted_thrice.
Proof.
  apply (play_reachable two_more minted_once); [apply minted_once_reachable|].
  by vm_compute.
Qed.

Lemma minted_thrice_counter : _tokenIdCounter minted_thrice = 3.
Proof. by vm_compute. Qed.

Lemma privacy_level_is_a_ratchet_witness :
  exec toy_keccak256 toy_verifier 500 (TransferFrom 3 4 1) (from_ 3)
    minted_thrice
  = inl not_transferable.
Proof.
  destruct (privacy_level_is_a_ratchet toy_keccak256 toy_verifier
              minted_thrice minted_thrice 1) as [_ H].
  - apply minted_thrice_reachable.
  - apply later_now.
  - destruct (H ltac:(by vm_compute) 500 (from_ 3) 3 4 [] Account eq_refl)
      as [H1 _].
    exact H1.
Defined.

Lemma data_hash_unique_after_first_token_witness :
  dataHash (token minted_thrice 1) ≠ dataHash (token minted_thrice 2).
Proof.
  apply (data_hash_unique_after_first_token toy_keccak256 toy_verifier
           minted_thrice 1 2).
  - apply minted_thrice_reachable.
  - rewrite minted_thrice_counter. lia.
  - rewrite minted_thrice_counter. lia.
  - lia.
Defined.

Lemma first_token_hash_can_be_minted_again_witness :
  ∃ s',
    exec toy_keccak256 toy_verifier 150
      (mint 9 (dataHash (token minted_once 0)) 3) (from_ 1) minted_once
    = inr s'
    ∧ dataHash (token s' (_tokenIdCounter minted_once)) = dataHash (token s' 0)
    ∧ _ownerOf s' 0 ≠ 0
    ∧ _ownerOf s' (_tokenIdCounter minted_once) = 9.
Proof.
  apply (first_token_hash_can_be_minted_again toy_keccak256 toy_verifier
           minted_once 150 (from_ 1) 9 3 ["mood"] [] (0, 0) ((0, 0), (0, 0))
           (0, 0) [] "ipfs://token").
  - apply minted_once_reachable.
  - by vm_compute.
  - intros id Hid. replace (_tokenIdCounter minted_once) with 1 in Hid
      by by vm_compute.
    lia.
  - reflexivity.
  - by vm_compute.
  - by vm_compute.
  - lia.
  - reflexivity.
  - by vm_compute.
  - lia.
Defined.

Lemma licensed_reachable : reachable toy_keccak256 toy_verifier licensed.
Proof.
  apply (play_reachable one_license minted_thrice);
    [apply minted_thrice_reachable | by vm_compute].
Qed.

(** Account 2 then raises the privacy level of token 0 to 5. *)
Definition one_raise : list (Z * Msg * Call) :=
  [(450, from_ 2, UpdatePrivacyLevel 0 5)].

Definition raised : State := outcome (play one_raise licensed).

Lemma licenses_are_never_withdrawn_witness :
  getResearchLicenses licensed 0 `prefix_of` getResearchLicenses raised 0.
Proof.
  apply (licenses_are_never_withdrawn toy_keccak256 toy_verifier).
  - apply licensed_reachable.
  - apply (play_later one_raise). by vm_compute.
Defined.

Lemma contract_balance_never_decreases_witness :
  balance minted_thrice ≤ balance licensed.
Proof.
  apply (contract_balance_never_decreases toy_keccak256 toy_verifier).
  - apply minted_thrice_reachable.
  - apply (play_later one_license). by vm_compute.
Defined.

Lemma transfer_keeps_authorized_viewers_witness :
  isAuthorizedViewer (outcome (transferFrom (from_ 2) minted_thrice 2 4 0)) 0 4
  = inr true.
Proof.
  destruct (transfer_keeps_authorized_viewers (from_ 2) minted_thrice
              (outcome (transferFrom (from_ 2) minted_thrice 2 4 0)) 2 4 0)
    as (_ & H & _).
  - by vm_compute.
  - exact H.
Defined.

End DataNFTExtra.
(** *** The owners' token lists *)

Module DataNFTTracking.

Import Evm EvmFacts MentalHealthDataNFT DataNFTExtra.

Local Open Scope Z_scope.

Lemma forget_token_absent steps i l id :
  (∀ j, (i ≤ j < i + steps)%nat → nth j l 0 ≠ id) →
  forget_token steps i l id = l.
Proof.
  revert i. induction steps as [|steps IH]; intros i Habsent; [done|].
  cbn. destruct (nth i l 0 =? id) eqn:E.
  - apply Z.eqb_eq in E. destruct (Habsent i); [lia | done].
  - apply IH. intros j Hj. apply Habsent. lia.
Qed.

Lemma forget_token_found steps i l id k :
  (i ≤ k < i + steps)%nat → nth k l 0 = id →
  (∀ j, (i ≤ j < k)%nat → nth j l 0 ≠ id) →
  forget_token steps i l id = removelast (<[k := List.last l 0]> l).
Proof.
  revert i. induction steps as [|steps IH]; intros i Hk Hfound Hfirst; [lia|].
  cbn. destruct (nth i l 0 =? id) eqn:E.
  - apply Z.eqb_eq in E.
    destruct (decide (i = k)) as [->|Hne]; [done|].
    destruct (Hfirst i); [lia | done].
  - apply Z.eqb_neq in E.
    destruct (decide (i = k)) as [->|Hne]; [done|].
    apply IH; [lia | done |]. intros j Hj. apply Hfirst. lia.
Qed.

(** The loop takes the first occurrence of the token out of the list,
    if there is one. *)
Lemma forget_token_spec l id :
  (id ∉ l → forget_token (length l) 0 l id = l)
  ∧ (id ∈ l → id :: forget_token (length l) 0 l id ≡ₚ l).
Proof.
  split.
  - intros Hid. apply forget_token_absent. intros j Hj Hnth.
    apply Hid. rewrite <- Hnth. apply list_elem_of_In, nth_In. lia.
  - intros Hid.
    apply list_elem_of_split_l in Hid as (l1 & l2 & -> & Hl1).
    rewrite (forget_token_found _ _ _ _ (length l1)).
    + replace (length l1) with (length l1 + 0)%nat at 1 by lia.
      rewrite insert_app_r. cbn [insert list_insert].
      destruct l2 as [|x l2].
      * rewrite last_last, removelast_last. apply Permutation_cons_append.
      * destruct (exists_last (l := x :: l2)) as (l2' & y & ->); [done|].
        replace (l1 ++ id :: l2' ++ [y]) with ((l1 ++ id :: l2') ++ [y])
          by by rewrite <- app_assoc.
        rewrite last_last.
        replace (l1 ++ y :: l2' ++ [y]) with ((l1 ++ y :: l2') ++ [y])
          by by rewrite <- app_assoc.
        rewrite removelast_last, <- app_assoc. cbn.
        rewrite <- (Permutation_middle l1 (l2' ++ [y]) id).
        apply Permutation_cons; [done|].
        apply Permutation_app_head. apply Permutation_cons_append.
    + rewrite length_app. cbn. lia.
    + apply nth_middle.
    + intros j Hj Hnth. apply Hl1. rewrite <- Hnth.
      rewrite app_nth1 by lia. apply list_elem_of_In, nth_In. lia.
Qed.

(** A call in which no receiver of [safeTransferFrom] calls back. *)
Fixpoint no_reentrant_transfer (call : Call) : bool :=
  match call with
  | MintDataNFT _ _ _ _ _ _ _ _ _ _ (Contract calls _) =>
      forallb (fun '(_, inner) => no_reentrant_transfer inner) calls
  | SafeTransferFrom _ _ _ _ (Contract (_ :: _) _) => false
  | _ => true
  end.

(** The token lists say who owns what, each token once. *)
Record tracked (s : State) : Prop := {
  tracked_owner : ∀ a id, id ∈ tokens_of s a ↔ a ≠ 0 ∧ _ownerOf s id = a;
  tracked_once : ∀ a, NoDup (tokens_of s a);
}.

Lemma tracked_core s s' :
  _owners s = _owners s' → userOwnedTokens s = userOwnedTokens s' →
  tracked s → tracked s'.
Proof.
  destruct s, s'. cbn. intros -> -> []. by constructor.
Qed.

(** A token with an owner goes from [from] to [to]. *)
Lemma tracked_transfer s s' from to id :
  tracked s → _ownerOf s id = from → from ≠ 0 → to ≠ 0 →
  _owners s' = <[id := to]> (_owners s) →
  userOwnedTokens s'
  = (let lists :=
       <[from := forget_token (length (tokens_of s from)) 0 (tokens_of s from) id]>
         (userOwnedTokens s) in
     <[to := read [] lists to ++ [id]]> lists) →
  tracked s'.
Proof.
  intros [Howner Honce] Hfrom Hfrom0 Hto0 Howners Hlists.
  assert (id ∈ tokens_of s from) as Hlisted by by apply Howner.
  destruct (forget_token_spec (tokens_of s from) id) as [_ Hspec].
  specialize (Hspec Hlisted).
  set (rest := forget_token (length (tokens_of s from)) 0 (tokens_of s from) id)
    in *.
  assert (NoDup (id :: rest)) as Hnodup by (rewrite Hspec; apply Honce).
  apply NoDup_cons in Hnodup as [Hfresh Hrest].
  assert (∀ x, x ∈ rest ↔ x ∈ tokens_of s from ∧ x ≠ id) as Hin.
  { intros x. rewrite <- Hspec, elem_of_cons. split.
    - intros Hx. split; [by right|]. by intros ->.
    - by intros [[->|Hx] Hne]. }
  assert (∀ x, _ownerOf s' x = if decide (id = x) then to else _ownerOf s x)
    as Hnew.
  { intros x. unfold _ownerOf. rewrite Howners. apply read_insert. }
  assert (∀ a, tokens_of s' a
               = if decide (to = a)
                 then (if decide (from = to) then rest else tokens_of s to)
                      ++ [id]
                 else if decide (from = a) then rest else tokens_of s a)
    as Hlist.
  { intros a. unfold tokens_of. rewrite Hlists. cbv zeta.
    rewrite !read_insert. repeat case_decide; congruence. }
  constructor.
  - intros a x. rewrite Hlist, Hnew.
    destruct (decide (to = a)) as [<-|Hne].
    + rewrite elem_of_app, list_elem_of_singleton.
      destruct (decide (id = x)) as [<-|Hx].
      * split; [done | by right].
      * destruct (decide (from = to)) as [<-|].
        -- rewrite Hin, Howner. split; [by intros [[[? ?] ?]|?] | by left].
        -- rewrite Howner. split; [by intros [[? ?]|?] | by left].
    + destruct (decide (from = a)) as [<-|Hne'].
      * rewrite Hin, Howner. destruct (decide (id = x)) as [<-|Hx].
        -- split; [by intros [_ ?] | by intros [_ ?]].
        -- split; [by intros [? _] | done].
      * rewrite Howner. destruct (decide (id = x)) as [<-|Hx]; [|done].
        split; [intros [_ ?]; congruence | by intros [_ ?]].
  - intros a. rewrite Hlist.
    destruct (decide (to = a)) as [<-|Hne].
    + apply NoDup_app. destruct (decide (from = to)) as [<-|Hft].
      * split; [done|]. split; [|apply NoDup_singleton].
        intros x Hx ->%list_elem_of_singleton. done.
      * split; [apply Honce|]. split; [|apply NoDup_singleton].
        intros x Hx ->%list_elem_of_singleton.
        apply Howner in Hx as [_ Hx]. congruence.
    + destruct (decide (from = a)); [done | apply Honce].
Qed.

(** A token that had no owner is handed to [to]. *)
Lemma tracked_mint s s' to id :
  tracked s → _ownerOf s id = 0 → to ≠ 0 →
  _owners s' = <[id := to]> (_owners s) →
  userOwnedTokens s' = <[to := tokens_of s to ++ [id]]> (userOwnedTokens s) →
  tracked s'.
Proof.
  intros [Howner Honce] Hnone Hto0 Howners Hlists.
  assert (∀ a, id ∉ tokens_of s a) as Hfresh.
  { intros a Hin. apply Howner in Hin as [? ?]. congruence. }
  assert (∀ x, _ownerOf s' x = if decide (id = x) then to else _ownerOf s x)
    as Hnew.
  { intros x. unfold _ownerOf. rewrite Howners. apply read_insert. }
  assert (∀ a, tokens_of s' a
               = if decide (to = a) then tokens_of s to ++ [id]
                 else tokens_of s a) as Hlist.
  { intros a. unfold tokens_of in *. rewrite Hlists, read_insert.
    repeat case_decide; congruence. }
  constructor.
  - intros a x. rewrite Hlist, Hnew.
    destruct (decide (to = a)) as [<-|Hne].
    + rewrite elem_of_app, list_elem_of_singleton, Howner.
      destruct (decide (id = x)) as [<-|Hx].
      * split; [done | by right].
      * split; [by intros [[? ?]|?] | by left].
    + rewrite Howner. destruct (decide (id = x)) as [<-|Hx]; [|done].
      split; [intros [? ?]; congruence | by intros [_ ?]].
  - intros a. rewrite Hlist. destruct (decide (to = a)) as [<-|]; [|apply Honce].
    apply NoDup_app. split; [apply Honce|]. split; [|apply NoDup_singleton].
    intros x Hx ->%list_elem_of_singleton. by apply (Hfresh to).
Qed.

Section Contract.

Variable keccak256 : string → bytes32.
Variable verifyProof : Z * Z → (Z * Z) * (Z * Z) → Z * Z → list Z → bool.

#[local] Abbreviation exec := (exec keccak256 verifyProof).
#[local] Abbreviation reenter := (reenter keccak256 verifyProof).
#[local] Abbreviation received := (received keccak256 verifyProof).

Definition settles (call : Call) : Prop :=
  no_reentrant_transfer call = true →
  ∀ now msg s s', wf s → tracked s → exec now call msg s = inr s' → tracked s'.

Lemma reenter_tracked now calls s :
  Forall (fun '(_, inner) => settles inner) calls →
  forallb (fun '(_, inner) => no_reentrant_transfer inner) calls = true →
  wf s → tracked s → tracked (reenter now calls s).
Proof.
  intros Hcalls. revert s.
  induction Hcalls as [|[msg' inner] calls Hinner _ IH];
    intros s Hcalm Hwf Htracked; [done|].
  cbn in Hcalm. apply andb_true_iff in Hcalm as [Hhead Htail].
  cbn. destruct (MentalHealthDataNFT.exec _ _ now inner msg' s)
    as [failure|s'] eqn:E.
  - by apply IH.
  - apply IH; [done | |].
    + by destruct (exec_safe keccak256 verifyProof inner now msg' s s' Hwf E).
    + by apply (Hinner Hhead now msg' s s').
Qed.

Lemma received_quiet now receiver s s' :
  match receiver with Contract (_ :: _) _ => false | _ => true end = true →
  received now receiver s = inr s' → s' = s.
Proof.
  destruct receiver as [|[|call calls] reply]; cbn; try done.
  - by intros _ [= <-].
  - intros _. destruct reply; cbn; try done.
    + by intros [= <-].
    + by destruct (String.eqb reason "").
Qed.

Lemma transferred_tracked msg s t from to id :
  tracked s → ERC721_transferFrom msg s from to id = inr t →
  tracked (_updateOwnershipTracking t from to id).
Proof.
  intros Htracked H.
  unfold ERC721_transferFrom, _transfer, ownerOf in H. run. bools.
  assert (_ownerOf s id = from) as Hfrom by congruence.
  subst t.
  eapply (tracked_transfer s _ from to id Htracked Hfrom);
    try done; congruence.
Qed.

Lemma exec_settles call : settles call.
Proof.
  induction call as [call IH] using Call_nested_ind.
  intros Hcalm now msg s s' Hwf Htracked H.
  destruct call.
  - rewrite exec_MintDataNFT in H.
    apply mintDataNFT_inr in H as (Hallowed & t & Ht & _ & ->).
    destruct Hallowed as (_ & _ & _ & _ & Hlevel & Hfresh & _ & _ & Hto & Hnew).
    apply (tracked_core t); [done | done |].
    assert (tracked (minted now s to dataHash0 privacyLevel0 dataCategories0
                       zkProof0)) as Hminted
      by by eapply (tracked_mint s _ to (_tokenIdCounter s)).
    destruct (minted_safe now s to dataHash0 privacyLevel0 dataCategories0
                zkProof0 Hwf Hto Hfresh Hlevel) as [Hwf' _].
    destruct receiver as [|calls reply]; cbn in Ht.
    + by injection Ht as <-.
    + destruct reply; cbn in Ht; try discriminate.
      * injection Ht as <-. by apply reenter_tracked.
      * by destruct (String.eqb reason "").
  - cbn [MentalHealthDataNFT.exec] in H.
    unfold grantResearchLicense, nonReentrant, ownerOf, add, transfer in H.
    run; subst; by apply (tracked_core s).
  - cbn [MentalHealthDataNFT.exec] in H.
    unfold requestDataAccess, nonpayable in H.
    run. by subst.
  - cbn [MentalHealthDataNFT.exec] in H.
    unfold authorizeViewer, ownerOf, nonpayable in H.
    run. subst. by apply (tracked_core s).
  - cbn [MentalHealthDataNFT.exec] in H.
    unfold revokeViewerAccess, ownerOf, nonpayable in H.
    run. subst. by apply (tracked_core s).
  - cbn [MentalHealthDataNFT.exec] in H.
    unfold updatePrivacyLevel, ownerOf, nonpayable in H.
    run. subst. by apply (tracked_core s).
  - cbn [MentalHealthDataNFT.exec] in H. unfold transferFrom, nonpayable in H.
    run. subst. by eapply transferred_tracked.
  - rewrite exec_SafeTransferFrom in H.
    unfold safeTransferFrom, ERC721_safeTransferFrom, nonpayable in H.
    run. subst.
    match goal with
    | Hr : MentalHealthDataNFT.received _ _ _ _ _ = inr _ |- _ =>
        apply received_quiet in Hr; [subst|done]
    end.
    eapply transferred_tracked; [done|].
    unfold ERC721_transferFrom.
    repeat match goal with Heq : _ = inr _ |- _ => rewrite Heq; cbn end.
    reflexivity.
  - cbn [MentalHealthDataNFT.exec] in H.
    unfold pause, _pause, whenNotPaused, onlyRole, nonpayable in H.
    run. subst. by apply (tracked_core s).
  - cbn [MentalHealthDataNFT.exec] in H.
    unfold unpause, _unpause, whenPaused, onlyRole, nonpayable in H.
    run. subst. by apply (tracked_core s).
  - cbn [MentalHealthDataNFT.exec] in H. unfold approve, ownerOf, nonpayable in H.
    run. subst. by apply (tracked_core s).
  - cbn [MentalHealthDataNFT.exec] in H.
    unfold setApprovalForAll, nonpayable in H.
    run. subst. by apply (tracked_core s).
  - cbn [MentalHealthDataNFT.exec] in H. unfold grantRole, onlyRole, nonpayable in H.
    run. subst. by apply (tracked_core s).
  - cbn [MentalHealthDataNFT.exec] in H.
    unfold revokeRole, onlyRole, nonpayable in H.
    run. subst. by apply (tracked_core s).
  - cbn [MentalHealthDataNFT.exec] in H. unfold renounceRole, nonpayable in H.
    run. subst. by apply (tracked_core s).
Qed.

(** The states reached by calls in which no receiver of
    [safeTransferFrom] calls back. *)
Inductive settled : State → Prop :=
| settled_deployed (msg : Msg) (_zkVerifier : address) :
    settled (constructor keccak256 msg _zkVerifier)
| settled_call (s s' : State) (now : Z) (call : Call) (msg : Msg) :
    settled s → no_reentrant_transfer call = true →
    exec now call msg s = inr s' → settled s'
| settled_funded (s : State) (amount : Z) :
    settled s → 0 ≤ amount → settled (with_balance (balance s + amount) s).

Lemma settled_reachable s : settled s → reachable keccak256 verifyProof s.
Proof.
  induction 1 as [msg v|s s' now call msg _ IH _ H|s amount _ IH Hamount].
  - apply reachable_deployed.
  - by eapply reachable_call.
  - by apply reachable_funded.
Qed.

Lemma constructor_tracked msg _zkVerifier :
  tracked (constructor keccak256 msg _zkVerifier).
Proof.
  constructor; unfold tokens_of, _ownerOf, read; cbn; intros a.
  - intros id. rewrite !lookup_empty. cbn. rewrite elem_of_nil.
    split; [done | by intros [? ?]].
  - rewrite lookup_empty. apply NoDup_nil_2.
Qed.

Lemma settled_tracked s : settled s → tracked s.
Proof.
  induction 1 as [msg v|s s' now call msg Hs IH Hcalm H|s amount _ IH _].
  - apply constructor_tracked.
  - apply (exec_settles call Hcalm now msg s s'); [|done|done].
    by apply (reachable_wf keccak256 verifyProof), settled_reachable.
  - by apply (tracked_core s).
Qed.

Lemma ownerOf_inr s id owner :
  ownerOf s id = inr owner ↔ owner ≠ 0 ∧ _ownerOf s id = owner.
Proof.
  unfold ownerOf, require, bind. destruct (_ownerOf s id =? 0) eqn:E; cbn.
  - apply Z.eqb_eq in E. split; [done|]. intros [? ?]. congruence.
  - apply Z.eqb_neq in E. split.
    + intros [= <-]. done.
    + by intros [_ ->].
Qed.

(** X21.  As long as no receiver of [safeTransferFrom] calls back into
    the contract, [getUserTokens] is exact: it lists a token for a user
    exactly when [ownerOf] names that user as its owner, and lists it
    once. *)
Theorem token_lists_match_owners (s : State) (user : address) (id : Z) :
  settled s →
  (id ∈ getUserTokens s user ↔ ownerOf s id = inr user)
  ∧ NoDup (getUserTokens s user).
Proof.
  intros Hs. apply settled_tracked in Hs as [Howner Honce].
  split; [|apply Honce]. by rewrite ownerOf_inr, <- Howner.
Qed.

Lemma owner_can_transfer msg s from to id :
  value msg = 0%N → sender msg = from →
  isTransferable (token s id) = true →
  _ownerOf s id = from → from ≠ 0 → to ≠ 0 →
  transferFrom msg s from to id
  = inr (_updateOwnershipTracking
           (with_owners (<[id := to]> (_owners s))
              (with_tokenApprovals (delete id (_tokenApprovals s)) s))
           from to id).
Proof.
  intros Hvalue Hsender Htransferable Howner Hfrom Hto.
  unfold transferFrom, ERC721_transferFrom, _isApprovedOrOwner, _transfer,
    ownerOf, nonpayable.
  rewrite Hvalue, Htransferable, Howner, Hsender. cbn.
  replace (from =? 0) with false by (symmetry; by apply Z.eqb_neq).
  cbn. rewrite Z.eqb_refl. cbn.
  replace (to =? 0) with false by (symmetry; by apply Z.eqb_neq).
  reflexivity.
Qed.

(** X22.  A receiver that passes the token on while [safeTransferFrom]
    is still running leaves a stale entry behind: the ownership lists
    are brought up to date only after the receiver has run, so the
    token ends up listed for the receiver, who no longer owns it. *)
Theorem reentrant_transfer_leaves_stale_entry (now : Z) (msg msg' : Msg)
    (s s' : State) (from to next : address) (id : Z) (data : list Z) :
  sender msg' = to → value msg' = 0%N → next ≠ 0 → next ≠ to →
  exec now
    (SafeTransferFrom from to id data
       (Contract [(msg', TransferFrom to next id)] Selector)) msg s = inr s' →
  ownerOf s' id = inr next ∧ id ∈ getUserTokens s' to.
Proof.
  intros Hsender Hvalue Hnext Hne H.
  rewrite exec_SafeTransferFrom in H.
  unfold safeTransferFrom, ERC721_safeTransferFrom, nonpayable in H.
  run.
  match goal with
  | Ht : _transfer s from to id = inr ?t,
    Hr : MentalHealthDataNFT.received _ _ _ _ ?t = inr ?t' |- _ =>
      unfold _transfer, ownerOf in Ht; run; bools; subst t;
      cbn in Hr;
      rewrite owner_can_transfer in Hr;
        [injection Hr as <- | done | done | | | lia | done]
  end.
  - subst s'. rewrite ownerOf_inr.
    unfold getUserTokens, tokens_of, _ownerOf, _updateOwnershipTracking.
    cbn. rewrite !read_insert.
    repeat (rewrite decide_True by done).
    split; [done|]. rewrite !elem_of_app, !list_elem_of_singleton.
    by right.
  - done.
  - unfold _ownerOf. cbn. by rewrite read_insert, decide_True.
Qed.

End Contract.

Lemma play_settled calls s s' :
  settled toy_keccak256 toy_verifier s →
  forallb (fun '(_, _, call) => no_reentrant_transfer call) calls = true →
  play calls s = inr s' →
  settled toy_keccak256 toy_verifier s'.
Proof.
  revert s. induction calls as [|[[now msg] call] calls IH];
    intros s Hs Hcalm H.
  - by injection H as <-.
  - cbn in Hcalm. apply andb_true_iff in Hcalm as [Hhead Htail].
    cbn in H. apply bind_inr in H as (t & Ht & H).
    apply (IH t); [|done|done]. by eapply settled_call.
Qed.

(** After the three mints, account 2 hands token 0 to account 4. *)
Definition one_transfer : list (Z * Msg * Call) :=
  [(600, from_ 2, TransferFrom 2 4 0)].

Definition traded : State := outcome (play one_transfer minted_thrice).

Lemma traded_settled : settled toy_keccak256 toy_verifier traded.
Proof.
  apply (play_settled (one_token ++ two_more ++ one_transfer) deployed);
    [apply settled_deployed | by vm_compute | by vm_compute].
Qed.

Lemma token_lists_match_owners_witness :
  (0 ∈ getUserTokens traded 4 ↔ ownerOf traded 0 = inr 4)
  ∧ NoDup (getUserTokens traded 4).
Proof.
  apply (token_lists_match_owners toy_keccak256 toy_verifier traded 4 0).
  apply traded_settled.
Defined.

(** Account 2 sends token 0 to the contract at address 5, which sends
    it on to account 6 before it returns. *)
Definition forwarding : Call :=
  SafeTransferFrom 2 5 0 [] (Contract [(from_ 5, TransferFrom 5 6 0)] Selector).

Definition forwarded : State :=
  outcome (exec toy_keccak256 toy_verifier 700 forwarding (from_ 2)
             minted_thrice).

Lemma reentrant_transfer_leaves_stale_entry_witness :
  ownerOf forwarded 0 = inr 6 ∧ 0 ∈ getUserTokens forwarded 5.
Proof.
  apply (reentrant_transfer_leaves_stale_entry toy_keccak256 toy_verifier 700
           (from_ 2) (from_ 5) minted_thrice forwarded 2 5 6 0 []).
  - reflexivity.
  - reflexivity.
  - lia.
  - lia.
  - by vm_compute.
Defined.

End DataNFTTracking.
(** ** The marketplace *)

Module MarketplaceExtra.

Import Evm EvmFacts DataSovereigntyMarketplace.

Local Open Scope string_scope.
Local Open Scope list_scope.
Local Open Scope Z_scope.

Ltac fields :=
  cbn [_owner _paused _entered dataContract listings purchaseRequests
       approvedResearchers listingCounter platformFeePercent balance
       with_owner with_paused with_entered with_listings with_purchaseRequests
       with_approvedResearchers with_listingCounter with_platformFeePercent
       with_balance
       tokenId seller price licenseDuration allowedUseCases isActive
       listingTime delist
       listingId researcher researchPurpose ethicsApproval offerPrice
       isApproved requestTime approve_request] in *.

(** The data contract grants no license to a caller who sends less than
    the compensation. *)
Lemma grantResearchLicense_needs_payment paid now msg nft id researcher
    licenseDuration licenseTerms compensationAmount :
  Z.of_N (value msg) < compensationAmount →
  fails (MentalHealthDataNFT.grantResearchLicense paid now msg nft id
           researcher licenseDuration licenseTerms compensationAmount).
Proof.
  intros Hless.
  unfold MentalHealthDataNFT.grantResearchLicense,
    MentalHealthDataNFT.nonReentrant.
  apply fails_bind. intros _ _. apply fails_bind. intros s' H. exfalso.
  unfold MentalHealthDataNFT.ownerOf, add in H.
  run; bools; cbn in *; lia.
Qed.

Section Contract.

Variable this : address.
Variable keccak256 : string → bytes32 → list string → bytes32.

#[local] Abbreviation exec := (exec this keccak256).
#[local] Abbreviation reachable := (reachable this keccak256).

(** What holds of the marketplace between transactions: the fee is at
    most [MAX_FEE], an active listing has a price, and every purchase
    request offers something. *)
Record sound (s : State) : Prop := {
  sound_fee : platformFeePercent s ≤ MAX_FEE;
  sound_price : ∀ id, isActive (listing s id) = true → 0 < price (listing s id);
  sound_offer : ∀ id request, request ∈ requests s id → 0 < offerPrice request;
}.

Lemma sound_core s s' :
  platformFeePercent s = platformFeePercent s' →
  listings s = listings s' → purchaseRequests s = purchaseRequests s' →
  sound s → sound s'.
Proof.
  destruct s, s'. cbn. intros -> -> -> []. by constructor.
Qed.

Lemma _executeLicensePurchase_fails now s nft listingId requestIndex
    sellerAccepts :
  (∀ request, requests s listingId !! requestIndex = Some request →
              0 < offerPrice request) →
  fails (_executeLicensePurchase this keccak256 now s nft listingId
           requestIndex sellerAccepts).
Proof.
  intros Hoffer. unfold _executeLicensePurchase.
  destruct (requests s listingId !! requestIndex) as [request|];
    [|by eexists].
  specialize (Hoffer request eq_refl).
  apply fails_bind. intros [platformFee sellerAmount] _.
  apply fails_bind. intros s' Hs'.
  apply fails_bind. intros nft' Hnft. exfalso.
  destruct (grantResearchLicense_needs_payment false now
              {| sender := this; value := 0 |} nft
              (tokenId (listing s listingId)) (researcher request)
              (licenseDuration (listing s listingId))
              (keccak256 (researchPurpose request) (ethicsApproval request)
                 (allowedUseCases (listing s listingId)))
              (offerPrice request)) as [failure Hfailure]; [cbn; lia|].
  unfold transfer in Hs'. run. subst s'. cbn in Hnft. congruence.
Qed.

Lemma approvePurchaseRequest_fails now msg s nft listingId requestIndex
    sellerAccepts :
  sound s →
  fails (approvePurchaseRequest this keccak256 now msg s nft listingId
           requestIndex sellerAccepts).
Proof.
  intros Hsound. unfold approvePurchaseRequest, nonReentrant.
  apply fails_bind. intros _ _. apply fails_bind. intros _ _.
  apply fails_bind. intros [s' nft'] H. exfalso.
  run.
  change (requests (with_entered true s) listingId)
    with (requests s listingId) in *.
  destruct (requests s listingId !! Z.to_nat requestIndex) as [request|] eqn:E1;
    [|done].
  run.
  match goal with
  | H : _executeLicensePurchase _ _ _ ?s1 _ _ _ _ = inr _ |- _ =>
      destruct (_executeLicensePurchase_fails now s1 nft listingId
                  (Z.to_nat requestIndex) sellerAccepts) as [failure Hfailure];
        [|congruence]
  end.
  intros request'. unfold requests at 1.
  cbn [purchaseRequests with_purchaseRequests].
  rewrite read_insert, decide_True by done.
  intros Hlookup. apply list_lookup_insert_Some in Hlookup.
  assert (0 < offerPrice request) as Hoffer.
  { apply (sound_offer _ Hsound listingId).
    by eapply list_elem_of_lookup_2. }
  destruct Hlookup as [(_ & <- & _)|(Hne & _)]; [done | done].
Qed.

Lemma constructor_sound msg _dataContract :
  sound (constructor msg _dataContract).
Proof.
  constructor; unfold listing, requests, read; cbn; intros id;
    rewrite ?lookup_empty; cbn; try done.
  intros request Hin. by apply elem_of_nil in Hin.
Qed.

Lemma exec_sound now call msg s nft s' nft' :
  sound s → exec now call msg (s, nft) = inr (s', nft') → sound s'.
Proof.
  intros Hsound H. destruct call; cbn [DataSovereigntyMarketplace.exec] in H;
    unfold keep in H.
  - unfold listDataForLicense, nonReentrant, nonpayable, whenNotPaused,
      MentalHealthDataNFT.ownerOf, add in H.
    run. bools. subst. destruct Hsound.
    constructor; unfold listing, requests in *; fields; try done.
    intros id. rewrite read_insert. case_decide; [fields; lia|].
    apply sound_price0.
  - unfold submitPurchaseRequest, nonReentrant, nonpayable, whenNotPaused in H.
    run. bools. subst. destruct Hsound.
    constructor; unfold listing, requests in *; fields; try done.
    intros id request. rewrite read_insert.
    case_decide; [|apply sound_offer0]. subst id.
    rewrite elem_of_app, list_elem_of_singleton.
    intros [Hin| ->]; [by eapply sound_offer0|]. fields.
    match goal with
    | Hactive : isActive _ = true |- _ => apply sound_price0 in Hactive
    end.
    lia.
  - destruct (approvePurchaseRequest_fails now msg s nft listingId0
                requestIndex sellerAccepts Hsound) as [failure Hfailure].
    congruence.
  - unfold addApprovedResearcher, nonpayable, onlyOwner in H.
    run. subst. by apply (sound_core s).
  - unfold removeApprovedResearcher, nonpayable, onlyOwner in H.
    run. subst. by apply (sound_core s).
  - unfold updatePlatformFee, nonpayable, onlyOwner in H.
    run. bools. subst. destruct Hsound. by constructor.
  - unfold delistData, nonpayable in H.
    run. subst. destruct Hsound.
    constructor; unfold listing, requests in *; fields; try done.
    intros id. rewrite read_insert. case_decide; [done|].
    apply sound_price0.
  - unfold withdrawPlatformFees, nonpayable, onlyOwner, transfer in H.
    run. subst. by apply (sound_core s).
  - unfold pause, _pause, whenNotPaused, nonpayable, onlyOwner in H.
    run. subst. by apply (sound_core s).
  - unfold unpause, _unpause, whenPaused, nonpayable, onlyOwner in H.
    run. subst. by apply (sound_core s).
  - unfold transferOwnership, nonpayable, onlyOwner in H.
    run. subst. by apply (sound_core s).
  - unfold renounceOwnership, nonpayable, onlyOwner in H.
    run. subst. by apply (sound_core s).
Qed.

Lemma reachable_sound s : reachable s → sound s.
Proof.
  induction 1 as [msg d|s s' nft nft' now call msg _ IH H|s amount _ IH _].
  - apply constructor_sound.
  - by eapply exec_sound.
  - by apply (sound_core s).
Qed.

(** X23.  No purchase request can ever be approved.  The marketplace
    calls [grantResearchLicense] on the data contract without sending
    any ether and names the offer as the compensation; the data contract
    asks for at least the compensation, and every stored offer is above
    zero.  So [approvePurchaseRequest] reverts in every state of the
    marketplace, whatever the state of the data contract, whoever calls
    it and however much ether the marketplace holds. *)
Theorem approvePurchaseRequest_always_reverts (s : State)
    (nft : MentalHealthDataNFT.State) (now : Z) (msg : Msg)
    (listingId requestIndex : Z) (sellerAccepts : bool) :
  reachable s →
  ∃ failure,
    approvePurchaseRequest this keccak256 now msg s nft listingId requestIndex
      sellerAccepts = inl failure.
Proof.
  intros Hs. by apply approvePurchaseRequest_fails, reachable_sound.
Qed.

(** X24.  The platform fee is at most a tenth of an offer: the fee rate
    never exceeds [MAX_FEE], so for an offer that does not overflow the
    multiplication the fee is at most [offer / 10], and subtracting it
    from the offer cannot underflow. *)
Theorem platform_fee_is_at_most_a_tenth (s : State) (offer : Z) :
  reachable s → 0 ≤ offer → offer * MAX_FEE ≤ MAX_UINT256 →
  ∃ platformFee,
    split_payment s offer = inr (platformFee, offer - platformFee)
    ∧ platformFee ≤ offer / 10.
Proof.
  intros Hs Hoffer Hroom. apply reachable_sound in Hs as [Hfee _ _].
  unfold MAX_FEE in *.
  assert (offer * platformFeePercent s / 10000 ≤ offer / 10) as Hbound.
  { replace (offer / 10) with (offer * 1000 / 10000)
      by (rewrite <- (Z.div_div _ 1000 10), Z.div_mul; lia).
    apply Z.div_le_mono; [lia | nia]. }
  assert (offer / 10 ≤ offer) as Htenth
    by (apply Z.div_le_upper_bound; lia).
  exists (offer * platformFeePercent s / 10000).
  split; [|lia].
  unfold split_payment, mul, div, sub.
  replace (offer * platformFeePercent s <=? MAX_UINT256) with true
    by (symmetry; apply Z.leb_le; nia).
  cbn.
  replace (offer * platformFeePercent s / 10000 <=? offer) with true
    by (symmetry; apply Z.leb_le; lia).
  reflexivity.
Qed.

End Contract.

(** *** A deployment *)

Definition market_address : address := 50.

Definition toy_terms (researchPurpose : string) (ethicsApproval : bytes32)
    (allowedUseCases : list string) : bytes32 :=
  ethicsApproval.

(** The calls of a list in turn, with the data contract in the state
    [nft] throughout. *)
Fixpoint trade (nft : MentalHealthDataNFT.State)
    (calls : list (Z * Msg * Call)) (s : State) : Result State :=
  match calls with
  | [] => inr s
  | (now, msg, call) :: calls =>
      do (s, _) <- exec market_address toy_terms now call msg (s, nft);
      trade nft calls s
  end.

Lemma trade_reachable nft calls s s' :
  reachable market_address toy_terms s → trade nft calls s = inr s' →
  reachable market_address toy_terms s'.
Proof.
  revert s. induction calls as [|[[now msg] call] calls IH]; intros s Hs H.
  - by injection H as <-.
  - cbn [trade] in H. apply bind_inr in H as ([t nft'] & Ht & H).
    apply (IH t); [|done]. by eapply reachable_call.
Qed.

Definition market_deployed : State :=
  constructor (DataNFTExtra.from_ 1) 40.

(** The owner of the marketplace approves researcher 8; account 2, who
    owns token 0, lists it for 100; the researcher offers 120. *)
Definition one_offer : list (Z * Msg * Call) :=
  [(700, DataNFTExtra.from_ 1, AddApprovedResearcher 8);
   (710, DataNFTExtra.from_ 2, ListDataForLicense 0 100 3600 ["research"]);
   (720, DataNFTExtra.from_ 8, SubmitPurchaseRequest 0 "sleep study" 77 120)].

Definition offered : State :=
  match trade DataNFTExtra.minted_thrice one_offer market_deployed with
  | inr s => s
  | inl _ => market_deployed
  end.

(** The marketplace with 1000 wei forced on it. *)
Definition funded : State := with_balance (balance offered + 1000) offered.

Lemma funded_reachable : reachable market_address toy_terms funded.
Proof.
  apply reachable_funded; [|lia].
  apply (trade_reachable DataNFTExtra.minted_thrice one_offer market_deployed);
    [apply reachable_deployed | by vm_compute].
Qed.

Lemma approvePurchaseRequest_always_reverts_witness :
  ∃ failure,
    approvePurchaseRequest market_address toy_terms 800 (DataNFTExtra.from_ 2)
      funded DataNFTExtra.minted_thrice 0 0 true = inl failure.
Proof.
  apply (approvePurchaseRequest_always_reverts market_address toy_terms funded
           DataNFTExtra.minted_thrice 800 (DataNFTExtra.from_ 2) 0 0 true).
  apply funded_reachable.
Defined.

Lemma platform_fee_is_at_most_a_tenth_witness :
  ∃ platformFee,
    split_payment funded 120 = inr (platformFee, 120 - platformFee)
    ∧ platformFee ≤ 120 / 10.
Proof.
  apply (platform_fee_is_at_most_a_tenth market_address toy_terms funded 120).
  - apply funded_reachable.
  - lia.
  - by vm_compute.
Defined.

(** What the seller's approval of the offer runs into. *)
Example approval_of_the_offer :
  approvePurchaseRequest market_address toy_terms 800 (DataNFTExtra.from_ 2)
    funded DataNFTExtra.minted_thrice 0 0 true
  = revert "Not token owner".
Proof. by vm_compute. Qed.

End MarketplaceExtra.
